(** * Acceptance-test harness for Argo workflows: a shallow embedding

    The Python module [python_test_interface.py] is embedded function by
    function.  Pure helpers become Rocq functions; functions that talk to
    the cluster, the clock or standard output become state-passing
    computations over an explicit environment of oracles; a raised
    exception is a value of [exn] carried by [Raise]. *)

From Stdlib Require Import ZArith NArith List String Ascii Bool Lia.
From Stdlib Require Import DecimalString DecimalPos.
Import ListNotations.

Local Open Scope Z_scope.
Local Open Scope string_scope.

(* ===================================================================== *)
(** ** Python values used by the harness *)
(* ===================================================================== *)

(** Strings are sequences of characters with code point below 256; the
    character classes below are Python's on that range. *)
Module Py.

(** The exceptions the module can see.  [ApiException] stands for whatever
    the Kubernetes client or the file system raises; every class listed
    derives from [Exception]. *)
Inductive exn : Type :=
| ValueError (msg : string)
| OverflowError (msg : string)
| KeyError (key : string)
| AssertionError (msg : string)
| TimeoutError (msg : string)
| FileNotFoundError (msg : string)
| RecursionError (msg : string)
| TypeError (msg : string)
| ApiException (msg : string).

(** Outcome of a call: a value or a raised exception. *)
Inductive result (A : Type) : Type :=
| Ok (a : A)
| Raise (e : exn).
Arguments Ok {A} a.
Arguments Raise {A} e.

Definition bind {A B : Type} (r : result A) (k : A -> result B) : result B :=
  match r with
  | Ok a => k a
  | Raise e => Raise e
  end.

(** [str.isspace] for one character. *)
Definition isspace (c : ascii) : bool :=
  let n := N_of_ascii c in
  ((9 <=? n) && (n <=? 13) || (28 <=? n) && (n <=? 32)
   || (n =? 133) || (n =? 160))%N.

Definition isdigit (c : ascii) : bool :=
  let n := N_of_ascii c in ((48 <=? n) && (n <=? 57))%N.

Definition digit_value (c : ascii) : Z := Z.of_N (N_of_ascii c) - 48.

Definition lower_char (c : ascii) : ascii :=
  let n := N_of_ascii c in
  if ((65 <=? n) && (n <=? 90)
      || (192 <=? n) && (n <=? 222) && negb (n =? 215))%N
  then ascii_of_N (n + 32)
  else c.

(** [s.lower()] *)
Fixpoint lower (s : string) : string :=
  match s with
  | EmptyString => EmptyString
  | String c r => String (lower_char c) (lower r)
  end.

(** [s.lstrip()] *)
Fixpoint lstrip (s : string) : string :=
  match s with
  | EmptyString => EmptyString
  | String c r => if isspace c then lstrip r else s
  end.

(** [s.rstrip()] *)
Fixpoint rstrip (s : string) : string :=
  match s with
  | EmptyString => EmptyString
  | String c r =>
      match rstrip r with
      | EmptyString => if isspace c then EmptyString else String c EmptyString
      | r' => String c r'
      end
  end.

(** [s.strip()] *)
Definition strip (s : string) : string := rstrip (lstrip s).

(** [s.endswith(suf)] *)
Fixpoint endswith (s suf : string) : bool :=
  (s =? suf)%string
  || match s with
     | EmptyString => false
     | String _ r => endswith r suf
     end.

(** [s.startswith(p)] *)
Definition startswith (s p : string) : bool := String.prefix p s.

(** [s[:-n]] for [n > 0] *)
Definition drop_last (n : nat) (s : string) : string :=
  String.substring 0 (String.length s - n) s.

(** [s[n:]] *)
Fixpoint drop_first (n : nat) (s : string) : string :=
  match n, s with
  | O, _ => s
  | S n', String _ r => drop_first n' r
  | S _, EmptyString => EmptyString
  end.

(** [needle in hay] on strings *)
Fixpoint contains (hay needle : string) : bool :=
  String.prefix needle hay
  || match hay with
     | EmptyString => false
     | String _ r => contains r needle
     end.

(** Truth value of a string and of an optional string ([None] and [""]
    are false). *)
Definition truthy (o : option string) : bool :=
  match o with
  | Some (String _ _) => true
  | _ => false
  end.

(** [a or b] on optional strings. *)
Definition or_else (a b : option string) : option string :=
  if truthy a then a else b.

(** [str(x)] where [x] may be [None], as an f-string prints it. *)
Definition str_opt (o : option string) : string :=
  match o with
  | Some s => s
  | None => "None"
  end.

(** [str(n)] for an integer. *)
Definition str_int (n : Z) : string := NilZero.string_of_int (Z.to_int n).

Fixpoint has_char (c : ascii) (s : string) : bool :=
  match s with
  | EmptyString => false
  | String d r => (d =? c)%char || has_char c r
  end.

Definition single_quote : ascii := "'"%char.

Definition double_quote : ascii := ascii_of_nat 34.

Definition backslash : ascii := ascii_of_nat 92.

(** [c.isprintable()] for one character of the range of [string]: not a
    control character, and neither the no-break space nor the soft hyphen. *)
Definition isprintable (c : ascii) : bool :=
  let n := nat_of_ascii c in
  (32 <=? n)%nat && negb (n =? 127)%nat
  && negb ((128 <=? n)%nat && (n <=? 160)%nat) && negb (n =? 173)%nat.

Definition hex_digit (n : nat) : ascii :=
  match String.get n "0123456789abcdef" with
  | Some c => c
  | None => "0"%char
  end.

(** One character as [repr] writes it between the quotes [quote]. *)
Definition repr_char (quote c : ascii) : string :=
  let n := nat_of_ascii c in
  if (c =? quote)%char || (c =? backslash)%char then
    String backslash (String c EmptyString)
  else if (n =? 9)%nat then String backslash "t"
  else if (n =? 10)%nat then String backslash "n"
  else if (n =? 13)%nat then String backslash "r"
  else if isprintable c then String c EmptyString
  else
    String backslash
      (String "x"
         (String (hex_digit (n / 16)) (String (hex_digit (n mod 16)) EmptyString))).

Fixpoint repr_chars (quote : ascii) (s : string) : string :=
  match s with
  | EmptyString => EmptyString
  | String c r => repr_char quote c ++ repr_chars quote r
  end.

(** [repr(s)]: between single quotes, or between double quotes when the
    string has a single quote and no double quote in it; the quote in use
    and the backslash are escaped, and the characters that are not
    printable are written as [\t], [\n], [\r] or [\xNN]. *)
Definition repr (s : string) : string :=
  let quote :=
    if has_char single_quote s && negb (has_char double_quote s)
    then double_quote else single_quote in
  String quote (repr_chars quote s ++ String quote EmptyString).

(** [repr] of a list of strings. *)
Definition repr_list (l : list string) : string :=
  "[" ++ String.concat ", " (map repr l) ++ "]".

(** [str(e)]; for a [KeyError] it is the [repr] of the key. *)
Definition str_exn (e : exn) : string :=
  match e with
  | KeyError key => repr key
  | ValueError msg | OverflowError msg | AssertionError msg
  | TimeoutError msg | FileNotFoundError msg | RecursionError msg
  | TypeError msg | ApiException msg => msg
  end.

(** The line feed. *)
Definition nl : string := String (ascii_of_nat 10) EmptyString.

(** [sorted(l)], as a stable insertion sort under the strict order [lt]. *)
Fixpoint insert_sorted {A : Type} (lt : A -> A -> bool) (x : A) (l : list A)
  : list A :=
  match l with
  | [] => [x]
  | y :: r => if lt x y then x :: l else y :: insert_sorted lt x r
  end.

Definition sorted_by {A : Type} (lt : A -> A -> bool) (l : list A) : list A :=
  fold_right (insert_sorted lt) [] (rev l).

(** [sorted(l)] on strings: code point order. *)
Definition sorted (l : list string) : list string := sorted_by String.ltb l.

(** The parts of a path, as [str(path).split("/")]. *)
Fixpoint split_slash (current : string) (s : string) : list string :=
  match s with
  | EmptyString => [current]
  | String c r =>
      if (c =? "/")%char then current :: split_slash EmptyString r
      else split_slash (current ++ String c EmptyString) r
  end.

Fixpoint parts_ltb (a b : list string) : bool :=
  match a, b with
  | _, [] => false
  | [], _ :: _ => true
  | x :: a', y :: b' =>
      String.ltb x y || ((x =? y)%string && parts_ltb a' b')
  end.

(** The order of [Path] objects: part by part. *)
Definition path_ltb (p q : string) : bool :=
  parts_ltb (split_slash EmptyString p) (split_slash EmptyString q).

(** [sorted(l)] on paths. *)
Definition sorted_paths (l : list string) : list string := sorted_by path_ltb l.

(** The distinct elements of [l] (a Python set built from it, listed). *)
Definition distinct (l : list string) : list string := nodup string_dec l.

(** A Python [dict] with string keys, in insertion order. *)
Definition dict (V : Type) : Type := list (string * V).

Fixpoint dict_get {V : Type} (d : dict V) (k : string) : option V :=
  match d with
  | [] => None
  | (k', v) :: r => if (k' =? k)%string then Some v else dict_get r k
  end.

(** [d.setdefault(k, []).append(v)] *)
Fixpoint dict_setdefault_append {V : Type} (d : dict (list V)) (k : string)
  (v : V) : dict (list V) :=
  match d with
  | [] => [(k, [v])]
  | (k', vs) :: r =>
      if (k' =? k)%string then (k', (vs ++ [v])%list) :: r
      else (k', vs) :: dict_setdefault_append r k v
  end.

(** Digits of a base-10 literal, with single underscores allowed between
    digits; [prev] says whether the previous character was a digit. *)
Fixpoint int_digits (acc : Z) (prev : bool) (s : string) : option Z :=
  match s with
  | EmptyString => if prev then Some acc else None
  | String c r =>
      if isdigit c then int_digits (10 * acc + digit_value c) true r
      else if (c =? "_")%char then
             if prev then int_digits acc false r else None
      else None
  end.

(** [int(s)]: surrounding whitespace, an optional sign, then digits.  The
    bound that recent interpreters put on the number of digits of a literal
    (4300 unless configured otherwise) is not part of this function; the
    properties of literals are stated within that bound. *)
Definition int_literal (s : string) : option Z :=
  match strip s with
  | String "+" r => int_digits 0 false r
  | String "-" r => option_map Z.opp (int_digits 0 false r)
  | t => int_digits 0 false t
  end.

Definition int (s : string) : result Z :=
  match int_literal s with
  | Some n => Ok n
  | None =>
      Raise (ValueError ("invalid literal for int() with base 10: " ++ repr s))
  end.

(** Rounding a positive quotient [n / d] to the nearest integer, ties to
    even. *)
Definition round_half_even (n d : Z) : Z :=
  let q := n / d in
  let r := n mod d in
  if (2 * r <? d)%Z then q
  else if (d <? 2 * r)%Z then q + 1
  else if Z.even q then q else q + 1.

(** [int(a / b)] for integers [a >= 0] and [b > 0] whose quotient is at
    least 2^-1022: the true division is the binary64 number nearest to the
    exact quotient (53 significant bits, ties to even), and [int] truncates
    it.  [None] is the overflow of the division. *)
Definition int_truediv_pos (a b : Z) : option Z :=
  if (a =? 0)%Z then Some 0
  else
    let la := Z.log2 a in
    let lb := Z.log2 b in
    (* 2^e <= a / b < 2^(e+1) *)
    let e := if (b * 2 ^ la <=? a * 2 ^ lb)%Z then la - lb else la - lb - 1 in
    let k := 52 - e in
    let m := if (0 <=? k)%Z then round_half_even (a * 2 ^ k) b
             else round_half_even a (b * 2 ^ (- k)) in
    if ((1024 <=? e) || ((e =? 1023) && (m =? 2 ^ 53)))%Z then None
    else Some (if (0 <=? k)%Z then m / 2 ^ k else m * 2 ^ (- k)).

(** [int(a / b)] for an integer [a] and [b > 0]; the sign is carried apart
    since rounding to nearest and truncation are both symmetric. *)
Definition int_truediv (a b : Z) : result Z :=
  match int_truediv_pos (Z.abs a) b with
  | Some q => Ok (Z.sgn a * q)
  | None => Raise (OverflowError "integer division result too large for a float")
  end.

(** A binary64 number: zero, or a sign and a magnitude [m / 2^k] whose
    numerator has 53 significant bits ([m * 2^(-k)] when [k] is negative). *)
Inductive float : Type :=
| FZero
| FNum (negative : bool) (m k : Z).

(** [a / b] for integers [a > 0] and [b > 0] whose quotient is at least
    2^-1022, rounded as in [int_truediv_pos]: the numerator and the exponent
    of the binary64 number nearest to the exact quotient.  [None] is the
    overflow of the division. *)
Definition truediv_pos (a b : Z) : option (Z * Z) :=
  let la := Z.log2 a in
  let lb := Z.log2 b in
  let e := if (b * 2 ^ la <=? a * 2 ^ lb)%Z then la - lb else la - lb - 1 in
  let k := 52 - e in
  let m := if (0 <=? k)%Z then round_half_even (a * 2 ^ k) b
           else round_half_even a (b * 2 ^ (- k)) in
  if ((1024 <=? e) || ((e =? 1023) && (m =? 2 ^ 53)))%Z then None
  else Some (m, k).

(** [a / b] for an integer [a] and [b > 0]. *)
Definition truediv (a b : Z) : result float :=
  if (a =? 0)%Z then Ok FZero
  else
    match truediv_pos (Z.abs a) b with
    | Some (m, k) => Ok (FNum (a <? 0)%Z m k)
    | None => Raise (OverflowError "integer division result too large for a float")
    end.

(** [m / 2^k > n] and [m / 2^k < n], for integers. *)
Definition magnitude_gtb (m k n : Z) : bool :=
  if (0 <=? k)%Z then (n * 2 ^ k <? m)%Z else (n <? m * 2 ^ (- k))%Z.

Definition magnitude_ltb (m k n : Z) : bool :=
  if (0 <=? k)%Z then (m <? n * 2 ^ k)%Z else (m * 2 ^ (- k) <? n)%Z.

(** [x > n] for a float [x] and an integer [n]: the interpreter compares
    the two exactly, without converting the integer. *)
Definition float_gtb_int (x : float) (n : Z) : bool :=
  match x with
  | FZero => (n <? 0)%Z
  | FNum false m k => magnitude_gtb m k n
  | FNum true m k => magnitude_ltb m k (- n)
  end.

(** A [datetime]: its time in microseconds (counted from the epoch when the
    value carries a UTC offset, on the wall clock when it carries none) and
    whether it carries an offset. *)
Record datetime : Type := {
  dt_micros : Z;
  dt_aware : bool
}.

(** [a - b] for two [datetime]s, in microseconds: a value with an offset
    and a value without cannot be subtracted. *)
Definition datetime_sub (a b : datetime) : result Z :=
  if Bool.eqb (dt_aware a) (dt_aware b) then Ok (dt_micros a - dt_micros b)
  else Raise (TypeError "can't subtract offset-naive and offset-aware datetimes").

(** [td.total_seconds()] for a [timedelta] of so many microseconds: the
    true division by 10^6. *)
Definition total_seconds (micros : Z) : result float := truediv micros 1000000.

End Py.

Import Py.

(* ===================================================================== *)
(** ** Duration helpers *)
(* ===================================================================== *)

(** [parse_duration_to_seconds] *)
Definition parse_duration_to_seconds (s : string) : result Z :=
  let s := lower (strip s) in
  if endswith s "ms" then
    bind (int (drop_last 2 s)) (fun n =>
    bind (int_truediv n 1000) (fun q =>
    Ok (Z.max 1 q)))
  else if endswith s "s" then
    int (drop_last 1 s)
  else if endswith s "m" then
    bind (int (drop_last 1 s)) (fun n => Ok (n * 60))
  else if endswith s "h" then
    bind (int (drop_last 1 s)) (fun n => Ok (n * 3600))
  else int s.


(* ===================================================================== *)
(** ** Data model *)
(* ===================================================================== *)

(** A workflow manifest; the harness never looks inside. *)
Inductive Manifest : Type := manifest_document (text : string).

(** One entry of [status.nodes].  A key that is absent or null is [None];
    [children] is the list that [n.get("children") or []] yields. *)
Record Node : Type := {
  displayName : option string;
  type : option string;
  phase : option string;
  podName : option string;
  templateName : option string;
  children : list string
}.

(** The empty dict that [nodes.get(node_id) or {}] falls back on. *)
Definition empty_node : Node :=
  {| displayName := None; type := None; phase := None; podName := None;
     templateName := None; children := [] |}.

Record Status : Type := {
  status_phase : option string;
  startedAt : option string;
  finishedAt : option string;
  status_nodes : dict Node
}.

Definition empty_status : Status :=
  {| status_phase := None; startedAt := None; finishedAt := None;
     status_nodes := [] |}.

Record Metadata : Type := {
  metadata_name : option string;
  metadata_namespace : option string
}.

Record Workflow : Type := {
  metadata : option Metadata;
  status : option Status
}.

(** [pod.spec.containers or []] and [pod.spec.init_containers or []], by
    container name. *)
Record Pod : Type := {
  containers : list string;
  init_containers : list string
}.

(** One entry of [expect.nodes]. *)
Record NodeExpect : Type := {
  selector : option (option string);   (* the selector and its displayName *)
  entry_displayName : option string;
  entry_phase : option string;
  logs_contains : list string          (* (n.get("logs") or {}).get("contains") or [] *)
}.

Record Expect : Type := {
  workflowPhase : option string;
  maxDuration : option string;
  expect_nodes : list NodeExpect
}.

Definition empty_expect : Expect :=
  {| workflowPhase := None; maxDuration := None; expect_nodes := [] |}.

(** A parsed scenario document; [None] is an absent key. *)
Record ScenarioDoc : Type := {
  doc_workflow : option Manifest;
  doc_workflowFile : option string;
  doc_name : option string;
  doc_description : option string;
  doc_tags : option (list string);
  doc_timeout : option string;
  doc_namespace : option string;
  doc_expect : option Expect
}.

Record TestScenario : Type := {
  path : string;
  name : string;
  description : string;
  tags : list string;
  timeout_seconds : Z;
  namespace : string;
  expect : Expect;
  workflow_inline : option Manifest;
  workflow_file : option string
}.

(* ===================================================================== *)
(** ** Pod-name resolution *)
(* ===================================================================== *)

Definition opt_eqb (a b : option string) : bool :=
  match a, b with
  | Some x, Some y => (x =? y)%string
  | None, None => true
  | _, _ => false
  end.

(** [_nodes_with_display_name] *)
Definition _nodes_with_display_name (nodes : dict Node) (display_name : string)
  : list string :=
  map fst
    (filter (fun kv => opt_eqb (displayName (snd kv)) (Some display_name))
       nodes).

(** [_derive_pod_name_from_pod_node] *)
Definition _derive_pod_name_from_pod_node (node_id wf_name : string)
  (template_name : option string) : option string :=
  if negb (truthy template_name) then None
  else
    let prefix := wf_name ++ "-" in
    if negb (startswith node_id prefix) then None
    else
      let suffix := drop_first (String.length prefix) node_id in
      if negb (truthy (Some suffix)) then None
      else Some (wf_name ++ "-" ++ str_opt template_name ++ "-" ++ suffix).

Definition nodes_get (nodes : dict Node) (node_id : string) : Node :=
  match dict_get nodes node_id with
  | Some n => n
  | None => empty_node
  end.

(** [_pod_name_from_node] *)
Definition _pod_name_from_node (nodes : dict Node) (node_id wf_name : string)
  : option string :=
  let n := nodes_get nodes node_id in
  if truthy (podName n) then podName n
  else if opt_eqb (type n) (Some "Pod") then
    _derive_pod_name_from_pod_node node_id wf_name (templateName n)
  else None.

(** The [for child_id in ...] loop of [_find_podname_in_subtree]; [search]
    is the recursive call. *)
Fixpoint for_children (search : string -> result (option string))
  (cs : list string) : result (option string) :=
  match cs with
  | [] => Ok None
  | child_id :: rest =>
      match search child_id with
      | Raise e => Raise e
      | Ok found => if truthy found then Ok found else for_children search rest
      end
  end.

(** [_find_podname_in_subtree].  The function keeps no record of the nodes
    it has been through; the only bound on its recursion is the
    interpreter's: [depth] is the number of frames still available, and a
    call made when none is left raises [RecursionError].  The text of its
    message stands for the interpreter's own, which depends on the place
    where the limit is met. *)
Fixpoint _find_podname_in_subtree (depth : nat) (nodes : dict Node)
  (node_id wf_name : string) : result (option string) :=
  match depth with
  | O => Raise (RecursionError "maximum recursion depth exceeded")
  | S depth' =>
      let direct := _pod_name_from_node nodes node_id wf_name in
      if truthy direct then Ok direct
      else
        let n := nodes_get nodes node_id in
        for_children
          (fun child_id => _find_podname_in_subtree depth' nodes child_id wf_name)
          (children n)
  end.

(** The debug line of [resolve_pod_name] for one candidate. *)
Definition debug_line (nodes : dict Node) (node_id : string) : string :=
  let n := nodes_get nodes node_id in
  "id=" ++ node_id ++ " type=" ++ str_opt (type n)
  ++ " templateName=" ++ str_opt (templateName n)
  ++ " phase=" ++ str_opt (phase n)
  ++ " children=" ++ str_int (Z.of_nat (List.length (children n))).

Definition not_resolvable_message (nodes : dict Node) (display_name : string)
  (start_ids : list string) : string :=
  "Node '" ++ display_name ++ "' found, but podName not resolvable via children."
  ++ nl ++ "  - "
  ++ String.concat (nl ++ "  - ") (map (debug_line nodes) start_ids).

(** The names listed by both not-found messages:
    [sorted({n.get("displayName") ... if n.get("displayName")})]. *)
Definition available_display_names (nodes : dict Node) : list string :=
  sorted (distinct
    (flat_map (fun kv => match displayName (snd kv) with
                         | Some (String c r) => [String c r]
                         | _ => []
                         end) nodes)).

Definition not_found_message (where_ : string) (dn : string)
  (available : list string) : string :=
  "Node '" ++ dn ++ "' not found in " ++ where_ ++ ". "
  ++ "Available displayNames (sample): " ++ repr_list (firstn 30 available).

(** The first [for node_id in start_ids] loop of [resolve_pod_name];
    [None] when it runs to its end. *)
Fixpoint for_roots (search : string -> result (option string))
  (ids : list string) : result (option string) :=
  match ids with
  | [] => Ok None
  | node_id :: rest =>
      match search node_id with
      | Raise e => Raise e
      | Ok pod => if truthy pod then Ok pod else for_roots search rest
      end
  end.

(** [resolve_pod_name] *)
Definition resolve_pod_name (depth : nat) (nodes : dict Node)
  (wf_name display_name : string) : result string :=
  let start_ids := _nodes_with_display_name nodes display_name in
  match start_ids with
  | [] =>
      Raise (AssertionError
        (not_found_message "status.nodes" display_name
           (available_display_names nodes)))
  | _ =>
      match
        for_roots
          (fun node_id => _find_podname_in_subtree depth nodes node_id wf_name)
          start_ids
      with
      | Raise e => Raise e
      | Ok (Some pod) => Ok pod
      | Ok None =>
          Raise (AssertionError
            (not_resolvable_message nodes display_name start_ids))
      end
  end.

(* ===================================================================== *)
(** ** The world outside: cluster, clock, files, standard output *)
(* ===================================================================== *)

(** What the world answers.  Every call to the outside is numbered (the
    [tick] of the state below) and the answer may depend on that number, so
    that an [Env] describes any course the cluster and the clock can take
    during one run.  Clock readings are in microseconds. *)
Record Env : Type := {
  time_time : nat -> Z;
  create_namespaced_custom_object : nat -> string -> Manifest -> result Workflow;
  get_namespaced_custom_object : nat -> string -> string -> result Workflow;
  read_namespaced_pod : nat -> string -> string -> result Pod;
  read_namespaced_pod_log : nat -> string -> string -> string -> result string;
  (* [glob.glob(dir/*.yaml)], each path resolved *)
  glob_yaml : nat -> string -> list string;
  (* [yaml.safe_load] of an opened scenario or manifest file *)
  load_scenario_yaml : nat -> string -> result ScenarioDoc;
  load_manifest_yaml : nat -> string -> result Manifest;
  load_kube_config : nat -> result unit;
  load_incluster_config : nat -> result unit;
  (* [Path.resolve] *)
  path_resolve : string -> string;
  (* [datetime.fromisoformat] *)
  fromisoformat : string -> result datetime;
  (* the format [.1f] applied to a number of microseconds, in seconds *)
  format_seconds_1f : Z -> string;
  (* frames the interpreter can still stack *)
  recursion_depth : nat
}.

(** A printed line.  The two result lines of [main] begin with a pictograph
    outside the character range of [string]; they are kept apart, with the
    values that the f-string interpolates. *)
Inductive output_line : Type :=
| Line (text : string)
| PassedLine (file wf_name : string)
| FailedLine (file message : string).

Record State : Type := {
  tick : nat;
  stdout : list output_line
}.

(** Outcome of a computation that may loop: [Unfinished] is a loop still
    running when the steps granted to it are used up. *)
Inductive outcome (A : Type) : Type :=
| Return (a : A)
| Throw (e : exn)
| Unfinished.
Arguments Return {A} a.
Arguments Throw {A} e.
Arguments Unfinished {A}.

Definition M (A : Type) : Type := State -> State * outcome A.

Definition ret {A : Type} (a : A) : M A := fun st => (st, Return a).

Definition throw {A : Type} (e : exn) : M A := fun st => (st, Throw e).

Definition mbind {A B : Type} (m : M A) (k : A -> M B) : M B :=
  fun st =>
    match m st with
    | (st', Return a) => k a st'
    | (st', Throw e) => (st', Throw e)
    | (st', Unfinished) => (st', Unfinished)
    end.

Notation "x <- m ;; k" := (mbind m (fun x => k))
  (at level 61, m at next level, right associativity).
Notation "m ;;; k" := (mbind m (fun _ => k))
  (at level 61, right associativity).

Definition lift {A : Type} (r : result A) : M A :=
  match r with
  | Ok a => ret a
  | Raise e => throw e
  end.

(** A call to the outside: it takes the next number. *)
Definition call {A : Type} (f : nat -> result A) : M A :=
  fun st =>
    let st' := {| tick := S (tick st); stdout := stdout st |} in
    match f (tick st) with
    | Ok a => (st', Return a)
    | Raise e => (st', Throw e)
    end.

Definition call_total {A : Type} (f : nat -> A) : M A :=
  call (fun t => Ok (f t)).

(** [try: m except Exception as e: h e] *)
Definition try_except {A : Type} (m : M A) (h : exn -> M A) : M A :=
  fun st =>
    match m st with
    | (st', Throw e) => h e st'
    | r => r
    end.

Definition print_line (line : output_line) : M unit :=
  fun st =>
    ({| tick := tick st; stdout := (stdout st ++ [line])%list |}, Return tt).

(** [print(text)] *)
Definition print (text : string) : M unit := print_line (Line text).

(** [for x in l: body x] *)
Fixpoint for_each {A : Type} (l : list A) (body : A -> M unit) : M unit :=
  match l with
  | [] => ret tt
  | x :: r => body x ;;; for_each r body
  end.

Section Harness.

Variable env : Env.

(* --------------------------------------------------------------------- *)
(** *** Scenario loading *)

(** [Path.name] and [Path.parent] on a resolved path. *)
Fixpoint path_name (p : string) : string :=
  match p with
  | EmptyString => EmptyString
  | String c r =>
      if contains r "/" then path_name r
      else if (c =? "/")%char then r else p
  end.

Definition path_parent (p : string) : string :=
  drop_last (S (String.length (path_name p))) p.

(** [parent / raw]: an absolute [raw] replaces [parent]. *)
Definition path_join (parent raw : string) : string :=
  if startswith raw "/" then raw else parent ++ "/" ++ raw.

(** The body of the loop of [load_scenarios_from_dir] once the document is
    read. *)
Definition scenario_of_doc (path : string) (data : ScenarioDoc)
  : result TestScenario :=
  let wf_inline := doc_workflow data in
  let wf_file_raw := doc_workflowFile data in
  let wf_file :=
    if truthy wf_file_raw
    then Some (path_resolve env (path_join (path_parent path) (str_opt wf_file_raw)))
    else None in
  let is_none {A} (o : option A) := match o with None => true | _ => false end in
  if Bool.eqb (is_none wf_inline) (is_none wf_file) then
    Raise (ValueError (path ++ ": define exactly one of workflow OR workflowFile"))
  else
    match doc_name data with
    | None => Raise (KeyError "name")
    | Some name =>
        bind (parse_duration_to_seconds
                (match doc_timeout data with Some t => t | None => "10m" end))
          (fun timeout =>
             Ok {| path := path;
                   name := name;
                   description :=
                     match doc_description data with Some d => d | None => "" end;
                   tags := match doc_tags data with Some t => t | None => [] end;
                   timeout_seconds := timeout;
                   namespace :=
                     match doc_namespace data with Some n => n | None => "argo" end;
                   expect :=
                     match doc_expect data with Some e => e | None => empty_expect end;
                   workflow_inline := wf_inline;
                   workflow_file := wf_file |})
    end.

Fixpoint load_each (paths : list string) : M (list TestScenario) :=
  match paths with
  | [] => ret []
  | path :: rest =>
      data <- call (fun t => load_scenario_yaml env t path) ;;
      s <- lift (scenario_of_doc path data) ;;
      ss <- load_each rest ;;
      ret (s :: ss)
  end.

(** [load_scenarios_from_dir] *)
Definition load_scenarios_from_dir (tests_dir : string) : M (list TestScenario) :=
  let tests_dir := path_resolve env tests_dir in
  found <- call_total (fun t => glob_yaml env t tests_dir) ;;
  let paths := sorted_paths (map (path_resolve env) found) in
  match paths with
  | [] => throw (FileNotFoundError ("No *.yaml scenarios found in: " ++ tests_dir))
  | _ => load_each paths
  end.

(** [load_workflow_manifest]; the [assert] cannot fail on a scenario the
    loader built. *)
Definition load_workflow_manifest (s : TestScenario) : M Manifest :=
  match workflow_inline s with
  | Some wf => ret wf
  | None =>
      match workflow_file s with
      | None => throw (AssertionError "")
      | Some file => call (fun t => load_manifest_yaml env t file)
      end
  end.

(* --------------------------------------------------------------------- *)
(** *** Cluster operations *)

Definition submit_workflow (namespace : string) (wf : Manifest) : M Workflow :=
  call (fun t => create_namespaced_custom_object env t namespace wf).

Definition get_workflow (namespace name : string) : M Workflow :=
  call (fun t => get_namespaced_custom_object env t namespace name).

(** [((wf.get("status") or {}).get("phase")) or "Unknown"] *)
Definition phase_or_unknown (wf : Workflow) : string :=
  let st := match status wf with Some st => st | None => empty_status end in
  str_opt (or_else (status_phase st) (Some "Unknown")).

Definition is_terminal (phase : string) : bool :=
  (phase =? "Succeeded")%string || (phase =? "Failed")%string
  || (phase =? "Error")%string.

Definition timeout_message (namespace name : string) (timeout_seconds : Z)
  : string :=
  "Workflow " ++ namespace ++ "/" ++ name ++ " did not finish within "
  ++ str_int timeout_seconds ++ "s".

(** The [while] loop of [wait_workflow]; [fuel] bounds the number of
    iterations looked at. *)
Fixpoint wait_loop (fuel : nat) (namespace name : string) (timeout_seconds : Z)
  (deadline : Z) (last_phase : option string) : M Workflow :=
  match fuel with
  | O => fun st => (st, Unfinished)
  | S fuel' =>
      now <- call_total (time_time env) ;;
      if (now <? deadline)%Z then
        wf <- get_workflow namespace name ;;
        let phase := phase_or_unknown wf in
        last_phase' <-
          (if negb (opt_eqb (Some phase) last_phase)
           then print ("    phase=" ++ phase) ;;; ret (Some phase)
           else ret last_phase) ;;
        if is_terminal phase then ret wf
        else
          call_total (fun _ => tt) ;;;   (* time.sleep(2) *)
          wait_loop fuel' namespace name timeout_seconds deadline last_phase'
      else
        throw (TimeoutError (timeout_message namespace name timeout_seconds))
  end.

(** [wait_workflow] *)
Definition wait_workflow (fuel : nat) (namespace name : string)
  (timeout_seconds : Z) : M Workflow :=
  start <- call_total (time_time env) ;;
  let deadline := start + 1000000 * timeout_seconds in
  wait_loop fuel namespace name timeout_seconds deadline None.

(* --------------------------------------------------------------------- *)
(** *** Log aggregation *)

(** [_order], local to [read_pod_logs] *)
Definition _order (names : list string) : list string :=
  if existsb (String.eqb "main") names
  then "main" :: filter (fun n => negb (n =? "main")%string) names
  else names.

Inductive section_kind : Type := InitContainer | Container.

(** One element of [chunks], before it is formatted. *)
Record LogSection : Type := {
  section_kind_of : section_kind;
  section_container : string;
  section_log : string
}.

Definition render_section (s : LogSection) : string :=
  match section_kind_of s with
  | InitContainer =>
      " --- initContainer: " ++ section_container s ++ " --- " ++ section_log s
  | Container =>
      " --- container: " ++ section_container s ++ " --- " ++ section_log s
  end.

Definition failed_log (kind : section_kind) (e : exn) : string :=
  match kind with
  | InitContainer => "<failed to read init container logs: " ++ str_exn e ++ ">"
  | Container => "<failed to read container logs: " ++ str_exn e ++ ">"
  end.

(** One of the two [for cname in ...] loops of [read_pod_logs]. *)
Fixpoint read_sections (kind : section_kind) (namespace pod_name : string)
  (names : list string) : M (list LogSection) :=
  match names with
  | [] => ret []
  | cname :: rest =>
      log <- try_except
               (call (fun t => read_namespaced_pod_log env t pod_name namespace cname))
               (fun e => ret (failed_log kind e)) ;;
      secs <- read_sections kind namespace pod_name rest ;;
      ret ({| section_kind_of := kind; section_container := cname;
              section_log := log |} :: secs)
  end.

(** The sections of [read_pod_logs], in the order they are appended to
    [chunks]. *)
Definition read_pod_log_sections (namespace pod_name : string)
  : M (list LogSection) :=
  pod <- call (fun t => read_namespaced_pod env t pod_name namespace) ;;
  let ordered_containers := _order (containers pod) in
  let ordered_inits := _order (init_containers pod) in
  inits <- read_sections InitContainer namespace pod_name ordered_inits ;;
  regulars <- read_sections Container namespace pod_name ordered_containers ;;
  ret (inits ++ regulars)%list.

(** [read_pod_logs] *)
Definition read_pod_logs (namespace pod_name : string) : M string :=
  chunks <- read_pod_log_sections namespace pod_name ;;
  ret (lstrip (String.concat "" (map render_section chunks))).

(* --------------------------------------------------------------------- *)
(** *** Expectations *)

(** [s.replace("Z", "+00:00")] *)
Fixpoint replace_Z (s : string) : string :=
  match s with
  | EmptyString => EmptyString
  | String c r =>
      if (c =? "Z")%char then "+00:00" ++ replace_Z r else String c (replace_Z r)
  end.

(** [repr] of a list whose elements are strings or [None]. *)
Definition repr_opt (o : option string) : string :=
  match o with
  | Some s => repr s
  | None => "None"
  end.

Definition repr_opt_list (l : list (option string)) : string :=
  "[" ++ String.concat ", " (map repr_opt l) ++ "]".

(** The index [by_display]: nodes grouped by non-empty displayName, in the
    order of [nodes.items()]. *)
Definition index_by_display (nodes : dict Node) : dict (list Node) :=
  fold_left
    (fun by_display kv =>
       if truthy (displayName (snd kv))
       then dict_setdefault_append by_display
              (str_opt (displayName (snd kv))) (snd kv)
       else by_display)
    nodes [].

(** Step 1 of [assert_expectations]: the workflow phase. *)
Definition check_workflow_phase (st : Status) (expect : Expect) : result unit :=
  let got_phase := status_phase st in
  let exp_phase := workflowPhase expect in
  if truthy exp_phase && negb (opt_eqb got_phase exp_phase)
  then Raise (AssertionError
         ("Expected workflowPhase=" ++ str_opt exp_phase ++ ", got "
          ++ str_opt got_phase))
  else Ok tt.

(** Step 2: the duration bound. *)
Definition check_max_duration (st : Status) (expect : Expect) : result unit :=
  let max_d := maxDuration expect in
  if truthy max_d && truthy (startedAt st) && truthy (finishedAt st) then
    bind (fromisoformat env (replace_Z (str_opt (startedAt st)))) (fun started =>
    bind (fromisoformat env (replace_Z (str_opt (finishedAt st)))) (fun finished =>
    bind (datetime_sub finished started) (fun micros =>
    bind (total_seconds micros) (fun dur =>
    bind (parse_duration_to_seconds (str_opt max_d)) (fun bound =>
    if float_gtb_int dur bound
    then Raise (AssertionError
           ("Expected duration <= " ++ str_opt max_d ++ ", got "
            ++ format_seconds_1f env micros ++ "s"))
    else Ok tt)))))
  else Ok tt.

(** The displayName an entry selects:
    [selector.get("displayName") or n.get("displayName")]. *)
Definition selected_display_name (n : NodeExpect) : option string :=
  let selector_displayName :=
    match selector n with Some d => d | None => None end in
  or_else selector_displayName (entry_displayName n).

(** The phase check of one entry (the [if exp_node_phase:] block). *)
Definition check_node_phase (by_display : dict (list Node)) (dn : string)
  (exp_node_phase : option string) : result unit :=
  if truthy exp_node_phase then
    let group := match dict_get by_display dn with Some g => g | None => [] end in
    let phases := map phase group in
    if negb (existsb (opt_eqb exp_node_phase) phases)
    then Raise (AssertionError
           ("Node '" ++ dn ++ "': expected phase=" ++ str_opt exp_node_phase
            ++ ", got phases=" ++ repr_opt_list phases))
    else Ok tt
  else Ok tt.

(** [wf["metadata"][key]] *)
Definition metadata_field (wf : Workflow) (key : string)
  (field : Metadata -> option string) : result string :=
  match metadata wf with
  | None => Raise (KeyError "metadata")
  | Some md =>
      match field md with
      | None => Raise (KeyError key)
      | Some v => Ok v
      end
  end.

(** The first non-empty podName carried by a node of the group. *)
Fixpoint first_pod_name (group : list Node) : option string :=
  match group with
  | [] => None
  | node_obj :: rest =>
      if truthy (podName node_obj) then podName node_obj
      else first_pod_name rest
  end.

Fixpoint check_needles (dn logs : string) (needles : list string) : result unit :=
  match needles with
  | [] => Ok tt
  | needle :: rest =>
      if negb (contains logs needle)
      then Raise (AssertionError
             ("Node '" ++ dn ++ "': expected logs to contain '" ++ needle
              ++ "', but not found." ++ nl ++ "--- logs ---" ++ nl ++ logs))
      else check_needles dn logs rest
  end.

(** The logs check of one entry (the [if contains:] block). *)
Definition check_node_logs (wf : Workflow) (wf_ns : string) (nodes : dict Node)
  (by_display : dict (list Node)) (dn : string) (needles : list string)
  : M unit :=
  match needles with
  | [] => ret tt
  | _ =>
      let group := match dict_get by_display dn with Some g => g | None => [] end in
      pod_name <-
        (match first_pod_name group with
         | Some (String c r) => ret (String c r)
         | _ =>
             wf_name <- lift (metadata_field wf "name" metadata_name) ;;
             lift (resolve_pod_name (recursion_depth env) nodes wf_name dn)
         end) ;;
      logs <- read_pod_logs wf_ns pod_name ;;
      lift (check_needles dn logs needles)
  end.

Definition missing_display_name_message : string :=
  "Node expect entry missing displayName (use nodes[].selector.displayName)".

(** The body of [for n in nodes_expect]. *)
Definition check_node_expect (wf : Workflow) (wf_ns : string) (nodes : dict Node)
  (by_display : dict (list Node)) (n : NodeExpect) : M unit :=
  let dn := selected_display_name n in
  if negb (truthy dn) then
    throw (AssertionError missing_display_name_message)
  else
    let dn := str_opt dn in
    match dict_get by_display dn with
    | None =>
        throw (AssertionError
          (not_found_message "workflow status.nodes" dn
             (sorted (map fst by_display))))
    | Some _ =>
        lift (check_node_phase by_display dn (entry_phase n)) ;;;
        check_node_logs wf wf_ns nodes by_display dn (logs_contains n)
    end.

(** [assert_expectations] *)
Definition assert_expectations (wf : Workflow) (expect : Expect) : M unit :=
  let st := match status wf with Some st => st | None => empty_status end in
  lift (check_workflow_phase st expect) ;;;
  lift (check_max_duration st expect) ;;;
  match expect_nodes expect with
  | [] => ret tt
  | nodes_expect =>
      wf_ns <- lift (metadata_field wf "namespace" metadata_namespace) ;;
      let nodes := status_nodes st in
      let by_display := index_by_display nodes in
      for_each nodes_expect (check_node_expect wf wf_ns nodes by_display)
  end.

(* --------------------------------------------------------------------- *)
(** *** Runner *)

(** [run_one_scenario]; it returns [(True, wf_name)]. *)
Definition run_one_scenario (fuel : nat) (s : TestScenario) : M (bool * string) :=
  print (nl ++ "=== RUN: " ++ name s) ;;;
  print ("  file: " ++ path_name (path s)) ;;;
  print ("  tags=" ++ repr_list (tags s) ++ " ns=" ++ namespace s
         ++ " timeout=" ++ str_int (timeout_seconds s) ++ "s") ;;;
  wf <- load_workflow_manifest s ;;
  created <- submit_workflow (namespace s) wf ;;
  wf_name <- lift (metadata_field created "name" metadata_name) ;;
  print ("  submitted: " ++ namespace s ++ "/" ++ wf_name) ;;;
  final_wf <- wait_workflow fuel (namespace s) wf_name (timeout_seconds s) ;;
  let final_phase := phase_or_unknown final_wf in
  print ("  finished: phase=" ++ final_phase) ;;;
  assert_expectations final_wf (expect s) ;;;
  ret (true, wf_name).

(** The command line, parsed. *)
Record Args : Type := {
  args_dir : string;
  args_tag : list string;
  args_name : option string
}.

(** How [main] ends when no exception escapes it. *)
Inductive exit_request : Type :=
| ReturnsNormally
| SystemExit_message (msg : string)
| SystemExit_code (code : Z).

(** The [for s in scenarios] loop of [main], with its two counters. *)
Fixpoint run_all (fuel : nat) (scenarios : list TestScenario) (passed failed : Z)
  : M (Z * Z) :=
  match scenarios with
  | [] => ret (passed, failed)
  | s :: rest =>
      ok <- try_except
              (r <- run_one_scenario fuel s ;;
               print_line (PassedLine (path_name (path s)) (snd r)) ;;;
               ret true)
              (fun e =>
                 print_line (FailedLine (path_name (path s)) (str_exn e)) ;;;
                 ret false) ;;
      if ok : bool then run_all fuel rest (passed + 1) failed
      else run_all fuel rest passed (failed + 1)
  end.

Definition name_matches (wanted : string) (s : TestScenario) : bool :=
  contains (lower (name s)) (lower wanted).

Definition tags_match (wanted : list string) (s : TestScenario) : bool :=
  forallb (fun t => existsb (String.eqb t) (map lower (tags s)))
    (map lower wanted).

(** The two filters of [main]. *)
Definition select_scenarios (args : Args) (scenarios : list TestScenario)
  : list TestScenario :=
  let scenarios :=
    match args_name args with
    | Some (String c r) => filter (name_matches (String c r)) scenarios
    | _ => scenarios
    end in
  match args_tag args with
  | [] => scenarios
  | wanted => filter (tags_match wanted) scenarios
  end.

(** [try: config.load_kube_config() except Exception:
    config.load_incluster_config()] *)
Definition kube_auth : M unit :=
  try_except (call (load_kube_config env))
    (fun _ => call (load_incluster_config env)).

(** [main] *)
Definition main (fuel : nat) (args : Args) : M exit_request :=
  scenarios <- load_scenarios_from_dir (args_dir args) ;;
  let scenarios := select_scenarios args scenarios in
  match scenarios with
  | [] => ret (SystemExit_message "No scenarios matched filters")
  | _ =>
      kube_auth ;;;
      counts <- run_all fuel scenarios 0 0 ;;
      let '(passed, failed) := counts in
      print (nl ++ "=== SUMMARY ===") ;;;
      print ("passed: " ++ str_int passed) ;;;
      print ("failed: " ++ str_int failed) ;;;
      if (failed =? 0)%Z then ret ReturnsNormally
      else ret (SystemExit_code 1)
  end.

End Harness.

(** The exit status of the process, from the way [main] ends: [None] when
    it has not ended. *)
Definition exit_status (o : outcome exit_request) : option Z :=
  match o with
  | Return ReturnsNormally => Some 0
  | Return (SystemExit_message _) => Some 1
  | Return (SystemExit_code code) => Some code
  | Throw _ => Some 1
  | Unfinished => None
  end.

(* ===================================================================== *)
(** ** Notions used to state the properties *)
(* ===================================================================== *)

Module Notions.

Fixpoint all_chars (p : ascii -> bool) (s : string) : bool :=
  match s with
  | EmptyString => true
  | String c r => p c && all_chars p r
  end.

Definition digit_or_minus (c : ascii) : bool := isdigit c || (c =? "-")%char.

Fixpoint last_char (s : string) : option ascii :=
  match s with
  | EmptyString => None
  | String c EmptyString => Some c
  | String _ r => last_char r
  end.

Definition is_main (n : string) : bool := (n =? "main")%string.

Definition not_main (n : string) : bool := negb (n =? "main")%string.

Definition section_label (s : LogSection) : section_kind * string :=
  (section_kind_of s, section_container s).

(** The [k] first polls starting at call number [u] come before the
    deadline and see a phase that is not terminal. *)
Definition polls_go_on (env : Env) (namespace name : string) (deadline : Z)
  (u k : nat) : Prop :=
  forall i, (i < k)%nat ->
    time_time env (u + 3 * i) < deadline
    /\ exists wf,
         get_namespaced_custom_object env (u + 3 * i + 1) namespace name = Ok wf
         /\ is_terminal (phase_or_unknown wf) = false.

(** The nodes that carry a display name, in the order of the node map. *)
Definition group_of (nodes : dict Node) (dn : string) : list Node :=
  filter (fun n => opt_eqb (displayName n) (Some dn)) (map snd nodes).

Definition index_step (by_display : dict (list Node)) (kv : string * Node)
  : dict (list Node) :=
  if truthy (displayName (snd kv))
  then dict_setdefault_append by_display (str_opt (displayName (snd kv))) (snd kv)
  else by_display.

Definition status_of (wf : Workflow) : Status :=
  match status wf with Some st => st | None => empty_status end.



(** An expectation with one entry: a selector and a required phase. *)
Definition phase_entry (dn ph : string) : NodeExpect :=
  {| selector := Some (Some dn); entry_displayName := None;
     entry_phase := Some ph; logs_contains := [] |}.


Definition inline_set (data : ScenarioDoc) : bool :=
  match doc_workflow data with Some _ => true | None => false end.

Definition file_set (data : ScenarioDoc) : bool := truthy (doc_workflowFile data).

Definition exactly_one_source (data : ScenarioDoc) : bool :=
  xorb (inline_set data) (file_set data).

Definition timeout_of (data : ScenarioDoc) : string :=
  match doc_timeout data with Some t => t | None => "10m" end.

Definition source_error (path : string) : exn :=
  ValueError (path ++ ": define exactly one of workflow OR workflowFile").

Definition after_line (st : State) (line : output_line) : State :=
  {| tick := tick st; stdout := (stdout st ++ [line])%list |}.

(** The outcomes of the scenarios, each run in the state its predecessors
    leave; the list stops at a run that does not finish. *)
Fixpoint scenario_outcomes (env : Env) (fuel : nat)
  (scenarios : list TestScenario) (st : State)
  : list (outcome (bool * string)) :=
  match scenarios with
  | [] => []
  | s :: rest =>
      match run_one_scenario env fuel s st with
      | (st1, Return r) =>
          Return r
          :: scenario_outcomes env fuel rest
               (after_line st1 (PassedLine (path_name (path s)) (snd r)))
      | (st1, Throw e) =>
          Throw e
          :: scenario_outcomes env fuel rest
               (after_line st1 (FailedLine (path_name (path s)) (str_exn e)))
      | (st1, Unfinished) => [Unfinished]
      end
  end.

Definition finished {A : Type} (o : outcome A) : bool :=
  match o with Unfinished => false | _ => true end.

Definition has_passed {A : Type} (o : outcome A) : bool :=
  match o with Return _ => true | _ => false end.

Definition has_failed {A : Type} (o : outcome A) : bool :=
  match o with Throw _ => true | _ => false end.

Definition count {A : Type} (p : A -> bool) (l : list A) : Z :=
  Z.of_nat (List.length (filter p l)).

Definition labels_of (r : State * outcome (list LogSection))
  : option (list (section_kind * string)) :=
  match snd r with
  | Return secs => Some (map section_label secs)
  | _ => None
  end.

Definition value_of {A : Type} (r : State * outcome A) : option A :=
  match snd r with
  | Return a => Some a
  | _ => None
  end.

End Notions.

Import Notions.

(* ===================================================================== *)
(** ** Concrete node maps, clusters and scenarios *)
(* ===================================================================== *)

Module Fixtures.

(** Two structural nodes that list each other as child. *)
Definition cyclic_nodes : dict Node :=
  [("a", {| displayName := Some "loop"; type := Some "Steps";
            phase := Some "Running"; podName := None; templateName := None;
            children := ["b"] |});
   ("b", {| displayName := Some "body"; type := Some "Steps";
            phase := Some "Running"; podName := None; templateName := None;
            children := ["a"] |})].

(** A structural node above the pod node of the specification's example. *)
Definition steps_nodes : dict Node :=
  [("wf-1", {| displayName := Some "step1"; type := Some "Steps";
               phase := Some "Succeeded"; podName := None;
               templateName := Some "outer"; children := ["wf-abc"] |});
   ("wf-abc", {| displayName := Some "step1-pod"; type := Some "Pod";
                 phase := Some "Succeeded"; podName := None;
                 templateName := Some "run"; children := [] |})].

Definition steps_rank (id : string) : nat :=
  if (id =? "wf-1")%string then 1 else 0.

(** The node map of the specification's example. *)
Definition example_nodes : dict Node :=
  [("wf-abc", {| displayName := Some "step1"; type := Some "Pod"; phase := None;
                 podName := None; templateName := Some "run";
                 children := [] |})].

(** A Pod node without template name: the pod name is had from its child. *)
Definition fallthrough_nodes : dict Node :=
  [("wf-1", {| displayName := Some "step1"; type := Some "Pod";
               phase := Some "Succeeded"; podName := None;
               templateName := None; children := ["wf-2"] |});
   ("wf-2", {| displayName := Some "step1(0)"; type := Some "Pod";
               phase := Some "Succeeded"; podName := Some "wf-run-2";
               templateName := Some "run"; children := [] |})].

(** A Pod node without template name, with two children: the first cannot
    be given a pod name (its identifier does not start with the name of the
    workflow) and has no children, the second can. *)
Definition two_children_nodes : dict Node :=
  [("wf-1", {| displayName := Some "step1"; type := Some "Pod";
               phase := Some "Succeeded"; podName := None;
               templateName := None; children := ["other-2"; "wf-3"] |});
   ("other-2", {| displayName := Some "step1(0)"; type := Some "Pod";
                  phase := Some "Failed"; podName := None;
                  templateName := Some "run"; children := [] |});
   ("wf-3", {| displayName := Some "step1(1)"; type := Some "Pod";
               phase := Some "Succeeded"; podName := None;
               templateName := Some "run"; children := [] |})].

(** A cluster that answers the same at every call. *)
Definition steady_env (clock : nat -> Z) (workflow : nat -> result Workflow)
  (pod : result Pod) (log : string -> result string) : Env :=
  {| time_time := clock;
     create_namespaced_custom_object :=
       fun _ _ _ => Raise (ApiException "create: forbidden");
     get_namespaced_custom_object := fun t _ _ => workflow t;
     read_namespaced_pod := fun _ _ _ => pod;
     read_namespaced_pod_log := fun _ _ _ cname => log cname;
     glob_yaml := fun _ _ => [];
     load_scenario_yaml := fun _ _ => Raise (ApiException "no such file");
     load_manifest_yaml := fun _ _ => Raise (ApiException "no such file");
     load_kube_config := fun _ => Ok tt;
     load_incluster_config := fun _ => Ok tt;
     path_resolve := fun p => p;
     fromisoformat := fun _ => Raise (ValueError "Invalid isoformat string");
     format_seconds_1f := fun _ => "0.0";
     recursion_depth := 1000 |}.

Definition start : State := {| tick := 0; stdout := [] |}.

(** A pod whose second init container is named [main]. *)
Definition init_main_env : Env :=
  steady_env (fun _ => 0) (fun _ => Raise (ApiException "not found"))
    (Ok {| containers := ["wait"]; init_containers := ["setup"; "main"] |})
    (fun cname => Ok ("log of " ++ cname ++ ";")).

(** The pod of the specification's example. *)
Definition example_env : Env :=
  steady_env (fun _ => 0) (fun _ => Raise (ApiException "not found"))
    (Ok {| containers := ["wait"; "main"; "sidecar"]; init_containers := [] |})
    (fun cname =>
       if (cname =? "sidecar")%string then Raise (ApiException "container not ready")
       else Ok ("log of " ++ cname ++ ";")).

Definition running_workflow : Workflow :=
  {| metadata := Some {| metadata_name := Some "hello-abc";
                         metadata_namespace := Some "argo" |};
     status := Some {| status_phase := Some "Running"; startedAt := None;
                       finishedAt := None; status_nodes := [] |} |}.

(** A workflow that stays in phase Running, under a clock that moves by
    one second at every call to the outside. *)
Definition running_env : Env :=
  steady_env (fun t => Z.of_nat t * 1000000) (fun _ => Ok running_workflow)
    (Raise (ApiException "not found")) (fun _ => Raise (ApiException "not found")).

(** The workflow of the specification's example: a step retried once. *)
Definition retried_workflow : Workflow :=
  {| metadata := Some {| metadata_name := Some "wf";
                         metadata_namespace := Some "argo" |};
     status :=
       Some {| status_phase := Some "Succeeded"; startedAt := None;
               finishedAt := None;
               status_nodes :=
                 [("wf-1", {| displayName := Some "retry-step";
                              type := Some "Pod"; phase := Some "Failed";
                              podName := None; templateName := Some "run";
                              children := [] |});
                  ("wf-2", {| displayName := Some "retry-step";
                              type := Some "Pod"; phase := Some "Succeeded";
                              podName := None; templateName := Some "run";
                              children := [] |})] |} |}.


Definition nameless_entry : NodeExpect :=
  {| selector := Some None; entry_displayName := None;
     entry_phase := Some "Succeeded"; logs_contains := [] |}.

(** A document with both sources, one with none, and one with an inline
    manifest only. *)
Definition both_sources : ScenarioDoc :=
  {| doc_workflow := Some (manifest_document "kind: Workflow");
     doc_workflowFile := Some "hello.yaml"; doc_name := Some "hello";
     doc_description := None; doc_tags := None; doc_timeout := None;
     doc_namespace := None; doc_expect := None |}.

Definition no_source : ScenarioDoc :=
  {| doc_workflow := None; doc_workflowFile := None; doc_name := Some "hello";
     doc_description := None; doc_tags := None; doc_timeout := None;
     doc_namespace := None; doc_expect := None |}.

Definition inline_only : ScenarioDoc :=
  {| doc_workflow := Some (manifest_document "kind: Workflow");
     doc_workflowFile := None; doc_name := Some "hello";
     doc_description := None; doc_tags := Some ["smoke"]; doc_timeout := Some "90s";
     doc_namespace := None; doc_expect := None |}.

(** A directory that holds the given documents, by path. *)
Definition directory_env (files : list (string * ScenarioDoc)) : Env :=
  {| time_time := fun _ => 0;
     create_namespaced_custom_object :=
       fun _ _ _ => Raise (ApiException "create: forbidden");
     get_namespaced_custom_object := fun _ _ _ => Raise (ApiException "not found");
     read_namespaced_pod := fun _ _ _ => Raise (ApiException "not found");
     read_namespaced_pod_log := fun _ _ _ _ => Raise (ApiException "not found");
     glob_yaml := fun _ _ => map fst files;
     load_scenario_yaml :=
       fun _ p => match dict_get files p with
                  | Some d => Ok d
                  | None => Raise (FileNotFoundError p)
                  end;
     load_manifest_yaml := fun _ p => Raise (FileNotFoundError p);
     load_kube_config := fun _ => Ok tt;
     load_incluster_config := fun _ => Ok tt;
     path_resolve := fun p => p;
     fromisoformat := fun _ => Raise (ValueError "Invalid isoformat string");
     format_seconds_1f := fun _ => "0.0";
     recursion_depth := 1000 |}.

Definition succeeded_workflow : Workflow :=
  {| metadata := Some {| metadata_name := Some "hello-abc";
                         metadata_namespace := Some "argo" |};
     status := Some {| status_phase := Some "Succeeded"; startedAt := None;
                       finishedAt := None; status_nodes := [] |} |}.

(** A cluster on which every workflow submitted has succeeded by the first
    poll. *)
Definition succeeding_env : Env :=
  {| time_time := fun t => Z.of_nat t * 1000000;
     create_namespaced_custom_object := fun _ _ _ => Ok succeeded_workflow;
     get_namespaced_custom_object := fun _ _ _ => Ok succeeded_workflow;
     read_namespaced_pod := fun _ _ _ => Raise (ApiException "not found");
     read_namespaced_pod_log := fun _ _ _ _ => Raise (ApiException "not found");
     glob_yaml := fun _ _ => [];
     load_scenario_yaml := fun _ p => Raise (FileNotFoundError p);
     load_manifest_yaml := fun _ p => Raise (FileNotFoundError p);
     load_kube_config := fun _ => Ok tt;
     load_incluster_config := fun _ => Ok tt;
     path_resolve := fun p => p;
     fromisoformat := fun _ => Raise (ValueError "Invalid isoformat string");
     format_seconds_1f := fun _ => "0.0";
     recursion_depth := 1000 |}.

Definition scenario_expecting (file phase : string) : TestScenario :=
  {| path := "/tests/" ++ file; name := file; description := ""; tags := [];
     timeout_seconds := 60; namespace := "argo";
     expect := {| workflowPhase := Some phase; maxDuration := None;
                  expect_nodes := [] |};
     workflow_inline := Some (manifest_document "kind: Workflow");
     workflow_file := None |}.

(** A scenario whose manifest file is missing, one that expects the wrong
    phase, and one that passes. *)
Definition three_scenarios : list TestScenario :=
  [ {| path := "/tests/a.yaml"; name := "a"; description := ""; tags := [];
       timeout_seconds := 60; namespace := "argo"; expect := empty_expect;
       workflow_inline := None; workflow_file := Some "/tests/missing.yaml" |};
    scenario_expecting "b.yaml" "Failed";
    scenario_expecting "c.yaml" "Succeeded" ].

End Fixtures.

Import Fixtures.

(* ===================================================================== *)
(** ** The smoke test driven by command-line tools
       ([test_argo_hello_world.py]) *)
(* ===================================================================== *)

Module Smoke.

(** The exceptions of the script: its own [RuntimeError], a failed
    [assert], and whatever [subprocess.run] raises by itself (the timeout
    of a command, a missing executable). *)
Inductive exn : Type :=
| RuntimeError (msg : string)
| AssertError (msg : string)
| SubprocessError (msg : string).

Inductive result (A : Type) : Type :=
| Ok (a : A)
| Raise (e : exn).
Arguments Ok {A} a.
Arguments Raise {A} e.

(** A finished process: [p.returncode] and [p.stdout]. *)
Record Completed : Type := {
  returncode : Z;
  output : string
}.

(** The world of the script: the clock (microseconds) and the commands,
    answered by call number as in [Env]; [NS] and [WF_FILE] are the two
    module constants read from the environment. *)
Record Env : Type := {
  time_time : nat -> Z;
  subprocess_run : nat -> list string -> Z -> result Completed;
  NS : string;
  WF_FILE : string
}.

(** The state keeps, besides the printed lines, the commands issued. *)
Record State : Type := {
  tick : nat;
  stdout : list string;
  commands : list (list string)
}.

Inductive outcome (A : Type) : Type :=
| Return (a : A)
| Throw (e : exn)
| Unfinished.
Arguments Return {A} a.
Arguments Throw {A} e.
Arguments Unfinished {A}.

Definition M (A : Type) : Type := State -> State * outcome A.

Definition ret {A : Type} (a : A) : M A := fun st => (st, Return a).

Definition throw {A : Type} (e : exn) : M A := fun st => (st, Throw e).

Definition mbind {A B : Type} (m : M A) (k : A -> M B) : M B :=
  fun st =>
    match m st with
    | (st', Return a) => k a st'
    | (st', Throw e) => (st', Throw e)
    | (st', Unfinished) => (st', Unfinished)
    end.

(** [try: body finally: cleanup]: the cleanup runs however the body ends;
    an exception of the cleanup takes the place of the body's outcome. *)
Definition try_finally {A : Type} (body : M A) (cleanup : M unit) : M A :=
  fun st =>
    match body st with
    | (st', Unfinished) => (st', Unfinished)
    | (st', o) =>
        match cleanup st' with
        | (st'', Return _) => (st'', o)
        | (st'', Throw e) => (st'', Throw e)
        | (st'', Unfinished) => (st'', Unfinished)
        end
    end.

Definition print (text : string) : M unit :=
  fun st =>
    ({| tick := tick st; stdout := (stdout st ++ [text])%list;
        commands := commands st |}, Return tt).

(** A reading of the clock, or a pause: one call to the outside. *)
Definition clock_call {A : Type} (f : nat -> A) : M A :=
  fun st =>
    ({| tick := S (tick st); stdout := stdout st; commands := commands st |},
     Return (f (tick st))).

(** [assert cond, msg] *)
Definition assert (cond : bool) (msg : string) : M unit :=
  if cond then ret tt else throw (AssertError msg).

Section Script.

Variable env : Env.

(** [subprocess.run(cmd, ..., timeout=timeout, check=False)] *)
Definition run_process (cmd : list string) (timeout : Z) : M Completed :=
  fun st =>
    let st' := {| tick := S (tick st); stdout := stdout st;
                  commands := (commands st ++ [cmd])%list |} in
    match subprocess_run env (tick st) cmd timeout with
    | Ok p => (st', Return p)
    | Raise e => (st', Throw e)
    end.

Definition command_failed_message (cmd : list string) (p : Completed) : string :=
  "Command failed (" ++ str_int (returncode p) ++ "): "
  ++ String.concat " " cmd ++ nl ++ "Output:" ++ nl ++ output p.

(** [run_workflow] *)
Definition run_workflow (cmd : list string) (timeout : Z) (check : bool)
  : M string :=
  mbind (run_process cmd timeout) (fun p =>
  if check && negb (returncode p =? 0)%Z
  then throw (RuntimeError (command_failed_message cmd p))
  else ret (output p)).

Definition get_phase_command (wf_name : string) : list string :=
  ["kubectl"; "get"; "wf"; "-n"; NS env; wf_name; "-o";
   "jsonpath={.status.phase}"].

(** The [while] loop of the script's [wait_workflow]. *)
Fixpoint wait_loop (fuel : nat) (wf_name : string) (deadline : Z)
  (last_phase : string) : M string :=
  match fuel with
  | O => fun st => (st, Unfinished)
  | S fuel' =>
      mbind (clock_call (time_time env)) (fun now =>
      if (now <? deadline)%Z then
        mbind (run_workflow (get_phase_command wf_name) 30 true) (fun out =>
        let phase := strip out in
        mbind
          (if truthy (Some phase) && negb (phase =? last_phase)%string
           then mbind (print ("Phase: " ++ phase)) (fun _ => ret phase)
           else ret last_phase) (fun last_phase' =>
        if is_terminal phase then ret phase
        else
          mbind (clock_call (fun _ => tt)) (fun _ =>   (* time.sleep(2) *)
          wait_loop fuel' wf_name deadline last_phase')))
      else
        ret (str_opt (or_else (Some last_phase) (Some "Unknown"))))
  end.

(** [wait_workflow] of the script: on expiry it returns the last phase
    seen, or "Unknown". *)
Definition wait_workflow (fuel : nat) (wf_name : string) (max_seconds : Z)
  : M string :=
  mbind (clock_call (time_time env)) (fun start =>
  wait_loop fuel wf_name (start + 1000000 * max_seconds) "").

Definition delete_command (wf_name : string) : list string :=
  ["argo"; "delete"; "-n"; NS env; wf_name; "--yes"].

(** The [try] block of the test. *)
Definition test_body (fuel : nat) (wf_name : string) : M unit :=
  mbind (print "Waiting (polling status.phase)...") (fun _ =>
  mbind (wait_workflow fuel wf_name 90) (fun phase =>
  mbind (assert (phase =? "Succeeded")%string
           ("Workflow did not succeed: phase=" ++ phase)) (fun _ =>
  mbind (run_workflow ["argo"; "logs"; "-n"; NS env; wf_name] 60 true) (fun logs =>
  assert (contains logs "hello world")
    ("Expected 'hello world' in logs, got:" ++ nl ++ logs))))).

(** [test_workflow_succeeds_and_prints_hello_world] *)
Definition test_workflow_succeeds_and_prints_hello_world (fuel : nat) : M unit :=
  mbind (print ("NS=" ++ NS env ++ " WF_FILE=" ++ WF_FILE env)) (fun _ =>
  mbind (run_workflow ["argo"; "version"] 30 true) (fun _ =>
  mbind (run_workflow
           ["argo"; "submit"; "-n"; NS env; "--output"; "name"; WF_FILE env]
           60 true) (fun out =>
  let wf_name := strip out in
  mbind (assert (truthy (Some wf_name)) "Workflow name is empty") (fun _ =>
  mbind (print ("Submitted: " ++ wf_name)) (fun _ =>
  try_finally (test_body fuel wf_name)
    (mbind (run_workflow (delete_command wf_name) 30 false)
       (fun _ => ret tt))))))).

End Script.

End Smoke.

(* ===================================================================== *)
(** ** Further notions and inputs *)
(* ===================================================================== *)

From Stdlib Require Import Permutation Sorted.

Module MoreNotions.

(** [x] is a node of the subtree of [root]: [root] itself or a node
    reached from it along children links. *)
Inductive in_subtree (nodes : dict Node) : string -> string -> Prop :=
| subtree_root : forall root, in_subtree nodes root root
| subtree_child : forall root child x,
    In child (children (nodes_get nodes root)) ->
    in_subtree nodes child x ->
    in_subtree nodes root x.

(** Some status node carries the display name. *)
Definition carried (nodes : dict Node) (display_name : string) : Prop :=
  exists id n, In (id, n) nodes /\ displayName n = Some display_name.

(** What the log of a container reads as when asked at call number [t]:
    the log, or the placeholder that quotes the error. *)
Definition log_or_placeholder (env : Env) (kind : section_kind)
  (namespace pod_name : string) (t : nat) (cname : string) : string :=
  match read_namespaced_pod_log env t pod_name namespace cname with
  | Py.Ok log => log
  | Py.Raise e => failed_log kind e
  end.

(** The sections of a list of containers read one after the other from
    call number [t] on. *)
Fixpoint sections_from (env : Env) (kind : section_kind)
  (namespace pod_name : string) (t : nat) (names : list string)
  : list LogSection :=
  match names with
  | [] => []
  | cname :: rest =>
      {| section_kind_of := kind; section_container := cname;
         section_log := log_or_placeholder env kind namespace pod_name t cname |}
      :: sections_from env kind namespace pod_name (S t) rest
  end.

(** The phase seen by the poll whose fetch is call number [t]. *)
Definition phase_seen (env : Env) (namespace name : string) (t : nat) : string :=
  match get_namespaced_custom_object env t namespace name with
  | Py.Ok wf => phase_or_unknown wf
  | Py.Raise _ => "Unknown"
  end.

(** The phases seen by [k] polls in a row, the first of which reads the
    clock at call number [u]. *)
Fixpoint observed (env : Env) (namespace name : string) (u k : nat)
  : list string :=
  match k with
  | O => []
  | S k' =>
      phase_seen env namespace name (u + 1)
      :: observed env namespace name (u + 3) k'
  end.

(** The phases of a list that differ from the one before them, [last]
    being the one before the first. *)
Fixpoint changes (last : option string) (phases : list string) : list string :=
  match phases with
  | [] => []
  | p :: rest =>
      if opt_eqb (Some p) last then changes (Some p) rest
      else p :: changes (Some p) rest
  end.

Definition phase_line (phase : string) : output_line :=
  Line ("    phase=" ++ phase).

(** The phase seen last, [last] if none was. *)
Definition last_seen (last : option string) (phases : list string)
  : option string :=
  fold_left (fun _ p => Some p) phases last.

(** The documents of [paths] are read one after the other from call
    number [u] on, and each makes a scenario. *)
Definition loads_well (env : Env) (u : nat) (paths : list string) : Prop :=
  forall i q, nth_error paths i = Some q ->
    exists data s,
      load_scenario_yaml env (u + i) q = Py.Ok data
      /\ scenario_of_doc env q data = Py.Ok s.

(** No path comes before the one that precedes it in the list. *)
Definition in_path_order (paths : list string) : Prop :=
  Sorted (fun p q => path_ltb q p = false) paths.

(** What the two filters of [main] keep. *)
Definition keeps (args : Args) (s : TestScenario) : bool :=
  match args_name args with
  | Some (String c r) => name_matches (String c r) s
  | _ => true
  end
  && match args_tag args with
     | [] => true
     | wanted => tags_match wanted s
     end.

(** The commands of the script that come before its [try] block. *)
Definition version_command : list string := ["argo"; "version"].

Definition submit_command (env : Smoke.Env) : list string :=
  ["argo"; "submit"; "-n"; Smoke.NS env; "--output"; "name"; Smoke.WF_FILE env].

(** The state of the script after it has issued a command. *)
Definition after_command (st : Smoke.State) (cmd : list string) : Smoke.State :=
  {| Smoke.tick := S (Smoke.tick st); Smoke.stdout := Smoke.stdout st;
     Smoke.commands := (Smoke.commands st ++ [cmd])%list |}.

(** An error that a command of the script gives: what [subprocess.run]
    raises, or the [RuntimeError] made from a non-zero status. *)
Definition command_error (env : Smoke.Env) (cmd : list string) (timeout : Z)
  (e : Smoke.exn) : Prop :=
  exists t,
    Smoke.subprocess_run env t cmd timeout = Smoke.Raise e
    \/ exists p,
         Smoke.subprocess_run env t cmd timeout = Smoke.Ok p
         /\ Smoke.returncode p <> 0
         /\ e = Smoke.RuntimeError (Smoke.command_failed_message cmd p).

End MoreNotions.

Import MoreNotions.

Module MoreFixtures.

Definition pending_workflow : Workflow :=
  {| metadata := Some {| metadata_name := Some "hello-abc";
                         metadata_namespace := Some "argo" |};
     status := Some {| status_phase := Some "Pending"; startedAt := None;
                       finishedAt := None; status_nodes := [] |} |}.

(** A workflow seen Pending, then Running twice, then Succeeded, under a
    clock that moves by one second at every call. *)
Definition progressing_env : Env :=
  steady_env (fun t => Z.of_nat t * 1000000)
    (fun t => if (t <? 3)%nat then Py.Ok pending_workflow
              else if (t <? 9)%nat then Py.Ok running_workflow
              else Py.Ok succeeded_workflow)
    (Py.Raise (ApiException "not found"))
    (fun _ => Py.Raise (ApiException "not found")).

(** The same, but the third fetch fails. *)
Definition flaky_env : Env :=
  steady_env (fun t => Z.of_nat t * 1000000)
    (fun t => if (t <? 3)%nat then Py.Ok pending_workflow
              else if (t <? 6)%nat then Py.Ok running_workflow
              else Py.Raise (ApiException "connection reset"))
    (Py.Raise (ApiException "not found"))
    (fun _ => Py.Raise (ApiException "not found")).

(** A retried step: the second node of the display name has a pod name. *)
Definition pod_named_workflow_nodes : dict Node :=
  [("wf-1", {| displayName := Some "main-step"; type := Some "Retry";
               phase := Some "Succeeded"; podName := None;
               templateName := Some "run"; children := ["wf-2"] |});
   ("wf-2", {| displayName := Some "main-step"; type := Some "Pod";
               phase := Some "Succeeded"; podName := Some "wf-run-2";
               templateName := Some "run"; children := [] |})].

Definition file_only : ScenarioDoc :=
  {| doc_workflow := None; doc_workflowFile := Some "wf/hello.yaml";
     doc_name := Some "from-file"; doc_description := None; doc_tags := None;
     doc_timeout := Some "2m"; doc_namespace := Some "ci"; doc_expect := None |}.

(** A directory listed out of order. *)
Definition two_files_env : Env :=
  directory_env [("/tests/b.yaml", file_only); ("/tests/a.yaml", inline_only)].

(** A directory whose second document, in path order, has no source. *)
Definition broken_dir_env : Env :=
  directory_env [("/tests/c.yaml", inline_only); ("/tests/b.yaml", no_source);
                 ("/tests/a.yaml", inline_only)].

Definition tagged_scenario (file : string) (tags : list string) : TestScenario :=
  {| path := "/tests/" ++ file; name := file; description := ""; tags := tags;
     timeout_seconds := 60; namespace := "argo"; expect := empty_expect;
     workflow_inline := Some (manifest_document "kind: Workflow");
     workflow_file := None |}.



(** For the script: a cluster where the workflow stays in phase Running,
    twenty seconds passing between two readings of the clock. *)
Definition stuck_script_env : Smoke.Env :=
  {| Smoke.time_time := fun t => Z.of_nat t * 20000000;
     Smoke.subprocess_run := fun _ _ _ =>
       Smoke.Ok {| Smoke.returncode := 0; Smoke.output := "Running" ++ nl |};
     Smoke.NS := "argo";
     Smoke.WF_FILE := "workflows/hello-workflow.yaml" |}.

(** For the script: every command answers as on a healthy cluster, except
    that the final [argo delete] ends with status 1. *)
Definition hello_script_env : Smoke.Env :=
  {| Smoke.time_time := fun t => Z.of_nat t * 1000000;
     Smoke.subprocess_run := fun _ cmd _ =>
       match cmd with
       | tool :: verb :: _ =>
           if (tool =? "kubectl")%string then
             Smoke.Ok {| Smoke.returncode := 0; Smoke.output := "Succeeded" |}
           else if (verb =? "version")%string then
             Smoke.Ok {| Smoke.returncode := 0; Smoke.output := "argo: v3.5.0" ++ nl |}
           else if (verb =? "submit")%string then
             Smoke.Ok {| Smoke.returncode := 0; Smoke.output := "hello-abc" ++ nl |}
           else if (verb =? "logs")%string then
             Smoke.Ok {| Smoke.returncode := 0;
                         Smoke.output := "hello-abc: hello world" ++ nl |}
           else
             Smoke.Ok {| Smoke.returncode := 1; Smoke.output := "not found" |}
       | _ => Smoke.Raise (Smoke.SubprocessError "no such command")
       end;
     Smoke.NS := "argo";
     Smoke.WF_FILE := "workflows/hello-workflow.yaml" |}.

Definition script_start : Smoke.State :=
  {| Smoke.tick := 0; Smoke.stdout := []; Smoke.commands := [] |}.

End MoreFixtures.

Import MoreFixtures.

(* ===================================================================== *)
(** * Properties *)
(* ===================================================================== *)

(* --------------------------------------------------------------------- *)
(** ** Strings *)

Module StringFacts.

Lemma all_chars_app p a b :
  all_chars p (a ++ b) = all_chars p a && all_chars p b.
Proof.
  induction a as [|c a IH]; simpl; [reflexivity|].
  now rewrite IH, andb_assoc.
Qed.

Lemma all_chars_weaken (p q : ascii -> bool) s :
  (forall c, p c = true -> q c = true) ->
  all_chars p s = true -> all_chars q s = true.
Proof.
  intros Hpq. induction s as [|c s IH]; simpl; [reflexivity|].
  rewrite !andb_true_iff. intros [Hc Hs]. split; auto.
Qed.

Lemma append_nil_r s : s ++ "" = s.
Proof. induction s; simpl; congruence. Qed.

Lemma append_assoc a b c : (a ++ b) ++ c = a ++ (b ++ c).
Proof. induction a; simpl; congruence. Qed.

Lemma length_append a b :
  String.length (a ++ b) = (String.length a + String.length b)%nat.
Proof. induction a; simpl; congruence. Qed.

Lemma lstrip_no_space s :
  all_chars (fun c => negb (isspace c)) s = true -> lstrip s = s.
Proof.
  destruct s as [|c s]; simpl; [reflexivity|].
  rewrite andb_true_iff, negb_true_iff. now intros [-> _].
Qed.

Lemma rstrip_no_space s :
  all_chars (fun c => negb (isspace c)) s = true -> rstrip s = s.
Proof.
  induction s as [|c s IH]; simpl; [reflexivity|].
  rewrite andb_true_iff, negb_true_iff. intros [Hc Hs].
  rewrite (IH Hs), Hc. now destruct s.
Qed.

Lemma strip_no_space s :
  all_chars (fun c => negb (isspace c)) s = true -> strip s = s.
Proof.
  intros H. unfold strip. rewrite (lstrip_no_space _ H).
  now apply rstrip_no_space.
Qed.

Lemma lower_fixed s :
  all_chars (fun c => (lower_char c =? c)%char) s = true -> lower s = s.
Proof.
  induction s as [|c s IH]; simpl; [reflexivity|].
  rewrite andb_true_iff, Ascii.eqb_eq. intros [-> Hs]. now rewrite IH.
Qed.

Lemma substring_0_length a b :
  String.substring 0 (String.length a) (a ++ b) = a.
Proof.
  induction a as [|c a IH]; simpl.
  - now destruct b.
  - now rewrite IH.
Qed.

Lemma drop_last_app a u : drop_last (String.length u) (a ++ u) = a.
Proof.
  unfold drop_last. rewrite length_append.
  replace (String.length a + String.length u - String.length u)%nat
    with (String.length a) by lia.
  apply substring_0_length.
Qed.

Lemma endswith_refl s : endswith s s = true.
Proof. destruct s; simpl; now rewrite ?String.eqb_refl, ?Ascii.eqb_refl. Qed.

Lemma endswith_app a u : endswith (a ++ u) u = true.
Proof.
  induction a as [|c a IH]; simpl.
  - apply endswith_refl.
  - rewrite IH. apply orb_true_r.
Qed.

(** A suffix that starts with [f] cannot begin inside a run of characters
    other than [f]. *)
Lemma endswith_skip a u f suf :
  all_chars (fun c => negb (c =? f)%char) a = true ->
  endswith (a ++ u) (String f suf) = endswith u (String f suf).
Proof.
  induction a as [|c a IH]; simpl; [reflexivity|].
  rewrite andb_true_iff, negb_true_iff. intros [Hc Ha].
  rewrite Hc. simpl. now apply IH.
Qed.

Lemma endswith_split s suf :
  endswith s suf = true -> exists a, s = a ++ suf.
Proof.
  induction s as [|c s IH]; cbn [endswith]; intros H.
  - rewrite orb_false_r in H. apply String.eqb_eq in H.
    exists "". now rewrite <- H.
  - apply orb_true_iff in H. destruct H as [H|H].
    + apply String.eqb_eq in H. exists "". now rewrite <- H.
    + destruct (IH H) as [a ->]. now exists (String c a).
Qed.

Lemma prefix_app p s : String.prefix p (p ++ s) = true.
Proof.
  induction p as [|c p IH]; simpl.
  - now destruct s.
  - destruct (ascii_dec c c) as [_|n]; [exact IH | now elim n].
Qed.

Lemma contains_app_r a needle b : contains (a ++ needle ++ b) needle = true.
Proof.
  induction a as [|c a IH].
  - change ("" ++ needle ++ b) with (needle ++ b).
    generalize (prefix_app needle b).
    destruct (needle ++ b); cbn [contains]; now intros ->.
  - simpl. rewrite IH. apply orb_true_r.
Qed.

End StringFacts.

(* --------------------------------------------------------------------- *)
(** ** Integers: literals and the division through binary64 *)

Module IntFacts.

Import StringFacts.

Lemma uint_digits d : all_chars isdigit (NilEmpty.string_of_uint d) = true.
Proof. induction d; simpl; auto. Qed.

(** Reading the digits that [string_of_uint] writes, the digits already read
    being [d'] (least significant first). *)
Lemma int_digits_uint d : forall d' prev,
  (d = Decimal.Nil -> prev = true) ->
  int_digits (Z.of_N (DecimalPos.Unsigned.of_lu d')) prev
    (NilEmpty.string_of_uint d)
  = Some (Z.of_N (DecimalPos.Unsigned.of_lu (Decimal.revapp d d'))).
Proof.
  induction d as [|d IH|d IH|d IH|d IH|d IH|d IH|d IH|d IH|d IH|d IH];
    intros d' prev Hnil;
    [ cbn; now rewrite Hnil | .. ];
    cbn [NilEmpty.string_of_uint int_digits Decimal.revapp];
    (match goal with
     | |- context [isdigit ?c] => change (isdigit c) with true
     end);
    (match goal with
     | |- context [digit_value ?c] =>
         let v := eval vm_compute in (digit_value c) in
         change (digit_value c) with v
     end);
    cbv iota;
    (match goal with
     | |- int_digits ?acc true _ = Some (Z.of_N (_ (Decimal.revapp _ ?x))) =>
         replace acc with (Z.of_N (DecimalPos.Unsigned.of_lu x))
           by (cbn [DecimalPos.Unsigned.of_lu]; lia)
     end);
    apply IH; reflexivity.
Qed.

Lemma int_digits_pos p :
  int_digits 0 false (NilEmpty.string_of_uint (Pos.to_uint p)) = Some (Z.pos p).
Proof.
  change 0 with (Z.of_N (DecimalPos.Unsigned.of_lu Decimal.Nil)).
  rewrite int_digits_uint.
  - change (Decimal.revapp (Pos.to_uint p) Decimal.Nil)
      with (Decimal.rev (Pos.to_uint p)).
    now rewrite <- DecimalPos.Unsigned.of_uint_alt, DecimalPos.Unsigned.of_to.
  - intros H. now apply DecimalPos.Unsigned.to_uint_nonnil in H.
Qed.

Lemma nilzero_pos p :
  NilZero.string_of_uint (Pos.to_uint p) = NilEmpty.string_of_uint (Pos.to_uint p).
Proof.
  generalize (DecimalPos.Unsigned.to_uint_nonnil p).
  destruct (Pos.to_uint p); intros H; [now elim H | reflexivity ..].
Qed.

Lemma digit_or_minus_cases c :
  digit_or_minus c = true ->
  isspace c = false /\ lower_char c = c
  /\ (c =? "m")%char = false /\ (c =? "s")%char = false
  /\ (c =? "h")%char = false.
Proof.
  destruct c as [[|] [|] [|] [|] [|] [|] [|] [|]]; cbv; intuition congruence.
Qed.

(** [str(n)] is made of digits after an optional minus sign. *)
Lemma str_int_chars n : all_chars digit_or_minus (str_int n) = true.
Proof.
  assert (D : forall d, all_chars digit_or_minus (NilEmpty.string_of_uint d) = true).
  { intros d. apply all_chars_weaken with (p := isdigit); [|apply uint_digits].
    intros c Hc. unfold digit_or_minus. now rewrite Hc. }
  destruct n as [|p|p]; unfold str_int; cbn [Z.to_int NilZero.string_of_int].
  - reflexivity.
  - rewrite nilzero_pos. apply D.
  - rewrite nilzero_pos. cbn [all_chars]. now rewrite D.
Qed.

(** [int(str(n)) = n] *)
Lemma int_literal_str_int n : int_literal (str_int n) = Some n.
Proof.
  unfold int_literal.
  rewrite strip_no_space.
  2:{ apply all_chars_weaken with (p := digit_or_minus); [|apply str_int_chars].
      intros c Hc. apply digit_or_minus_cases in Hc. now destruct Hc as [-> _]. }
  destruct n as [|p|p]; unfold str_int; cbn [Z.to_int NilZero.string_of_int].
  - reflexivity.
  - rewrite nilzero_pos.
    generalize (int_digits_pos p) (uint_digits (Pos.to_uint p)).
    destruct (NilEmpty.string_of_uint (Pos.to_uint p)) as [|c r]; [easy|].
    intros H D. cbn [all_chars] in D. apply andb_true_iff in D.
    destruct D as [D _].
    destruct c as [[|] [|] [|] [|] [|] [|] [|] [|]]; try exact H; discriminate D.
  - rewrite nilzero_pos. now rewrite int_digits_pos.
Qed.

Lemma round_half_even_bounds n d :
  0 <= n -> 0 < d ->
  n / d <= round_half_even n d /\ 2 * d * round_half_even n d <= 2 * n + d.
Proof.
  intros Hn Hd. unfold round_half_even.
  pose proof (Z.div_mod n d ltac:(lia)) as E.
  pose proof (Z.mod_pos_bound n d Hd) as B.
  destruct (Z.ltb_spec (2 * (n mod d)) d);
    [|destruct (Z.ltb_spec d (2 * (n mod d))); [|destruct (Z.even (n / d))]];
    nia.
Qed.

(** Below 2^53 the division by 1000 through binary64, truncated, is the
    integer quotient. *)
Lemma int_truediv_pos_1000 a :
  0 <= a < 2 ^ 53 -> int_truediv_pos a 1000 = Some (a / 1000).
Proof.
  intros [Ha Hb]. unfold int_truediv_pos.
  destruct (Z.eqb_spec a 0) as [->|Hnz]; [reflexivity|].
  assert (Hla : 0 <= Z.log2 a < 53).
  { split; [apply Z.log2_nonneg | apply Z.log2_lt_pow2; lia]. }
  change (Z.log2 1000) with 9.
  set (e := if (1000 * 2 ^ Z.log2 a <=? a * 2 ^ 9)%Z
            then Z.log2 a - 9 else Z.log2 a - 9 - 1).
  assert (He : -10 <= e <= 43).
  { subst e. destruct (_ <=? _)%Z; lia. }
  set (k := 52 - e).
  assert (Hk : 9 <= k <= 62) by (subst k; lia).
  destruct (Z.leb_spec 0 k) as [_|]; [|lia].
  destruct (Z.leb_spec 1024 e) as [|_]; [lia|].
  destruct (Z.eqb_spec e 1023) as [|_]; [lia|].
  cbn [orb andb]. f_equal.
  assert (HP : 512 <= 2 ^ k).
  { change 512 with (2 ^ 9). apply Z.pow_le_mono_r; lia. }
  set (P := 2 ^ k) in *.
  destruct (round_half_even_bounds (a * P) 1000 ltac:(nia) ltac:(lia)) as [L U].
  set (m := round_half_even (a * P) 1000) in *.
  pose proof (Z.div_mod a 1000 ltac:(lia)) as E.
  pose proof (Z.mod_pos_bound a 1000 ltac:(lia)) as B.
  set (q := a / 1000) in *.
  assert (Lq : q * P <= a * P / 1000).
  { apply Z.div_le_lower_bound; nia. }
  symmetry. apply Z.div_unique with (r := m - P * q); nia.
Qed.

(** [int(n / 1000)] truncates toward zero when [|n| < 2^53]. *)
Lemma int_truediv_1000 n :
  Z.abs n < 2 ^ 53 -> int_truediv n 1000 = Ok (Z.quot n 1000).
Proof.
  intros H. unfold int_truediv.
  rewrite int_truediv_pos_1000 by lia.
  f_equal. rewrite Z.quot_div by lia.
  change (Z.sgn 1000) with 1. change (Z.abs 1000) with 1000. ring.
Qed.

End IntFacts.

(* --------------------------------------------------------------------- *)
(** ** Duration parsing *)

Module DurationFacts.

Import StringFacts IntFacts.

Lemma last_char_app a u :
  u <> "" -> last_char (a ++ u) = last_char u.
Proof.
  intros Hu. induction a as [|c a IH]; [reflexivity|].
  cbn [append last_char]. rewrite IH.
  destruct (a ++ u) eqn:E; [|reflexivity].
  destruct a; [now elim Hu | discriminate].
Qed.

Lemma last_char_rstrip x c :
  last_char (rstrip x) = Some c -> isspace c = false.
Proof.
  revert c. induction x as [|a x IH]; intros c; cbn [rstrip]; [discriminate|].
  destruct (rstrip x) as [|b r] eqn:E.
  - destruct (isspace a) eqn:Ha; cbn; [discriminate|]. now intros [= <-].
  - intros H. apply IH. exact H.
Qed.

Lemma last_char_lower x :
  last_char (lower x) = option_map lower_char (last_char x).
Proof.
  induction x as [|a x IH]; [reflexivity|].
  cbn [lower last_char]. rewrite IH. now destruct x.
Qed.

Lemma isspace_lower_char c : isspace c = false -> isspace (lower_char c) = false.
Proof.
  destruct c as [[|] [|] [|] [|] [|] [|] [|] [|]]; cbv; congruence.
Qed.

Lemma last_char_lstrip x c :
  last_char x = Some c -> isspace c = false -> last_char (lstrip x) = Some c.
Proof.
  intros H Hc. induction x as [|a x IH]; [discriminate|].
  cbn [lstrip]. destruct (isspace a) eqn:Ha; [|exact H].
  apply IH. destruct x; [|exact H].
  cbn in H. congruence.
Qed.

Lemma rstrip_last x c :
  last_char x = Some c -> isspace c = false -> last_char (rstrip x) = Some c.
Proof.
  intros H Hc. induction x as [|a x IH]; [discriminate|].
  cbn [rstrip]. destruct x as [|b x].
  - cbn in *. injection H as ->. now rewrite Hc.
  - specialize (IH H). destruct (rstrip (String b x)); [discriminate|exact IH].
Qed.

Lemma int_digits_last acc prev x v :
  int_digits acc prev x = Some v ->
  x = "" \/ exists c, last_char x = Some c /\ isdigit c = true.
Proof.
  revert acc prev. induction x as [|a x IH]; intros acc prev; [now left|].
  cbn [int_digits]. destruct (isdigit a) eqn:Ha.
  - intros H. right. destruct (IH _ _ H) as [->|[c [Hc Hd]]].
    + now exists a.
    + exists c. split; [|exact Hd]. destruct x; [discriminate|exact Hc].
  - destruct (a =? "_")%char; [|discriminate].
    destruct prev; [|discriminate].
    intros H. right. destruct (IH _ _ H) as [->|[c [Hc Hd]]].
    + discriminate H.
    + exists c. split; [|exact Hd]. destruct x; [discriminate|exact Hc].
Qed.

(** A literal that [int] accepts ends, whitespace apart, with a digit. *)
Lemma int_literal_last x c :
  last_char x = Some c -> isspace c = false -> isdigit c = false ->
  int_literal x = None.
Proof.
  intros H Hs Hd. unfold int_literal, strip.
  pose proof (rstrip_last _ _ (last_char_lstrip _ _ H Hs) Hs) as L.
  assert (D : forall acc prev y, last_char y = Some c ->
                int_digits acc prev y = None).
  { intros acc prev y Hy. destruct (int_digits acc prev y) eqn:E; [|reflexivity].
    apply int_digits_last in E. destruct E as [->|[c' [Hc' Hd']]];
      [discriminate|congruence]. }
  destruct (rstrip (lstrip x)) as [|a r] eqn:E; [discriminate|].
  assert (R : r = "" \/ last_char r = Some c).
  { destruct r; [now left|right; exact L]. }
  assert (T : int_digits 0 false (String a r) = None) by now apply D.
  destruct R as [->|R].
  - cbn in L. injection L as ->.
    destruct c as [[|] [|] [|] [|] [|] [|] [|] [|]]; try exact T; reflexivity.
  - destruct a as [[|] [|] [|] [|] [|] [|] [|] [|]]; try exact T;
      now rewrite (D _ _ _ R).
Qed.

Lemma endswith_last x u c :
  u <> "" -> endswith x u = true -> last_char x = Some c -> last_char u = Some c.
Proof.
  intros Hu H L. apply endswith_split in H. destruct H as [a ->].
  now rewrite last_char_app in L.
Qed.

(** The string the function works on keeps no whitespace at its end. *)
Lemma normalised_last s c :
  last_char (lower (strip s)) = Some c -> isspace c = false.
Proof.
  rewrite last_char_lower. unfold strip.
  destruct (last_char (rstrip (lstrip s))) as [c'|] eqn:E; [|discriminate].
  intros [= <-]. apply isspace_lower_char. now apply last_char_rstrip in E.
Qed.

Lemma numeral_normalised n u :
  all_chars (fun c => negb (isspace c)) u = true ->
  all_chars (fun c => (lower_char c =? c)%char) u = true ->
  lower (strip (str_int n ++ u)) = str_int n ++ u.
Proof.
  intros Hs Hl.
  pose proof (str_int_chars n) as D.
  assert (NS : all_chars (fun c => negb (isspace c)) (str_int n ++ u) = true).
  { rewrite all_chars_app, Hs, andb_true_r.
    apply all_chars_weaken with (p := digit_or_minus); [|exact D].
    intros c Hc. apply digit_or_minus_cases in Hc. now destruct Hc as [-> _]. }
  assert (LF : all_chars (fun c => (lower_char c =? c)%char) (str_int n ++ u)
               = true).
  { rewrite all_chars_app, Hl, andb_true_r.
    apply all_chars_weaken with (p := digit_or_minus); [|exact D].
    intros c Hc. apply digit_or_minus_cases in Hc.
    destruct Hc as (_ & -> & _). apply Ascii.eqb_refl. }
  now rewrite (strip_no_space _ NS), (lower_fixed _ LF).
Qed.

Lemma numeral_endswith n u f suf :
  (f =? "m")%char || (f =? "s")%char || (f =? "h")%char = true ->
  endswith (str_int n ++ u) (String f suf) = endswith u (String f suf).
Proof.
  intros Hf. apply endswith_skip.
  apply all_chars_weaken with (p := digit_or_minus); [|apply str_int_chars].
  intros c Hc. apply digit_or_minus_cases in Hc.
  destruct Hc as (_ & _ & Hm & Hs & Hh).
  apply negb_true_iff.
  destruct (Ascii.eqb_spec c f) as [->|]; [|reflexivity].
  rewrite Hm, Hs, Hh in Hf. discriminate.
Qed.

Lemma int_str_int n : int (str_int n) = Ok n.
Proof. unfold int. now rewrite int_literal_str_int. Qed.

Ltac numeral_branch n u :=
  unfold parse_duration_to_seconds;
  rewrite (numeral_normalised n u) by reflexivity;
  rewrite ?(numeral_endswith n u) by reflexivity;
  repeat match goal with
         | |- context [endswith u ?x] =>
             let v := eval vm_compute in (endswith u x) in
             change (endswith u x) with v
         end;
  cbv iota;
  try (change (drop_last 1 (str_int n ++ u))
         with (drop_last (String.length u) (str_int n ++ u)));
  try (change (drop_last 2 (str_int n ++ u))
         with (drop_last (String.length u) (str_int n ++ u)));
  rewrite ?drop_last_app, ?append_nil_r, int_str_int; cbn [bind].

Lemma parse_numeral_s n : parse_duration_to_seconds (str_int n ++ "s") = Ok n.
Proof. now numeral_branch n "s". Qed.

Lemma parse_numeral_m n :
  parse_duration_to_seconds (str_int n ++ "m") = Ok (n * 60).
Proof. now numeral_branch n "m". Qed.

Lemma parse_numeral_h n :
  parse_duration_to_seconds (str_int n ++ "h") = Ok (n * 3600).
Proof. now numeral_branch n "h". Qed.

Lemma parse_numeral_bare n : parse_duration_to_seconds (str_int n) = Ok n.
Proof.
  rewrite <- (append_nil_r (str_int n)) at 1.
  now numeral_branch n "".
Qed.

Lemma parse_numeral_ms n :
  Z.abs n < 2 ^ 53 ->
  parse_duration_to_seconds (str_int n ++ "ms") = Ok (Z.max 1 (Z.quot n 1000)).
Proof.
  intros H. numeral_branch n "ms". now rewrite int_truediv_1000.
Qed.

End DurationFacts.

Module DurationClaims.

Import StringFacts IntFacts DurationFacts.

(** What a successful result says about the string read: it is a literal
    that [int] accepts, followed by one of the four units or by nothing. *)
Lemma parse_duration_ok_inv s v :
  parse_duration_to_seconds s = Ok v ->
  exists body n,
    int_literal body = Some n
    /\ ((lower (strip s) = body ++ "ms"
         /\ exists q, int_truediv n 1000 = Ok q /\ v = Z.max 1 q)
        \/ (lower (strip s) = body ++ "s" /\ v = n)
        \/ (lower (strip s) = body ++ "m" /\ v = n * 60)
        \/ (lower (strip s) = body ++ "h" /\ v = n * 3600)
        \/ (lower (strip s) = body /\ v = n)).
Proof.
  unfold parse_duration_to_seconds. set (t := lower (strip s)).
  assert (I : forall b w, int b = Ok w -> int_literal b = Some w).
  { intros b w. unfold int. destruct (int_literal b); now intros [= ->]. }
  destruct (endswith t "ms") eqn:Ems;
    [|destruct (endswith t "s") eqn:Es;
      [|destruct (endswith t "m") eqn:Em;
        [|destruct (endswith t "h") eqn:Eh]]].
  - apply endswith_split in Ems. destruct Ems as [a Ha]. rewrite Ha.
    change 2%nat with (String.length "ms"). rewrite drop_last_app.
    destruct (int a) as [n|] eqn:En; [|discriminate]. cbn [bind].
    destruct (int_truediv n 1000) as [q|] eqn:Eq; [|discriminate]. cbn [bind].
    intros [= <-]. exists a, n. split; [now apply I|]. left. eauto.
  - apply endswith_split in Es. destruct Es as [a Ha]. rewrite Ha.
    change 1%nat with (String.length "s"). rewrite drop_last_app.
    intros H. exists a, v. split; [now apply I|]. right; left. eauto.
  - apply endswith_split in Em. destruct Em as [a Ha]. rewrite Ha.
    change 1%nat with (String.length "m"). rewrite drop_last_app.
    destruct (int a) as [n|] eqn:En; [|discriminate]. cbn [bind].
    intros [= <-]. exists a, n. split; [now apply I|]. right; right; left. eauto.
  - apply endswith_split in Eh. destruct Eh as [a Ha]. rewrite Ha.
    change 1%nat with (String.length "h"). rewrite drop_last_app.
    destruct (int a) as [n|] eqn:En; [|discriminate]. cbn [bind].
    intros [= <-]. exists a, n. split; [now apply I|].
    right; right; right; left. eauto.
  - intros H. exists t, v. split; [now apply I|]. right; right; right; right. eauto.
Qed.

(** A string that ends, once stripped and lowered, with a character that
    is neither a digit nor a unit is refused by [int]. *)
Lemma parse_duration_other_suffix s c :
  last_char (lower (strip s)) = Some c ->
  isdigit c = false -> c <> "s"%char -> c <> "m"%char -> c <> "h"%char ->
  exists msg, parse_duration_to_seconds s = Raise (ValueError msg).
Proof.
  intros L Hd Hs Hm Hh. unfold parse_duration_to_seconds.
  set (t := lower (strip s)) in *.
  assert (E : forall u c', u <> "" -> last_char u = Some c' -> c <> c' ->
                endswith t u = false).
  { intros u c' Hu Lu Hc. destruct (endswith t u) eqn:E; [|reflexivity].
    pose proof (endswith_last _ _ _ Hu E L) as L'. congruence. }
  rewrite (E "ms" "s"%char), (E "s" "s"%char), (E "m" "m"%char),
    (E "h" "h"%char) by (discriminate || reflexivity || assumption).
  unfold int. rewrite (int_literal_last t c L (normalised_last s c L) Hd).
  eauto.
Qed.

(** The function raises nothing but [int]'s ValueError and, under [ms],
    the OverflowError of a quotient too large for a float. *)
Lemma parse_duration_raise_inv s e :
  parse_duration_to_seconds s = Raise e ->
  (exists msg, e = ValueError msg)
  \/ (exists msg body,
         e = OverflowError msg /\ lower (strip s) = body ++ "ms").
Proof.
  unfold parse_duration_to_seconds. set (t := lower (strip s)).
  assert (I : forall b e', int b = Raise e' -> exists msg, e' = ValueError msg).
  { intros b e'. unfold int. destruct (int_literal b); [discriminate|].
    intros [= <-]. eauto. }
  destruct (endswith t "ms") eqn:Ems;
    [|destruct (endswith t "s");
      [|destruct (endswith t "m"); [|destruct (endswith t "h")]]].
  - destruct (int (drop_last 2 t)) as [n|e'] eqn:En; cbn [bind].
    + unfold int_truediv. destruct (int_truediv_pos (Z.abs n) 1000);
        cbn [bind]; [discriminate|].
      intros [= <-]. right. apply endswith_split in Ems.
      destruct Ems as [body Hb]. eauto.
    + intros [= <-]. left. eauto.
  - intros H. left. eauto.
  - destruct (int (drop_last 1 t)) as [n|e'] eqn:En; cbn [bind]; [discriminate|].
    intros [= <-]. left. eauto.
  - destruct (int (drop_last 1 t)) as [n|e'] eqn:En; cbn [bind]; [discriminate|].
    intros [= <-]. left. eauto.
  - intros H. left. eauto.
Qed.

(** C1, counterexample: the claim has "1500ms" yield 2; the code divides by
    1000 and truncates, which gives 1. *)
Lemma parse_duration_1500ms_is_not_2 :
  parse_duration_to_seconds "1500ms" = Ok 1
  /\ parse_duration_to_seconds "1500ms" <> Ok 2.
Proof. split; [reflexivity | discriminate]. Qed.

(** C1, as amended: for every integer [n] written with at most 4300
    characters, its decimal writing is read as
    [n] seconds when bare or suffixed [s], as [60 n] when suffixed [m], as
    [3600 n] when suffixed [h], and, when suffixed [ms], as the quotient of
    [n] by 1000 truncated toward zero and raised to 1 at least (exact for
    [|n| < 2^53], the division going through a float); every successful
    result comes from a literal accepted by [int] followed by one of these
    units or by nothing; a string whose last character, after [strip] and
    [lower], is neither a digit nor one of [s], [m], [h] raises ValueError,
    as does the empty string; no other exception is raised, but for the
    OverflowError of an [ms] value too large for a float.  The examples of
    the specification hold with "1500ms" giving 1. *)
Theorem parse_duration_to_seconds_truncates_ms :
  (forall n : Z,
      (String.length (str_int n) <= 4300)%nat ->
      parse_duration_to_seconds (str_int n) = Ok n
      /\ parse_duration_to_seconds (str_int n ++ "s") = Ok n
      /\ parse_duration_to_seconds (str_int n ++ "m") = Ok (n * 60)
      /\ parse_duration_to_seconds (str_int n ++ "h") = Ok (n * 3600)
      /\ (Z.abs n < 2 ^ 53 ->
          parse_duration_to_seconds (str_int n ++ "ms")
          = Ok (Z.max 1 (Z.quot n 1000))))
  /\ (forall s v,
         parse_duration_to_seconds s = Ok v ->
         exists body n,
           int_literal body = Some n
           /\ ((lower (strip s) = body ++ "ms"
                /\ exists q, int_truediv n 1000 = Ok q /\ v = Z.max 1 q)
               \/ (lower (strip s) = body ++ "s" /\ v = n)
               \/ (lower (strip s) = body ++ "m" /\ v = n * 60)
               \/ (lower (strip s) = body ++ "h" /\ v = n * 3600)
               \/ (lower (strip s) = body /\ v = n)))
  /\ (forall s c,
         last_char (lower (strip s)) = Some c ->
         isdigit c = false -> c <> "s"%char -> c <> "m"%char -> c <> "h"%char ->
         exists msg, parse_duration_to_seconds s = Raise (ValueError msg))
  /\ (forall s e,
         parse_duration_to_seconds s = Raise e ->
         (exists msg, e = ValueError msg)
         \/ (exists msg body,
                e = OverflowError msg /\ lower (strip s) = body ++ "ms"))
  /\ (exists msg, parse_duration_to_seconds "" = Raise (ValueError msg))
  /\ parse_duration_to_seconds "1500ms" = Ok 1
  /\ parse_duration_to_seconds "5s" = Ok 5
  /\ parse_duration_to_seconds "3m" = Ok 180
  /\ parse_duration_to_seconds "2h" = Ok 7200
  /\ parse_duration_to_seconds "42" = Ok 42.
Proof.
  split; [|split; [|split; [|split; [|split]]]].
  - intros n _. repeat split.
    + apply parse_numeral_bare.
    + apply parse_numeral_s.
    + apply parse_numeral_m.
    + apply parse_numeral_h.
    + apply parse_numeral_ms.
  - apply parse_duration_ok_inv.
  - apply parse_duration_other_suffix.
  - apply parse_duration_raise_inv.
  - eexists. reflexivity.
  - repeat split; reflexivity.
Qed.

Lemma parse_duration_to_seconds_truncates_ms_witness :
  Z.abs 2999 < 2 ^ 53
  /\ parse_duration_to_seconds (str_int 2999 ++ "ms") = Ok 2
  /\ exists msg, parse_duration_to_seconds "5d" = Raise (ValueError msg).
Proof.
  destruct parse_duration_to_seconds_truncates_ms as (N & _ & S & _).
  split; [reflexivity|]. split.
  - destruct (N 2999) as (_ & _ & _ & _ & H).
    + apply Nat.leb_le. reflexivity.
    + apply H. reflexivity.
  - apply (S "5d" "d"%char); (reflexivity || discriminate).
Defined.

End DurationClaims.

(* --------------------------------------------------------------------- *)
(** ** Pod-name resolution *)

Module ResolverFacts.

Import StringFacts.

Lemma drop_first_app p s : drop_first (String.length p) (p ++ s) = s.
Proof. induction p as [|c p IH]; [reflexivity | exact IH]. Qed.

Lemma append_inj_l a x y : a ++ x = a ++ y -> x = y.
Proof.
  induction a as [|c a IH]; cbn [append]; [auto|].
  intros [= H]. auto.
Qed.

Lemma truthy_some s : s <> "" -> truthy (Some s) = true.
Proof. destruct s; [now intros H; elim H | reflexivity]. Qed.

Lemma truthy_false_iff (o : option string) :
  truthy o = false <-> o = None \/ o = Some "".
Proof.
  destruct o as [[|c s]|]; cbn; split; intros H; auto; try discriminate.
  - destruct H as [H|H]; discriminate.
Qed.

Lemma opt_eqb_eq a b : opt_eqb a b = true <-> a = b.
Proof.
  destruct a as [x|], b as [y|]; cbn; try (split; (discriminate || reflexivity)).
  rewrite String.eqb_eq. split; [now intros -> | now intros [= ->]].
Qed.

(** When the loop over a list of node identifiers stops. *)
Lemma for_children_ok search cs :
  (forall c, In c cs -> exists r, search c = Ok r) ->
  exists r, for_children search cs = Ok r.
Proof.
  induction cs as [|c cs IH]; intros H; cbn [for_children]; [eauto|].
  destruct (H c (or_introl eq_refl)) as [r ->].
  destruct (truthy r); [eauto|]. apply IH. intros c' Hc'. apply H. now right.
Qed.

Lemma for_children_raise search cs e :
  for_children search cs = Raise e -> exists c, In c cs /\ search c = Raise e.
Proof.
  induction cs as [|c cs IH]; cbn [for_children]; [discriminate|].
  destruct (search c) as [r|e'] eqn:E.
  - destruct (truthy r); [discriminate|]. intros H.
    destruct (IH H) as [c' [Hin Hc']]. exists c'. split; [now right | exact Hc'].
  - intros [= ->]. exists c. split; [now left | exact E].
Qed.

Lemma for_children_none search cs :
  for_children search cs = Ok None <->
  forall c, In c cs -> exists r, search c = Ok r /\ truthy r = false.
Proof.
  induction cs as [|c cs IH]; cbn [for_children].
  - split; [intros _ c [] | reflexivity].
  - destruct (search c) as [r|e] eqn:E.
    + destruct (truthy r) eqn:T.
      * split.
        -- intros [= ->]. discriminate T.
        -- intros H. destruct (H c (or_introl eq_refl)) as [r' [Hr' T']].
           congruence.
      * rewrite IH. split.
        -- intros H c' [<-|Hin]; [eauto | auto].
        -- intros H c' Hin. apply H. now right.
    + split; [discriminate|].
      intros H. destruct (H c (or_introl eq_refl)) as [r' [Hr' _]]. congruence.
Qed.

Lemma for_children_found search cs r :
  for_children search cs = Ok r -> r = None \/ truthy r = true.
Proof.
  induction cs as [|c cs IH]; cbn [for_children]; [intros [= <-]; now left|].
  destruct (search c) as [r'|e]; [|discriminate].
  destruct (truthy r') eqn:T; [|exact IH].
  intros [= <-]. now right.
Qed.

Lemma for_roots_is_for_children search ids :
  for_roots search ids = for_children search ids.
Proof. induction ids as [|i ids IH]; cbn; [reflexivity | now rewrite IH]. Qed.

(** The loop returns the result of the first identifier at which the
    search returns a name. *)
Lemma for_children_first search cs p :
  p <> "" ->
  (for_children search cs = Ok (Some p)
   <-> exists before c after,
         cs = (before ++ c :: after)%list
         /\ (forall b, In b before -> search b = Ok None \/ search b = Ok (Some ""))
         /\ search c = Ok (Some p)).
Proof.
  intros Hp. induction cs as [|c cs IH]; cbn [for_children].
  - split; [discriminate|]. intros [before [c [after [E _]]]].
    now destruct before.
  - destruct (search c) as [r|e] eqn:E.
    + destruct (truthy r) eqn:T.
      * split.
        -- intros [= ->]. exists [], c, cs. repeat split; [|exact E].
           intros b [].
        -- intros [before [c' [after [Hcs [Hb Hc']]]]].
           destruct before as [|b before]; cbn in Hcs; injection Hcs as H1 H2;
             subst c cs.
           ++ congruence.
           ++ destruct (Hb b (or_introl eq_refl)) as [H|H];
                rewrite H in E; injection E as <-; discriminate T.
      * rewrite IH. split.
        -- intros [before [c' [after [-> [Hb Hc']]]]].
           exists (c :: before), c', after. repeat split; [|exact Hc'].
           intros b [<-|Hin]; [|auto].
           apply truthy_false_iff in T. destruct T as [-> | ->]; auto.
        -- intros [before [c' [after [Hcs [Hb Hc']]]]].
           destruct before as [|b before]; cbn in Hcs; injection Hcs as H1 H2;
             subst c cs.
           ++ rewrite Hc' in E. injection E as <-.
              rewrite (truthy_some _ Hp) in T. discriminate T.
           ++ exists before, c', after. repeat split; [|exact Hc'].
              intros b' Hin. apply Hb. now right.
    + split; [discriminate|].
      intros [before [c' [after [Hcs [Hb Hc']]]]].
      destruct before as [|b before]; cbn in Hcs; injection Hcs as H1 H2;
             subst c cs.
      * congruence.
      * destruct (Hb b (or_introl eq_refl)) as [H|H]; congruence.
Qed.

(** The search raises nothing but the interpreter's [RecursionError]. *)
Lemma find_raise depth : forall nodes node_id wf_name e,
  _find_podname_in_subtree depth nodes node_id wf_name = Raise e ->
  e = RecursionError "maximum recursion depth exceeded".
Proof.
  induction depth as [|d IH]; intros nodes node_id wf_name e;
    cbn [_find_podname_in_subtree]; [now intros [= <-]|].
  destruct (truthy _); [discriminate|].
  intros H. apply for_children_raise in H. destruct H as [c [_ Hc]]. eauto.
Qed.

(** What it returns is a non-empty name or nothing. *)
Lemma find_ok depth nodes node_id wf_name r :
  _find_podname_in_subtree depth nodes node_id wf_name = Ok r ->
  r = None \/ truthy r = true.
Proof.
  destruct depth as [|d]; cbn [_find_podname_in_subtree]; [discriminate|].
  destruct (truthy _) eqn:T.
  - intros [= <-]. now right.
  - apply for_children_found.
Qed.

Lemma find_not_found depth nodes node_id wf_name r :
  _find_podname_in_subtree depth nodes node_id wf_name = Ok r ->
  truthy r = false -> r = None.
Proof.
  intros H T. apply find_ok in H. destruct H as [H|H]; [exact H | congruence].
Qed.

(** Where the children links go down along a rank, a depth above the rank
    of the start is enough for the search to return. *)
Lemma find_returns_below_rank nodes wf_name (rank : string -> nat) :
  (forall id c, In c (children (nodes_get nodes id)) -> (rank c < rank id)%nat) ->
  forall depth node_id, (rank node_id < depth)%nat ->
    exists r, _find_podname_in_subtree depth nodes node_id wf_name = Ok r.
Proof.
  intros Hrank. induction depth as [|d IH]; intros node_id Hd; [lia|].
  cbn [_find_podname_in_subtree]. destruct (truthy _); [eauto|].
  apply for_children_ok. intros c Hc. apply IH.
  specialize (Hrank _ _ Hc). lia.
Qed.

Lemma derive_none_iff node_id wf_name template_name :
  _derive_pod_name_from_pod_node node_id wf_name template_name = None
  <-> truthy template_name = false
      \/ startswith node_id (wf_name ++ "-") = false
      \/ drop_first (String.length (wf_name ++ "-")) node_id = "".
Proof.
  unfold _derive_pod_name_from_pod_node.
  destruct (truthy template_name); cbn [negb]; [|intuition].
  destruct (startswith node_id (wf_name ++ "-")); cbn [negb]; [|intuition].
  destruct (drop_first _ node_id) as [|c r]; cbn [truthy negb].
  - intuition.
  - split; [discriminate|]. intros [H|[H|H]]; discriminate.
Qed.

Lemma pod_name_from_node_none_iff nodes node_id wf_name :
  _pod_name_from_node nodes node_id wf_name = None
  <-> truthy (podName (nodes_get nodes node_id)) = false
      /\ (type (nodes_get nodes node_id) <> Some "Pod"
          \/ _derive_pod_name_from_pod_node node_id wf_name
               (templateName (nodes_get nodes node_id)) = None).
Proof.
  unfold _pod_name_from_node.
  destruct (truthy (podName (nodes_get nodes node_id))) eqn:T.
  - split; [|intros [H _]; discriminate].
    intros H. rewrite H in T. discriminate.
  - destruct (opt_eqb (type (nodes_get nodes node_id)) (Some "Pod")) eqn:E.
    + apply opt_eqb_eq in E. split; [auto|]. intros [_ [H|H]]; [contradiction|auto].
    + split; [|reflexivity]. intros _. split; [reflexivity|]. left.
      intros H. apply opt_eqb_eq in H. congruence.
Qed.

End ResolverFacts.

Module ResolverClaims.

Import StringFacts ResolverFacts.

Lemma steps_rank_decreases id c :
  In c (children (nodes_get steps_nodes id)) -> (steps_rank c < steps_rank id)%nat.
Proof.
  unfold nodes_get, steps_nodes. cbn [dict_get].
  destruct (String.eqb_spec "wf-1" id) as [<-|_].
  - cbn. intros [<-|[]]. cbn. lia.
  - destruct (String.eqb_spec "wf-abc" id) as [<-|_]; cbn; intros [].
Qed.

(** C2, counterexample: on a cycle with no pod name in it the search does
    not return, whatever depth the interpreter grants: nothing stops it
    from entering a node again, and it ends in [RecursionError]. *)
Lemma find_podname_cycle_never_returns :
  ~ (exists depth r,
        _find_podname_in_subtree depth cyclic_nodes "a" "wf" = Ok r).
Proof.
  assert (H : forall depth,
             _find_podname_in_subtree depth cyclic_nodes "a" "wf"
             = Raise (RecursionError "maximum recursion depth exceeded")
             /\ _find_podname_in_subtree depth cyclic_nodes "b" "wf"
                = Raise (RecursionError "maximum recursion depth exceeded")).
  { induction depth as [|d [IHa IHb]]; [split; reflexivity|].
    split; cbn [_find_podname_in_subtree].
    - change (_pod_name_from_node cyclic_nodes "a" "wf") with (@None string).
      change (children (nodes_get cyclic_nodes "a")) with ["b"].
      cbn [truthy for_children]. now rewrite IHb.
    - change (_pod_name_from_node cyclic_nodes "b" "wf") with (@None string).
      change (children (nodes_get cyclic_nodes "b")) with ["a"].
      cbn [truthy for_children]. now rewrite IHa. }
  intros [depth [r Hr]]. destruct (H depth) as [Ha _]. congruence.
Qed.

(** C2, as amended: the search keeps no record of visited nodes; it returns
    (a pod name or nothing) on every node map whose children links are
    acyclic, that is, go down along some rank, as soon as the recursion
    depth available exceeds the rank of the start node. *)
Theorem find_podname_returns_on_acyclic
  (nodes : dict Node) (wf_name : string) (rank : string -> nat)
  (acyclic : forall id c,
      In c (children (nodes_get nodes id)) -> (rank c < rank id)%nat)
  (depth : nat) (node_id : string) (enough : (rank node_id < depth)%nat) :
  exists r, _find_podname_in_subtree depth nodes node_id wf_name = Ok r.
Proof. now apply find_returns_below_rank with (rank := rank). Qed.

Lemma find_podname_returns_on_acyclic_witness :
  exists r, _find_podname_in_subtree 2 steps_nodes "wf-1" "wf" = Ok r.
Proof.
  apply (find_podname_returns_on_acyclic steps_nodes "wf" steps_rank
           steps_rank_decreases 2 "wf-1").
  cbn. lia.
Defined.

(** C5: a node without pod name, of type Pod, with a template name, whose
    identifier is the workflow name, a hyphen and a non-empty suffix, is
    given the pod name workflow-template-suffix: by [_pod_name_from_node],
    by the subtree search started at it, and by [resolve_pod_name] when it
    is the first node carrying the display name asked for. *)
Theorem pod_name_reconstructed
  (nodes : dict Node) (wf_name suffix template : string) (n : Node)
  (present : dict_get nodes (wf_name ++ "-" ++ suffix) = Some n)
  (no_pod_name : truthy (podName n) = false)
  (is_pod : type n = Some "Pod")
  (has_template : templateName n = Some template)
  (template_named : template <> "")
  (suffix_named : suffix <> "") :
  let node_id := wf_name ++ "-" ++ suffix in
  let pod := wf_name ++ "-" ++ template ++ "-" ++ suffix in
  _pod_name_from_node nodes node_id wf_name = Some pod
  /\ (forall depth,
         _find_podname_in_subtree (S depth) nodes node_id wf_name = Ok (Some pod))
  /\ (forall depth display_name rest,
         _nodes_with_display_name nodes display_name = node_id :: rest ->
         resolve_pod_name (S depth) nodes wf_name display_name = Ok pod).
Proof.
  intros node_id pod.
  assert (D : _pod_name_from_node nodes node_id wf_name = Some pod).
  { unfold _pod_name_from_node, nodes_get. subst node_id. rewrite present.
    rewrite no_pod_name, is_pod. cbn [opt_eqb]. rewrite String.eqb_refl.
    unfold _derive_pod_name_from_pod_node.
    rewrite has_template, (truthy_some _ template_named). cbn [negb].
    rewrite <- append_assoc. unfold startswith. rewrite prefix_app.
    cbn [negb]. rewrite drop_first_app, (truthy_some _ suffix_named).
    reflexivity. }
  assert (T : truthy (Some pod) = true).
  { subst pod. destruct wf_name; reflexivity. }
  assert (F : forall depth,
             _find_podname_in_subtree (S depth) nodes node_id wf_name
             = Ok (Some pod)).
  { intros depth. cbn [_find_podname_in_subtree]. now rewrite D, T. }
  split; [exact D|]. split; [exact F|].
  intros depth display_name rest Hids. unfold resolve_pod_name.
  rewrite Hids. cbn [for_roots]. now rewrite F, T.
Qed.

Lemma pod_name_reconstructed_witness :
  resolve_pod_name 1 example_nodes "wf" "step1" = Ok "wf-run-abc".
Proof.
  refine (proj2 (proj2 (pod_name_reconstructed example_nodes "wf" "abc" "run" _
                          eq_refl eq_refl eq_refl eq_refl _ _))
            0%nat "step1" [] eq_refl);
    discriminate.
Defined.

(** C10: the reconstruction is a total function that gives nothing exactly
    when the template name is missing or empty, the node identifier does
    not start with the workflow name and a hyphen, or nothing is left
    after that prefix; a node from which no pod name is had (no pod name of
    its own, and not a Pod node or a failed reconstruction) hands the
    search over to its children, all of them and in order: the search
    returns a name exactly when some child gives that name and every child
    before it has given nothing, and it returns nothing exactly when every
    child has given nothing; the search itself raises nothing but the
    interpreter's recursion error; and [resolve_pod_name] raises the error
    that lists the candidates exactly when there are candidates and the
    search has returned nothing from each of them. *)
Theorem reconstruction_failure_falls_through :
  (forall node_id wf_name template_name,
      _derive_pod_name_from_pod_node node_id wf_name template_name = None
      <-> truthy template_name = false
          \/ startswith node_id (wf_name ++ "-") = false
          \/ drop_first (String.length (wf_name ++ "-")) node_id = "")
  /\ (forall nodes node_id wf_name,
         _pod_name_from_node nodes node_id wf_name = None
         <-> truthy (podName (nodes_get nodes node_id)) = false
             /\ (type (nodes_get nodes node_id) <> Some "Pod"
                 \/ _derive_pod_name_from_pod_node node_id wf_name
                      (templateName (nodes_get nodes node_id)) = None))
  /\ (forall depth nodes node_id wf_name,
         _pod_name_from_node nodes node_id wf_name = None ->
         (forall pod,
             _find_podname_in_subtree (S depth) nodes node_id wf_name
             = Ok (Some pod)
             <-> exists before child after,
                   children (nodes_get nodes node_id)
                   = (before ++ child :: after)%list
                   /\ (forall c, In c before ->
                         _find_podname_in_subtree depth nodes c wf_name = Ok None)
                   /\ _find_podname_in_subtree depth nodes child wf_name
                      = Ok (Some pod))
         /\ (_find_podname_in_subtree (S depth) nodes node_id wf_name = Ok None
             <-> forall c, In c (children (nodes_get nodes node_id)) ->
                   _find_podname_in_subtree depth nodes c wf_name = Ok None))
  /\ (forall depth nodes node_id wf_name e,
         _find_podname_in_subtree depth nodes node_id wf_name = Raise e ->
         exists msg, e = RecursionError msg)
  /\ (forall depth nodes wf_name display_name,
         resolve_pod_name depth nodes wf_name display_name
         = Raise (AssertionError
                    (not_resolvable_message nodes display_name
                       (_nodes_with_display_name nodes display_name)))
         <-> _nodes_with_display_name nodes display_name <> []
             /\ forall node_id,
                  In node_id (_nodes_with_display_name nodes display_name) ->
                  _find_podname_in_subtree depth nodes node_id wf_name = Ok None).
Proof.
  split; [exact derive_none_iff|].
  split; [exact pod_name_from_node_none_iff|].
  split.
  { intros depth nodes node_id wf_name H.
    set (search := fun child_id =>
                     _find_podname_in_subtree depth nodes child_id wf_name).
    assert (E : _find_podname_in_subtree (S depth) nodes node_id wf_name
                = for_children search (children (nodes_get nodes node_id))).
    { cbn [_find_podname_in_subtree]. now rewrite H. }
    rewrite E. split.
    - intros pod. split.
      + intros F.
        assert (Hp : pod <> "").
        { destruct (for_children_found _ _ _ F) as [N|T]; [discriminate N|].
          intros ->. discriminate T. }
        apply (for_children_first _ _ _ Hp) in F.
        destruct F as (before & child & after & Hcs & Hb & Hc).
        exists before, child, after. split; [exact Hcs|]. split; [|exact Hc].
        intros c Hin. destruct (Hb c Hin) as [N|N]; [exact N|].
        subst search. cbn beta in N.
        destruct (find_ok _ _ _ _ _ N) as [D|T]; discriminate.
      + intros (before & child & after & Hcs & Hb & Hc).
        assert (Hp : pod <> "").
        { destruct (find_ok _ _ _ _ _ Hc) as [N|T]; [discriminate N|].
          intros ->. discriminate T. }
        apply (for_children_first _ _ _ Hp).
        exists before, child, after. split; [exact Hcs|]. split; [|exact Hc].
        intros c Hin. left. now apply Hb.
    - rewrite for_children_none. split.
      + intros N c Hin. destruct (N c Hin) as [r [Hr T]].
        subst search. cbn beta in Hr. rewrite Hr. f_equal.
        now apply (find_not_found _ _ _ _ _ Hr).
      + intros N c Hin. exists None. split; [now apply N | reflexivity]. }
  split.
  { intros depth nodes node_id wf_name e H. apply find_raise in H. eauto. }
  intros depth nodes wf_name display_name. unfold resolve_pod_name.
  set (ids := _nodes_with_display_name nodes display_name).
  set (search := fun node_id => _find_podname_in_subtree depth nodes node_id wf_name).
  destruct ids as [|i ids'] eqn:E.
  - split.
    + intros [= H]. unfold not_found_message, not_resolvable_message in H.
      apply append_inj_l in H. discriminate H.
    + intros [H _]. now elim H.
  - rewrite for_roots_is_for_children.
    destruct (for_children search (i :: ids')) as [[pod|]|e] eqn:F.
    + split; [discriminate|]. intros [_ H].
      assert (N : for_children search (i :: ids') = Ok None).
      { apply for_children_none. intros c Hc. exists None. split; [|reflexivity].
        now apply H. }
      congruence.
    + split; [|reflexivity]. intros _. split; [discriminate|].
      intros node_id Hin.
      destruct (proj1 (for_children_none _ _) F node_id Hin) as [r [Hr T]].
      subst search. cbn beta in Hr. rewrite Hr. f_equal.
      now apply (find_not_found _ _ _ _ _ Hr).
    + split.
      * intros [= ->]. apply for_children_raise in F.
        destruct F as [c [_ Hc]]. apply find_raise in Hc. discriminate Hc.
      * intros [_ H]. apply for_children_raise in F.
        destruct F as [c [Hin Hc]]. subst search. cbn beta in Hc.
        rewrite (H c Hin) in Hc. discriminate Hc.
Qed.

Lemma reconstruction_failure_falls_through_witness :
  _find_podname_in_subtree 2 two_children_nodes "wf-1" "wf" = Ok (Some "wf-run-3")
  /\ _find_podname_in_subtree 1 two_children_nodes "other-2" "wf" = Ok None
  /\ resolve_pod_name 2 two_children_nodes "wf" "step1" = Ok "wf-run-3".
Proof.
  destruct reconstruction_failure_falls_through as (_ & _ & H & _).
  split; [|split; reflexivity].
  apply (proj1 (H 1%nat two_children_nodes "wf-1" "wf" eq_refl) "wf-run-3").
  exists ["other-2"], "wf-3", []. split; [reflexivity|]. split; [|reflexivity].
  intros c [<-|[]]. reflexivity.
Defined.

End ResolverClaims.

(* --------------------------------------------------------------------- *)
(** ** Log aggregation *)

Module LogFacts.

Lemma order_without_main names :
  ~ In "main" names -> _order names = names.
Proof.
  intros H. unfold _order.
  destruct (existsb (String.eqb "main") names) eqn:E; [|reflexivity].
  apply existsb_exists in E. destruct E as [x [Hx Ex]].
  apply String.eqb_eq in Ex. subst x. contradiction.
Qed.

Lemma order_with_main names :
  In "main" names -> _order names = "main" :: filter not_main names.
Proof.
  intros H. unfold _order.
  destruct (existsb (String.eqb "main") names) eqn:E; [reflexivity|].
  assert (T : existsb (String.eqb "main") names = true).
  { apply existsb_exists. exists "main". split; [exact H | reflexivity]. }
  congruence.
Qed.

Lemma filter_not_main_id names :
  ~ In "main" names -> filter not_main names = names.
Proof.
  induction names as [|n names IH]; [reflexivity|].
  intros H. cbn [filter]. unfold not_main at 1.
  destruct (String.eqb_spec n "main") as [->|_].
  - elim H. now left.
  - cbn [negb]. f_equal. apply IH. intros Hin. apply H. now right.
Qed.

(** The containers other than [main] keep their relative order. *)
Lemma order_keeps_others names :
  filter not_main (_order names) = filter not_main names.
Proof.
  unfold _order. destruct (existsb (String.eqb "main") names); [|reflexivity].
  cbn [filter]. change (not_main "main") with false. cbv iota.
  induction names as [|n names IH]; [reflexivity|].
  cbn [filter]. fold (not_main n).
  destruct (not_main n) eqn:E; cbn [filter]; rewrite ?E; now rewrite IH.
Qed.

(** A loop over container names always comes to its end, a failed read
    being turned into a placeholder: one section per name, in order. *)
Lemma read_sections_labels env kind namespace pod_name names :
  forall st, exists st' secs,
    read_sections env kind namespace pod_name names st = (st', Return secs)
    /\ map section_label secs = map (pair kind) names.
Proof.
  induction names as [|cname rest IH]; intros st.
  - exists st, []. split; reflexivity.
  - cbn [read_sections]. unfold mbind at 1.
    set (reading := try_except _ _).
    assert (R : exists st1 log, reading st = (st1, Return log)).
    { subst reading. unfold try_except, call, ret.
      destruct (read_namespaced_pod_log env (tick st) pod_name namespace cname);
        eauto. }
    destruct R as [st1 [log ->]].
    unfold mbind. destruct (IH st1) as [st' [secs [-> L]]].
    exists st'. eexists. split; [reflexivity|].
    cbn [map]. now rewrite L.
Qed.

End LogFacts.

Module LogClaims.

Import LogFacts.

(** C4, counterexample: the init containers do not always stay in declared
    order; [_order] is applied to them as well, so that an init container
    named [main] declared second is read and printed first. *)
Lemma init_container_named_main_moves_first :
  labels_of (read_pod_log_sections init_main_env "argo" "pod-1" start)
  = Some [(InitContainer, "main"); (InitContainer, "setup"); (Container, "wait")]
  /\ labels_of (read_pod_log_sections init_main_env "argo" "pod-1" start)
     <> Some [(InitContainer, "setup"); (InitContainer, "main");
              (Container, "wait")]
  /\ value_of (read_pod_logs init_main_env "argo" "pod-1" start)
     = Some ("--- initContainer: main --- log of main;"
             ++ " --- initContainer: setup --- log of setup;"
             ++ " --- container: wait --- log of wait;").
Proof. split; [reflexivity | split; [discriminate | reflexivity]]. Qed.

(** C4, as amended: for every pod that can be read, one section is
    produced per container, the init containers first and the regular
    containers after them, each of the two lists being reordered by
    [_order]; the text returned is the sections' concatenation, stripped
    on the left.  [_order] leaves a list without [main] as it is, puts
    [main] first (once) in a list that has it, and never changes the
    relative order of the other names; ["wait"; "main"; "sidecar"]
    becomes ["main"; "wait"; "sidecar"]. *)
Theorem log_sections_order
  (env : Env) (namespace pod_name : string) (st : State) (pod : Pod)
  (readable : read_namespaced_pod env (tick st) pod_name namespace = Ok pod) :
  (exists st' secs,
      read_pod_log_sections env namespace pod_name st = (st', Return secs)
      /\ map section_label secs
         = (map (pair InitContainer) (_order (init_containers pod))
            ++ map (pair Container) (_order (containers pod)))%list
      /\ read_pod_logs env namespace pod_name st
         = (st', Return (lstrip (String.concat "" (map render_section secs)))))
  /\ (forall names,
         (~ In "main" names -> _order names = names)
         /\ (In "main" names -> _order names = "main" :: filter not_main names)
         /\ filter not_main (_order names) = filter not_main names)
  /\ _order ["wait"; "main"; "sidecar"] = ["main"; "wait"; "sidecar"].
Proof.
  split; [|split; [|reflexivity]].
  - assert (E : exists st' secs,
               read_pod_log_sections env namespace pod_name st
               = (st', Return secs)
               /\ map section_label secs
                  = (map (pair InitContainer) (_order (init_containers pod))
                     ++ map (pair Container) (_order (containers pod)))%list).
    { unfold read_pod_log_sections, mbind, call. rewrite readable.
      destruct (read_sections_labels env InitContainer namespace pod_name
                  (_order (init_containers pod))
                  {| tick := S (tick st); stdout := stdout st |})
        as [st2 [inits [Hi Li]]].
      rewrite Hi.
      destruct (read_sections_labels env Container namespace pod_name
                  (_order (containers pod)) st2) as [st3 [regs [Hr Lr]]].
      rewrite Hr. exists st3, (inits ++ regs)%list.
      split; [reflexivity | now rewrite map_app, Li, Lr]. }
    destruct E as [st' [secs [E L]]]. exists st', secs.
    split; [exact E|]. split; [exact L|].
    unfold read_pod_logs, mbind. now rewrite E.
  - intros names. split; [apply order_without_main|].
    split; [apply order_with_main | apply order_keeps_others].
Qed.

Lemma log_sections_order_witness :
  labels_of (read_pod_log_sections example_env "argo" "pod-1" start)
  = Some [(Container, "main"); (Container, "wait"); (Container, "sidecar")].
Proof.
  destruct (log_sections_order example_env "argo" "pod-1" start
              {| containers := ["wait"; "main"; "sidecar"];
                 init_containers := [] |} eq_refl)
    as [[st' [secs [E [L _]]]] _].
  unfold labels_of. rewrite E. cbn [snd]. now rewrite L.
Defined.

End LogClaims.

(* --------------------------------------------------------------------- *)
(** ** Polling *)

Module WatcherFacts.

Import StringFacts.

Section Loop.

Variable env : Env.
Variables namespace name : string.
Variable timeout_seconds : Z.
Variable deadline : Z.

Lemma wait_loop_expires k : forall fuel u out last_phase,
  (k < fuel)%nat ->
  polls_go_on env namespace name deadline u k ->
  deadline <= time_time env (u + 3 * k) ->
  exists st',
    wait_loop env fuel namespace name timeout_seconds deadline last_phase
      {| tick := u; stdout := out |}
    = (st', Throw (TimeoutError (timeout_message namespace name timeout_seconds))).
Proof.
  induction k as [|k IH]; intros fuel u out last_phase Hfuel Hpolls Hexp;
    (destruct fuel as [|fuel]; [lia|]); cbn [wait_loop];
    unfold mbind at 1; unfold call_total at 1, call at 1; cbn [tick stdout].
  - replace (u + 3 * 0)%nat with u in Hexp by lia.
    destruct (Z.ltb_spec (time_time env u) deadline); [lia|].
    unfold throw. eauto.
  - destruct (Hpolls 0%nat ltac:(lia)) as [Hlt [wf [Hget Hphase]]].
    replace (u + 3 * 0)%nat with u in Hlt, Hget by lia.
    destruct (Z.ltb_spec (time_time env u) deadline); [|lia].
    unfold mbind at 1. unfold get_workflow, call at 1. cbn [tick stdout].
    replace (S u) with (u + 1)%nat by lia. rewrite Hget.
    rewrite Hphase.
    assert (Next : forall out' last',
               exists st',
                 wait_loop env fuel namespace name timeout_seconds deadline last'
                   {| tick := u + 3; stdout := out' |}
                 = (st', Throw (TimeoutError
                                  (timeout_message namespace name timeout_seconds)))).
    { intros out' last'. apply IH; [lia| |].
      - intros i Hi. destruct (Hpolls (S i) ltac:(lia)) as [A [wf' [B C]]].
        replace (u + 3 + 3 * i)%nat with (u + 3 * S i)%nat by lia.
        split; [exact A|]. exists wf'. split; [exact B | exact C].
      - replace (u + 3 + 3 * k)%nat with (u + 3 * S k)%nat by lia. exact Hexp. }
    replace (S (S (u + 1))) with (u + 3)%nat by lia.
    destruct (negb (opt_eqb (Some (phase_or_unknown wf)) last_phase));
      unfold mbind, print, print_line, ret, call_total, call; cbn [tick stdout];
      replace (S (u + 1 + 1)) with (u + 3)%nat by lia;
      replace (S (S (u + 1))) with (u + 3)%nat by lia;
      apply Next.
Qed.

End Loop.

Lemma timeout_message_has_namespace namespace name timeout_seconds :
  contains (timeout_message namespace name timeout_seconds) namespace = true.
Proof. unfold timeout_message. apply contains_app_r. Qed.

Lemma timeout_message_has_name namespace name timeout_seconds :
  contains (timeout_message namespace name timeout_seconds) name = true.
Proof.
  unfold timeout_message.
  rewrite <- (append_assoc namespace), <- (append_assoc "Workflow ").
  apply contains_app_r.
Qed.

Lemma timeout_message_has_timeout namespace name timeout_seconds :
  contains (timeout_message namespace name timeout_seconds)
    (str_int timeout_seconds) = true.
Proof.
  unfold timeout_message.
  rewrite <- (append_assoc name), <- (append_assoc "/"),
    <- (append_assoc namespace), <- (append_assoc "Workflow ").
  apply contains_app_r.
Qed.

End WatcherFacts.

Module WatcherClaims.

Import StringFacts WatcherFacts.

(** C3, counterexample: the workflow was last seen Running when the
    deadline passed, and the message of the TimeoutError raised does not
    mention that phase. *)
Lemma timeout_message_omits_last_phase :
  snd (wait_workflow running_env 5 "argo" "hello-abc" 3 start)
  = Throw (TimeoutError "Workflow argo/hello-abc did not finish within 3s")
  /\ stdout (fst (wait_workflow running_env 5 "argo" "hello-abc" 3 start))
     = [Line "    phase=Running"]
  /\ contains "Workflow argo/hello-abc did not finish within 3s" "Running"
     = false.
Proof. repeat split; reflexivity. Qed.

(** C3, as amended: when the [k] first polls come before the deadline and
    see no terminal phase, and the clock read for the next test has
    reached the deadline (the first reading plus the timeout),
    [wait_workflow] raises a TimeoutError whose message names the
    namespace and the name of the workflow and the timeout in seconds; the
    last phase seen has no part in it. *)
Theorem wait_workflow_times_out
  (env : Env) (namespace name : string) (timeout_seconds : Z) (st : State)
  (k fuel : nat)
  (polls : polls_go_on env namespace name
             (time_time env (tick st) + 1000000 * timeout_seconds)
             (tick st + 1) k)
  (expired : time_time env (tick st) + 1000000 * timeout_seconds
             <= time_time env (tick st + 1 + 3 * k))
  (enough : (k < fuel)%nat) :
  (exists st',
      wait_workflow env fuel namespace name timeout_seconds st
      = (st', Throw (TimeoutError
                       (timeout_message namespace name timeout_seconds))))
  /\ timeout_message namespace name timeout_seconds
     = "Workflow " ++ namespace ++ "/" ++ name ++ " did not finish within "
       ++ str_int timeout_seconds ++ "s"
  /\ contains (timeout_message namespace name timeout_seconds) namespace = true
  /\ contains (timeout_message namespace name timeout_seconds) name = true
  /\ contains (timeout_message namespace name timeout_seconds)
       (str_int timeout_seconds) = true.
Proof.
  split; [|split; [reflexivity|split; [|split]]].
  - unfold wait_workflow, mbind at 1, call_total, call.
    replace (S (tick st)) with (tick st + 1)%nat by lia.
    now apply wait_loop_expires with (k := k).
  - apply timeout_message_has_namespace.
  - apply timeout_message_has_name.
  - apply timeout_message_has_timeout.
Qed.

Lemma running_env_polls :
  polls_go_on running_env "argo" "hello-abc"
    (time_time running_env (tick start) + 1000000 * 3) (tick start + 1) 1.
Proof.
  intros i Hi. assert (i = 0)%nat as -> by lia.
  split; [reflexivity|]. exists running_workflow. split; reflexivity.
Defined.

Lemma wait_workflow_times_out_witness :
  exists st',
    wait_workflow running_env 5 "argo" "hello-abc" 3 start
    = (st', Throw (TimeoutError (timeout_message "argo" "hello-abc" 3))).
Proof.
  refine (proj1 (wait_workflow_times_out running_env "argo" "hello-abc" 3 start
                   1 5 running_env_polls _ _)).
  - cbv. discriminate.
  - lia.
Defined.

End WatcherClaims.

(* --------------------------------------------------------------------- *)
(** ** Expectations *)

Module ExpectFacts.

Import ResolverFacts.

Lemma dict_get_setdefault_append {V : Type} (d : dict (list V)) k v k' :
  dict_get (dict_setdefault_append d k v) k'
  = if (k =? k')%string
    then Some (match dict_get d k with
               | Some vs => (vs ++ [v])%list
               | None => [v]
               end)
    else dict_get d k'.
Proof.
  induction d as [|[k0 vs] d IH]; cbn [dict_setdefault_append dict_get].
  - reflexivity.
  - destruct (String.eqb_spec k0 k) as [->|Hk0]; cbn [dict_get].
    + destruct (String.eqb_spec k k'); reflexivity.
    + destruct (String.eqb_spec k0 k') as [->|Hk0'].
      * destruct (String.eqb_spec k k') as [->|_]; [now elim Hk0 | reflexivity].
      * exact IH.
Qed.

Lemma index_fold nodes : forall acc dn,
  dn <> "" ->
  dict_get (fold_left index_step nodes acc) dn
  = match dict_get acc dn, group_of nodes dn with
    | None, [] => None
    | None, g => Some g
    | Some g0, g => Some (g0 ++ g)%list
    end.
Proof.
  induction nodes as [|[id n] nodes IH]; intros acc dn Hdn.
  - cbn. destruct (dict_get acc dn); [now rewrite app_nil_r | reflexivity].
  - cbn [fold_left]. rewrite (IH _ dn Hdn). unfold index_step, group_of.
    cbn [snd map filter].
    destruct (displayName n) as [[|c r]|] eqn:E; cbn [truthy str_opt opt_eqb].
    + destruct dn; [now elim Hdn | reflexivity].
    + rewrite dict_get_setdefault_append.
      destruct (String.eqb_spec (String c r) dn) as [<-|_].
      * destruct (dict_get acc (String c r)) as [g0|].
        -- now rewrite <- app_assoc.
        -- reflexivity.
      * reflexivity.
    + reflexivity.
Qed.

(** The index holds, under each non-empty display name, the nodes that
    carry it. *)
Lemma index_by_display_get nodes dn :
  dn <> "" ->
  dict_get (index_by_display nodes) dn
  = match group_of nodes dn with
    | [] => None
    | g => Some g
    end.
Proof.
  intros Hdn. unfold index_by_display.
  change (fun (by_display : dict (list Node)) (kv : string * Node) => _)
    with index_step.
  now rewrite (index_fold nodes [] dn Hdn).
Qed.

Lemma in_group_of nodes dn n :
  In n (group_of nodes dn) <->
  exists id, In (id, n) nodes /\ displayName n = Some dn.
Proof.
  unfold group_of. rewrite filter_In, in_map_iff, opt_eqb_eq. split.
  - intros [[[id n'] [E Hin]] Hd]. cbn in E. subst n'. eauto.
  - intros [id [Hin Hd]]. split; [|exact Hd]. now exists (id, n).
Qed.



End ExpectFacts.

Module ExpectClaims.

Import ResolverFacts ExpectFacts.





End ExpectClaims.

(* --------------------------------------------------------------------- *)
(** ** Scenario loading *)

Module LoaderClaims.

Import StringFacts.

Lemma source_check env path data :
  scenario_of_doc env path data
  = if exactly_one_source data
    then match doc_name data with
         | None => Raise (KeyError "name")
         | Some name =>
             bind (parse_duration_to_seconds (timeout_of data))
               (fun timeout =>
                  Ok {| path := path; name := name;
                        description :=
                          match doc_description data with Some d => d | None => "" end;
                        tags := match doc_tags data with Some t => t | None => [] end;
                        timeout_seconds := timeout;
                        namespace :=
                          match doc_namespace data with Some n => n | None => "argo" end;
                        expect :=
                          match doc_expect data with
                          | Some e => e
                          | None => empty_expect
                          end;
                        workflow_inline := doc_workflow data;
                        workflow_file :=
                          if truthy (doc_workflowFile data)
                          then Some (path_resolve env
                                       (path_join (path_parent path)
                                          (str_opt (doc_workflowFile data))))
                          else None |})
         end
    else Raise (source_error path).
Proof.
  unfold scenario_of_doc, exactly_one_source, inline_set, file_set, timeout_of.
  destruct (doc_workflow data), (truthy (doc_workflowFile data)); reflexivity.
Qed.

(** C7: the loader accepts no scenario document unless exactly one of its
    two workflow sources is set, [workflow] by a value other than null and
    [workflowFile] by a non-empty string; with both or neither it raises,
    before it looks at anything else, the ValueError that names the path of
    the document, and the load of the directory ends with that error when
    it comes to that document; a document with exactly one source, a name
    and a timeout that parses (its own or the default) is accepted, with
    the source it gives. *)
Theorem loader_accepts_exactly_one_source
  (env : Env) (path : string) (data : ScenarioDoc) :
  (forall s, scenario_of_doc env path data = Ok s ->
             exactly_one_source data = true)
  /\ (exactly_one_source data = false ->
      scenario_of_doc env path data = Raise (source_error path)
      /\ contains (str_exn (source_error path)) path = true
      /\ forall tests_dir st rest,
           sorted_paths
             (map (path_resolve env)
                (glob_yaml env (tick st) (path_resolve env tests_dir)))
           = path :: rest ->
           load_scenario_yaml env (S (tick st)) path = Ok data ->
           snd (load_scenarios_from_dir env tests_dir st)
           = Throw (source_error path))
  /\ (exactly_one_source data = true ->
      forall name timeout,
        doc_name data = Some name ->
        parse_duration_to_seconds (timeout_of data) = Ok timeout ->
        (exists s,
            scenario_of_doc env path data = Ok s
            /\ workflow_inline s = doc_workflow data
            /\ (workflow_inline s = None <-> workflow_file s <> None))
        /\ forall tests_dir st,
             sorted_paths
               (map (path_resolve env)
                  (glob_yaml env (tick st) (path_resolve env tests_dir)))
             = [path] ->
             load_scenario_yaml env (S (tick st)) path = Ok data ->
             exists s, snd (load_scenarios_from_dir env tests_dir st) = Return [s]).
Proof.
  pose proof (source_check env path data) as C.
  split; [|split].
  - intros s Hs. rewrite Hs in C.
    destruct (exactly_one_source data); [reflexivity | discriminate C].
  - intros E. rewrite E in C. split; [exact C|]. split.
    + unfold source_error, str_exn.
      rewrite <- (append_nil_r (path ++ _)), append_assoc.
      apply (contains_app_r "" path).
    + intros tests_dir st rest Hglob Hload.
      unfold load_scenarios_from_dir, mbind, call_total, call. cbn [tick stdout].
      rewrite Hglob. cbn [load_each]. unfold mbind, call. cbn [tick stdout].
      rewrite Hload, C. reflexivity.
  - intros E name timeout named timed.
    rewrite E, named, timed in C. cbn [bind] in C. split.
    + eexists. split; [exact C|]. split; [reflexivity|].
      cbn [workflow_inline workflow_file].
      unfold exactly_one_source, inline_set, file_set in E.
      destruct (doc_workflow data), (truthy (doc_workflowFile data));
        try discriminate E; split; intros H; try discriminate; try reflexivity.
      now elim H.
    + intros tests_dir st Hglob Hload. eexists.
      unfold load_scenarios_from_dir, mbind, call_total, call. cbn [tick stdout].
      rewrite Hglob. cbn [load_each]. unfold mbind, call. cbn [tick stdout].
      rewrite Hload, C. reflexivity.
Qed.

Lemma loader_accepts_exactly_one_source_witness :
  (exists s, scenario_of_doc (directory_env []) "/tests/a.yaml" inline_only = Ok s)
  /\ scenario_of_doc (directory_env []) "/tests/b.yaml" both_sources
     = Raise (ValueError
                "/tests/b.yaml: define exactly one of workflow OR workflowFile")
  /\ snd (load_scenarios_from_dir
            (directory_env [("/tests/c.yaml", no_source)]) "/tests" start)
     = Throw (ValueError
                "/tests/c.yaml: define exactly one of workflow OR workflowFile").
Proof.
  split; [|split].
  - destruct (proj2 (proj2 (loader_accepts_exactly_one_source (directory_env [])
                              "/tests/a.yaml" inline_only))
                eq_refl "hello" 90 eq_refl eq_refl) as [[s [Hs _]] _].
    now exists s.
  - apply (proj1 (proj2 (loader_accepts_exactly_one_source (directory_env [])
                           "/tests/b.yaml" both_sources))).
    reflexivity.
  - destruct (proj1 (proj2 (loader_accepts_exactly_one_source
                              (directory_env [("/tests/c.yaml", no_source)])
                              "/tests/c.yaml" no_source)) eq_refl)
      as (_ & _ & D).
    apply (D "/tests" start []); reflexivity.
Defined.

End LoaderClaims.

(* --------------------------------------------------------------------- *)
(** ** Runner *)

Module RunnerFacts.

(** One turn of the loop of [main]. *)
Lemma run_all_step env fuel s rest passed failed st :
  run_all env fuel (s :: rest) passed failed st
  = match run_one_scenario env fuel s st with
    | (st1, Return r) =>
        run_all env fuel rest (passed + 1) failed
          (after_line st1 (PassedLine (path_name (path s)) (snd r)))
    | (st1, Throw e) =>
        run_all env fuel rest passed (failed + 1)
          (after_line st1 (FailedLine (path_name (path s)) (str_exn e)))
    | (st1, Unfinished) => (st1, Unfinished)
    end.
Proof.
  cbn [run_all]. unfold mbind at 1. unfold try_except. unfold mbind at 1.
  destruct (run_one_scenario env fuel s st) as [st1 [r|e|]]; reflexivity.
Qed.

Lemma count_cons {A : Type} (p : A -> bool) x l :
  count p (x :: l) = (if p x then 1 else 0) + count p l.
Proof.
  unfold count. cbn [filter]. destruct (p x); cbn [List.length]; lia.
Qed.

(** No exception leaves the loop. *)
Lemma run_all_no_throw env fuel scenarios : forall passed failed st e,
  snd (run_all env fuel scenarios passed failed st) <> Throw e.
Proof.
  induction scenarios as [|s rest IH]; intros passed failed st e.
  - discriminate.
  - rewrite run_all_step.
    destruct (run_one_scenario env fuel s st) as [st1 [r|e'|]];
      [apply IH | apply IH | discriminate].
Qed.

(** When every run finishes, every scenario is run and counted once. *)
Lemma run_all_counts env fuel scenarios : forall passed failed st,
  forallb finished (scenario_outcomes env fuel scenarios st) = true ->
  List.length (scenario_outcomes env fuel scenarios st) = List.length scenarios
  /\ exists st',
       run_all env fuel scenarios passed failed st
       = (st', Return
                 (passed + count has_passed (scenario_outcomes env fuel scenarios st),
                  failed + count has_failed (scenario_outcomes env fuel scenarios st))).
Proof.
  induction scenarios as [|s rest IH]; intros passed failed st.
  - intros _. split; [reflexivity|]. exists st. cbn.
    unfold ret, count. cbn. now rewrite !Z.add_0_r.
  - rewrite run_all_step. cbn [scenario_outcomes].
    destruct (run_one_scenario env fuel s st) as [st1 [r|e|]];
      cbn [forallb finished andb]; [| |discriminate]; intros F;
      (match goal with
       | |- context [scenario_outcomes env fuel rest ?st2] =>
           destruct (IH (passed + 1) failed st2 F) as [L _];
           split; [cbn [List.length]; now rewrite L|]
       end).
    + destruct (IH (passed + 1) failed _ F) as [_ [st' ->]].
      exists st'. rewrite !count_cons. cbn [has_passed has_failed].
      do 2 f_equal. f_equal; lia.
    + destruct (IH passed (failed + 1) _ F) as [_ [st' ->]].
      exists st'. rewrite !count_cons. cbn [has_passed has_failed].
      do 2 f_equal. f_equal; lia.
Qed.

Lemma count_zero_iff {A : Type} (p : A -> bool) l :
  count p l = 0 <-> existsb p l = false.
Proof.
  unfold count. induction l as [|x l IH]; cbn [filter existsb].
  - split; reflexivity.
  - destruct (p x); cbn [List.length orb].
    + split; [lia | discriminate].
    + exact IH.
Qed.

End RunnerFacts.

Module RunnerClaims.

Import RunnerFacts.

(** C8: when the run of every scenario finishes, each scenario of the list
    is run, in order, whatever became of those before it; an exception
    raised by a run is caught by the loop, which prints the failed line
    with the exception's message, counts one failure and goes on with the
    rest of the list; no exception leaves the loop; the loop returns the
    number of runs that returned and the number that raised; and [main],
    once the scenarios are loaded and selected and the cluster
    configuration is read, exits with status 0 when no run raised and with
    status 1 when one did. *)
Theorem scenario_errors_stop_at_runner
  (env : Env) (fuel : nat) (scenarios : list TestScenario) (st : State)
  (all_finish : forallb finished (scenario_outcomes env fuel scenarios st) = true) :
  let outcomes := scenario_outcomes env fuel scenarios st in
  List.length outcomes = List.length scenarios
  /\ (exists st',
         run_all env fuel scenarios 0 0 st
         = (st', Return (count has_passed outcomes, count has_failed outcomes)))
  /\ (forall s rest passed failed st0 st1 e,
         run_one_scenario env fuel s st0 = (st1, Throw e) ->
         run_all env fuel (s :: rest) passed failed st0
         = run_all env fuel rest passed (failed + 1)
             (after_line st1 (FailedLine (path_name (path s)) (str_exn e))))
  /\ (forall passed failed e,
         snd (run_all env fuel scenarios passed failed st) <> Throw e)
  /\ (forall args st0 st1 loaded,
         load_scenarios_from_dir env (args_dir args) st0 = (st1, Return loaded) ->
         select_scenarios args loaded = scenarios ->
         scenarios <> [] ->
         kube_auth env st1 = (st, Return tt) ->
         exit_status (snd (main env fuel args st0))
         = Some (if existsb has_failed outcomes then 1 else 0)).
Proof.
  intros outcomes.
  destruct (run_all_counts env fuel scenarios 0 0 st all_finish) as [L [st' R]].
  fold outcomes in L, R. rewrite !Z.add_0_l in R.
  split; [exact L|]. split; [now exists st'|]. split.
  { intros s rest passed failed st0 st1 e H. now rewrite run_all_step, H. }
  split; [intros passed failed e; apply run_all_no_throw|].
  intros args st0 st1 loaded Hload Hsel Hne Hauth.
  unfold main. unfold mbind at 1. rewrite Hload, Hsel.
  destruct scenarios as [|s rest] eqn:E; [now elim Hne|]. rewrite <- E in *.
  unfold mbind at 1. rewrite Hauth. unfold mbind at 1. rewrite R.
  unfold mbind, print, print_line, ret. cbn [snd].
  destruct (Z.eqb_spec (count has_failed outcomes) 0) as [Z0|NZ].
  - apply count_zero_iff in Z0. now rewrite Z0.
  - destruct (existsb has_failed outcomes) eqn:X; [reflexivity|].
    apply count_zero_iff in X. contradiction.
Qed.

Lemma scenario_errors_stop_at_runner_witness :
  exists st', run_all succeeding_env 3 three_scenarios 0 0 start
              = (st', Return (1, 2)).
Proof.
  exact (proj1 (proj2 (scenario_errors_stop_at_runner succeeding_env 3
                         three_scenarios start eq_refl))).
Defined.

End RunnerClaims.

(* ===================================================================== *)
(** * Further properties of the code *)
(* ===================================================================== *)

(* --------------------------------------------------------------------- *)
(** ** Durations *)

Module DurationExtras.

Import StringFacts IntFacts DurationFacts.

Lemma isspace_lower_char_eq c : isspace (lower_char c) = isspace c.
Proof. destruct c as [[|] [|] [|] [|] [|] [|] [|] [|]]; reflexivity. Qed.

Lemma lower_char_idem c : lower_char (lower_char c) = lower_char c.
Proof. destruct c as [[|] [|] [|] [|] [|] [|] [|] [|]]; reflexivity. Qed.

Lemma lower_idem s : lower (lower s) = lower s.
Proof.
  induction s as [|c s IH]; [reflexivity|].
  cbn [lower]. now rewrite lower_char_idem, IH.
Qed.

Lemma lstrip_lower s : lstrip (lower s) = lower (lstrip s).
Proof.
  induction s as [|c s IH]; [reflexivity|].
  cbn [lower lstrip]. rewrite isspace_lower_char_eq.
  destruct (isspace c); [exact IH | reflexivity].
Qed.

Lemma rstrip_lower s : rstrip (lower s) = lower (rstrip s).
Proof.
  induction s as [|c s IH]; [reflexivity|].
  cbn [lower rstrip]. rewrite IH, isspace_lower_char_eq.
  destruct (rstrip s); cbn [lower]; [|reflexivity].
  now destruct (isspace c).
Qed.

Lemma strip_lower s : strip (lower s) = lower (strip s).
Proof. unfold strip. now rewrite lstrip_lower, rstrip_lower. Qed.

Lemma rstrip_idem s : rstrip (rstrip s) = rstrip s.
Proof.
  induction s as [|c s IH]; [reflexivity|].
  cbn [rstrip]. destruct (rstrip s) as [|b r] eqn:E.
  - destruct (isspace c) eqn:Hc; [reflexivity|].
    cbn [rstrip]. now rewrite Hc.
  - cbn [rstrip]. cbn [rstrip] in IH. now rewrite IH.
Qed.

Lemma lstrip_head s :
  match lstrip s with
  | EmptyString => True
  | String c _ => isspace c = false
  end.
Proof.
  induction s as [|c s IH]; [exact I|].
  cbn [lstrip]. destruct (isspace c) eqn:Hc; [exact IH | exact Hc].
Qed.

Lemma rstrip_head c r :
  isspace c = false -> exists r', rstrip (String c r) = String c r'.
Proof.
  intros Hc. cbn [rstrip]. rewrite Hc. destruct (rstrip r); eauto.
Qed.

Lemma strip_idem s : strip (strip s) = strip s.
Proof.
  unfold strip. pose proof (lstrip_head s) as H.
  destruct (lstrip s) as [|c r]; [reflexivity|].
  destruct (rstrip_head c r H) as [r' E]. rewrite E.
  cbn [lstrip]. rewrite H, <- E. apply rstrip_idem.
Qed.

(** X1: surrounding whitespace and letter case do not matter to
    [parse_duration_to_seconds]: the result for a string, for the string
    stripped and for the string lowered is the same, value or error. *)
Theorem parse_duration_ignores_case_and_blanks (s : string) :
  parse_duration_to_seconds (strip s) = parse_duration_to_seconds s
  /\ parse_duration_to_seconds (lower s) = parse_duration_to_seconds s
  /\ parse_duration_to_seconds (lower (strip s)) = parse_duration_to_seconds s.
Proof.
  unfold parse_duration_to_seconds.
  repeat (rewrite strip_idem || rewrite strip_lower || rewrite lower_idem).
  repeat split; reflexivity.
Qed.

(** X2: a duration in milliseconds is never read as less than one second:
    whenever the string, stripped and lowered, ends with [ms] and is
    accepted, the result is at least 1; and it is exactly 1 for every
    integer between -2^53 and 2000, both excluded, zero and the negative
    ones included. *)
Theorem parse_duration_ms_at_least_one :
  (forall s v,
      endswith (lower (strip s)) "ms" = true ->
      parse_duration_to_seconds s = Ok v -> 1 <= v)
  /\ (forall n,
         - 2 ^ 53 < n < 2000 ->
         parse_duration_to_seconds (str_int n ++ "ms") = Ok 1).
Proof.
  split.
  - intros s v E. unfold parse_duration_to_seconds. rewrite E.
    destruct (int _) as [n|]; cbn [bind]; [|discriminate].
    destruct (int_truediv n 1000) as [q|]; cbn [bind]; [|discriminate].
    intros [= <-]. lia.
  - intros n Hn.
    assert (B : Z.abs n < 2 ^ 53)
      by (change (2 ^ 53) with 9007199254740992 in *; lia).
    rewrite (parse_numeral_ms n B). f_equal.
    assert (Z.quot n 1000 <= 1); [|lia].
    destruct (Z_le_gt_dec 0 n).
    + pose proof (Z.quot_lt_upper_bound n 1000 2 ltac:(lia) ltac:(lia)
                    ltac:(lia)). lia.
    + pose proof (Z.quot_opp_l (- n) 1000 ltac:(lia)) as Q.
      rewrite Z.opp_involutive in Q.
      pose proof (Z.quot_pos (- n) 1000 ltac:(lia) ltac:(lia)). lia.
Qed.

Lemma parse_duration_ms_at_least_one_witness :
  1 <= 1 /\ parse_duration_to_seconds (str_int (-7) ++ "ms") = Ok 1.
Proof.
  destruct parse_duration_ms_at_least_one as [A B]. split.
  - apply (A " 0MS " 1); reflexivity.
  - apply B. split; reflexivity.
Defined.

End DurationExtras.

(* --------------------------------------------------------------------- *)
(** ** Pod-name resolution *)

Module ResolverExtras.

Import StringFacts ResolverFacts.

Lemma for_children_mono (search1 search2 : string -> result (option string)) cs r :
  (forall c r', In c cs -> search1 c = Ok r' -> search2 c = Ok r') ->
  for_children search1 cs = Ok r -> for_children search2 cs = Ok r.
Proof.
  induction cs as [|c cs IH]; intros H; cbn [for_children]; [auto|].
  destruct (search1 c) as [r'|e] eqn:E; [|discriminate].
  rewrite (H c r' (or_introl eq_refl) E).
  destruct (truthy r'); [auto|]. apply IH.
  intros c' r'' Hin. apply H. now right.
Qed.

Lemma find_depth_step depth : forall nodes node_id wf_name r,
  _find_podname_in_subtree depth nodes node_id wf_name = Ok r ->
  _find_podname_in_subtree (S depth) nodes node_id wf_name = Ok r.
Proof.
  induction depth as [|d IH]; intros nodes node_id wf_name r; [discriminate|].
  intros H. cbn [_find_podname_in_subtree] in H.
  change (_find_podname_in_subtree (S (S d)) nodes node_id wf_name)
    with (let direct := _pod_name_from_node nodes node_id wf_name in
          if truthy direct then Ok direct
          else for_children
                 (fun c => _find_podname_in_subtree (S d) nodes c wf_name)
                 (children (nodes_get nodes node_id))).
  cbv zeta. destruct (truthy _); [exact H|].
  revert H. apply for_children_mono. intros c r' _. apply IH.
Qed.

Lemma find_depth_le d d' nodes node_id wf_name r :
  (d <= d')%nat ->
  _find_podname_in_subtree d nodes node_id wf_name = Ok r ->
  _find_podname_in_subtree d' nodes node_id wf_name = Ok r.
Proof.
  induction 1 as [|d' _ IH]; [auto|].
  intros H. apply find_depth_step. now apply IH.
Qed.

(** X3: recursion depth only decides whether the search can finish: what
    [resolve_pod_name] returns or raises at some depth, the interpreter's
    RecursionError apart, it returns or raises at every greater depth. *)
Theorem resolve_pod_name_stable_in_depth
  (d d' : nat) (nodes : dict Node) (wf_name display_name : string)
  (r : result string)
  (more : (d <= d')%nat)
  (at_d : resolve_pod_name d nodes wf_name display_name = r)
  (finished : forall msg, r <> Raise (RecursionError msg)) :
  resolve_pod_name d' nodes wf_name display_name = r.
Proof.
  subst r. revert finished. unfold resolve_pod_name.
  destruct (_nodes_with_display_name nodes display_name) as [|i ids] eqn:E;
    [reflexivity|].
  rewrite !for_roots_is_for_children.
  destruct (for_children
              (fun node_id => _find_podname_in_subtree d nodes node_id wf_name)
              (i :: ids)) as [x|e] eqn:F; intros finished.
  - erewrite for_children_mono; [reflexivity| |exact F].
    intros c r' _. now apply find_depth_le.
  - apply for_children_raise in F. destruct F as [c [_ Hc]].
    apply find_raise in Hc. subst e. now elim (finished _ eq_refl).
Qed.

Lemma resolve_pod_name_stable_in_depth_witness :
  resolve_pod_name 1000 steps_nodes "wf" "step1" = Ok "wf-run-abc".
Proof.
  apply (resolve_pod_name_stable_in_depth 2 1000 steps_nodes "wf" "step1"
           (Ok "wf-run-abc")).
  - repeat constructor.
  - reflexivity.
  - discriminate.
Defined.

Lemma for_children_from search cs p :
  for_children search cs = Ok (Some p) ->
  exists c, In c cs /\ search c = Ok (Some p).
Proof.
  induction cs as [|c cs IH]; cbn [for_children]; [discriminate|].
  destruct (search c) as [r|e] eqn:E; [|discriminate].
  destruct (truthy r).
  - intros [= ->]. exists c. split; [now left | exact E].
  - intros H. destruct (IH H) as [c' [Hin Hc']]. exists c'. split; [now right|auto].
Qed.

Lemma find_from_subtree depth : forall nodes node_id wf_name p,
  _find_podname_in_subtree depth nodes node_id wf_name = Ok (Some p) ->
  p <> ""
  /\ exists x, in_subtree nodes node_id x
               /\ _pod_name_from_node nodes x wf_name = Some p.
Proof.
  induction depth as [|d IH]; intros nodes node_id wf_name p; [discriminate|].
  intros H. split.
  { apply find_ok in H. destruct H as [H|H]; [discriminate|].
    intros ->. discriminate H. }
  cbn [_find_podname_in_subtree] in H.
  destruct (truthy (_pod_name_from_node nodes node_id wf_name)) eqn:T.
  - injection H as H. exists node_id. split; [constructor | exact H].
  - apply for_children_from in H. destruct H as [c [Hin Hc]].
    destruct (IH _ _ _ _ Hc) as [_ [x [Hx Hp]]].
    exists x. split; [|exact Hp]. econstructor; eassumption.
Qed.

Lemma nodes_with_display_name_in nodes display_name id :
  In id (_nodes_with_display_name nodes display_name)
  <-> exists n, In (id, n) nodes /\ displayName n = Some display_name.
Proof.
  unfold _nodes_with_display_name. rewrite in_map_iff. split.
  - intros [[id' n] [E H]]. cbn in E. subst id'.
    apply filter_In in H. destruct H as [Hin Hd]. cbn in Hd.
    apply opt_eqb_eq in Hd. eauto.
  - intros [n [Hin Hd]]. exists (id, n). split; [reflexivity|].
    apply filter_In. split; [exact Hin|]. cbn. now apply opt_eqb_eq.
Qed.

(** X4: the pod name that [resolve_pod_name] returns is never made up
    elsewhere: it is not empty, and it is the pod name (explicit or
    reconstructed) of a node in the subtree of a node that carries the
    display name asked for. *)
Theorem resolved_pod_name_comes_from_subtree
  (depth : nat) (nodes : dict Node) (wf_name display_name pod : string)
  (resolved : resolve_pod_name depth nodes wf_name display_name = Ok pod) :
  pod <> ""
  /\ exists root n x,
       In (root, n) nodes /\ displayName n = Some display_name
       /\ in_subtree nodes root x
       /\ _pod_name_from_node nodes x wf_name = Some pod.
Proof.
  unfold resolve_pod_name in resolved.
  destruct (_nodes_with_display_name nodes display_name) as [|i ids] eqn:E;
    [discriminate|].
  rewrite for_roots_is_for_children in resolved.
  destruct (for_children _ (i :: ids)) as [[p|]|e] eqn:F; try discriminate.
  injection resolved as ->.
  apply for_children_from in F. destruct F as [root [Hin Hroot]].
  apply find_from_subtree in Hroot. destruct Hroot as [Hne [x [Hx Hp]]].
  split; [exact Hne|].
  rewrite <- E in Hin. apply nodes_with_display_name_in in Hin.
  destruct Hin as [n [Hn Hd]]. exists root, n, x. auto.
Qed.

Lemma resolved_pod_name_comes_from_subtree_witness :
  exists root n x,
    In (root, n) steps_nodes /\ displayName n = Some "step1"
    /\ in_subtree steps_nodes root x
    /\ _pod_name_from_node steps_nodes x "wf" = Some "wf-run-abc".
Proof.
  exact (proj2 (resolved_pod_name_comes_from_subtree 2 steps_nodes "wf" "step1"
                  "wf-run-abc" eq_refl)).
Defined.

(** X5: [resolve_pod_name] raises its not-found error, the one that names
    the display name asked for and lists, as [repr] writes them, the first
    thirty of the display names available, sorted, exactly when no status
    node carries the display name asked for; the recursion depth has no
    part in it. *)
Theorem resolve_not_found_iff
  (depth : nat) (nodes : dict Node) (wf_name display_name : string) :
  resolve_pod_name depth nodes wf_name display_name
  = Raise (AssertionError
             ("Node '" ++ display_name ++ "' not found in status.nodes. "
              ++ "Available displayNames (sample): "
              ++ repr_list (firstn 30 (available_display_names nodes))))
  <-> ~ carried nodes display_name.
Proof.
  change ("Node '" ++ display_name ++ "' not found in status.nodes. "
          ++ "Available displayNames (sample): "
          ++ repr_list (firstn 30 (available_display_names nodes)))
    with (not_found_message "status.nodes" display_name
            (available_display_names nodes)).
  unfold resolve_pod_name.
  destruct (_nodes_with_display_name nodes display_name) as [|i ids] eqn:E.
  - split; [|reflexivity]. intros _ [id [n [Hin Hd]]].
    assert (I : In id (_nodes_with_display_name nodes display_name))
      by (apply nodes_with_display_name_in; eauto).
    rewrite E in I. exact I.
  - split.
    + intros H. exfalso.
      destruct (for_roots _ (i :: ids)) as [[p|]|e] eqn:F.
      * discriminate H.
      * injection H as H. unfold not_found_message, not_resolvable_message in H.
        apply append_inj_l in H. discriminate H.
      * injection H as ->. rewrite for_roots_is_for_children in F.
        apply for_children_raise in F. destruct F as [c [_ Hc]].
        apply find_raise in Hc. discriminate Hc.
    + intros H. exfalso. apply H.
      assert (I : In i (_nodes_with_display_name nodes display_name))
        by (rewrite E; now left).
      apply nodes_with_display_name_in in I. destruct I as [n [Hin Hd]].
      now exists i, n.
Qed.

(** X6: among the nodes that carry the display name, taken in the order of
    the node map, [resolve_pod_name] answers with the first whose subtree
    has a pod name: it returns [pod] exactly when the search returns [pod]
    from one candidate and nothing from every candidate before it. *)
Theorem resolve_returns_first_hit
  (depth : nat) (nodes : dict Node) (wf_name display_name pod : string)
  (named : pod <> "") :
  resolve_pod_name depth nodes wf_name display_name = Ok pod
  <-> exists before root after,
        _nodes_with_display_name nodes display_name
        = (before ++ root :: after)%list
        /\ (forall b, In b before ->
                      _find_podname_in_subtree depth nodes b wf_name = Ok None)
        /\ _find_podname_in_subtree depth nodes root wf_name = Ok (Some pod).
Proof.
  unfold resolve_pod_name.
  set (search := fun node_id => _find_podname_in_subtree depth nodes node_id wf_name).
  assert (N : forall b, search b = Ok None \/ search b = Ok (Some "")
                        <-> search b = Ok None).
  { intros b. split; [|auto]. intros [H|H]; [exact H|].
    apply find_ok in H. destruct H as [H|H]; discriminate H. }
  destruct (_nodes_with_display_name nodes display_name) as [|i ids] eqn:E.
  - split; [discriminate|]. intros [before [root [after [H _]]]].
    now destruct before.
  - rewrite for_roots_is_for_children.
    pose proof (for_children_first search (i :: ids) pod named) as F.
    split.
    + intros H.
      destruct (for_children search (i :: ids)) as [[p|]|e]; try discriminate H.
      injection H as ->.
      destruct (proj1 F eq_refl) as [before [root [after [Hs [Hb Hr]]]]].
      exists before, root, after. split; [exact Hs|]. split; [|exact Hr].
      intros b Hin. apply N. auto.
    + intros [before [root [after [Hs [Hb Hr]]]]].
      rewrite (proj2 F); [reflexivity|].
      exists before, root, after. split; [exact Hs|]. split; [|exact Hr].
      intros b Hin. left. now apply Hb.
Qed.

Lemma resolve_returns_first_hit_witness :
  resolve_pod_name 2 fallthrough_nodes "wf" "step1" = Ok "wf-run-2".
Proof.
  apply (resolve_returns_first_hit 2 fallthrough_nodes "wf" "step1" "wf-run-2").
  - discriminate.
  - exists [], "wf-1", []. repeat split. intros b [].
Defined.

End ResolverExtras.

(* --------------------------------------------------------------------- *)
(** ** Log aggregation *)

Module LogExtras.

Import LogFacts.

Lemma filter_not_main_idem names :
  filter not_main (filter not_main names) = filter not_main names.
Proof.
  induction names as [|n names IH]; [reflexivity|].
  cbn [filter]. destruct (not_main n) eqn:E; [|exact IH].
  cbn [filter]. now rewrite E, IH.
Qed.

Lemma main_in_dec names : {In "main" names} + {~ In "main" names}.
Proof. apply in_dec, string_dec. Qed.

Lemma in_filter_not_main x names :
  In x (filter not_main names) <-> In x names /\ x <> "main".
Proof.
  rewrite filter_In. unfold not_main. rewrite negb_true_iff, String.eqb_neq.
  reflexivity.
Qed.

Lemma main_first_permutation names :
  NoDup names -> In "main" names ->
  Permutation ("main" :: filter not_main names) names.
Proof.
  induction names as [|n names IH]; intros ND Hin; [destruct Hin|].
  inversion ND as [|? ? Hn ND']; subst. cbn [filter]. unfold not_main at 1.
  destruct (String.eqb_spec n "main") as [->|Hne]; cbn [negb].
  - now rewrite filter_not_main_id.
  - destruct Hin as [E|Hin]; [now elim Hne|].
    eapply perm_trans; [apply perm_swap|]. apply perm_skip. now apply IH.
Qed.

(** X7: [_order] only rearranges: the names it returns are the names it is
    given; applied twice it changes nothing more; and on a list without
    repetition, as the container names of a pod are, it returns a
    permutation, so that no container is left out or read twice. *)
Theorem order_only_rearranges (names : list string) :
  (forall x, In x (_order names) <-> In x names)
  /\ _order (_order names) = _order names
  /\ (NoDup names -> Permutation (_order names) names /\ NoDup (_order names)).
Proof.
  destruct (main_in_dec names) as [Hin|Hout].
  - rewrite (order_with_main _ Hin).
    assert (M : forall x, In x ("main" :: filter not_main names) <-> In x names).
    { intros x. cbn [In]. rewrite in_filter_not_main. split.
      - intros [<-|[H _]]; assumption.
      - intros H. destruct (string_dec "main" x) as [E|NE]; [now left|].
        right. split; [exact H | congruence]. }
    split; [exact M|]. split.
    + rewrite order_with_main by now left.
      cbn [filter]. change (not_main "main") with false. cbv iota.
      now rewrite filter_not_main_idem.
    + intros ND. pose proof (main_first_permutation _ ND Hin) as P.
      split; [exact P|].
      apply (Permutation_NoDup (Permutation_sym P) ND).
  - rewrite (order_without_main _ Hout).
    split; [reflexivity|]. split; [now apply order_without_main|].
    intros ND. split; [apply Permutation_refl | exact ND].
Qed.

Lemma order_only_rearranges_witness :
  Permutation (_order ["wait"; "main"; "sidecar"]) ["wait"; "main"; "sidecar"].
Proof.
  apply (proj2 (proj2 (order_only_rearranges ["wait"; "main"; "sidecar"]))).
  repeat constructor; cbn; intuition discriminate.
Defined.

Lemma read_sections_exact env kind namespace pod_name names : forall st,
  read_sections env kind namespace pod_name names st
  = ({| tick := tick st + List.length names; stdout := stdout st |},
     Return (sections_from env kind namespace pod_name (tick st) names)).
Proof.
  induction names as [|cname rest IH]; intros st.
  - cbn. unfold ret. destruct st. cbn. now rewrite Nat.add_0_r.
  - cbn [read_sections sections_from List.length].
    unfold mbind at 1. unfold try_except, call, log_or_placeholder.
    destruct (read_namespaced_pod_log env (tick st) pod_name namespace cname);
      unfold ret; unfold mbind; rewrite IH; cbn [tick stdout];
      now rewrite Nat.add_succ_r.
Qed.

(** X8: [read_pod_logs] fails only when the pod itself cannot be read, and
    then with the error of that read; for a pod that is read it returns
    the text of the sections, whatever the reads of the container logs
    answer: it asks for each container of the two ordered lists once, in
    order, the log or the placeholder of each read going to its own
    section, and it prints nothing. *)
Theorem read_pod_logs_fails_only_with_pod
  (env : Env) (namespace pod_name : string) (st : State) :
  (forall e,
      read_namespaced_pod env (tick st) pod_name namespace = Raise e ->
      read_pod_logs env namespace pod_name st
      = ({| tick := S (tick st); stdout := stdout st |}, Throw e))
  /\ (forall pod,
         read_namespaced_pod env (tick st) pod_name namespace = Ok pod ->
         let inits := _order (init_containers pod) in
         let regulars := _order (containers pod) in
         read_pod_logs env namespace pod_name st
         = ({| tick := S (tick st) + List.length inits + List.length regulars;
               stdout := stdout st |},
            Return
              (lstrip
                 (String.concat ""
                    (map render_section
                       (sections_from env InitContainer namespace pod_name
                          (S (tick st)) inits
                        ++ sections_from env Container namespace pod_name
                             (S (tick st) + List.length inits) regulars)%list))))).
Proof.
  split.
  - intros e H. unfold read_pod_logs, read_pod_log_sections, mbind, call.
    now rewrite H.
  - intros pod H inits regulars.
    unfold read_pod_logs, read_pod_log_sections.
    unfold mbind at 1. unfold mbind at 1. unfold call at 1. rewrite H.
    unfold mbind at 1. rewrite read_sections_exact.
    unfold mbind at 1. rewrite read_sections_exact.
    unfold ret. cbn [tick stdout]. reflexivity.
Qed.

Lemma read_pod_logs_fails_only_with_pod_witness :
  read_pod_logs example_env "argo" "pod-1" start
  = ({| tick := 4; stdout := [] |},
     Return ("--- container: main --- log of main;"
             ++ " --- container: wait --- log of wait;"
             ++ " --- container: sidecar --- "
             ++ "<failed to read container logs: container not ready>")).
Proof.
  exact (proj2 (read_pod_logs_fails_only_with_pod example_env "argo" "pod-1" start)
           {| containers := ["wait"; "main"; "sidecar"]; init_containers := [] |}
           eq_refl).
Defined.

Lemma lstrip_render_concat s rest :
  exists tail,
    lstrip (String.concat "" (map render_section (s :: rest)))
    = "--- " ++ tail.
Proof.
  assert (H : exists tail,
             String.concat "" (map render_section (s :: rest)) = " --- " ++ tail).
  { cbn [map String.concat].
    destruct (map render_section rest) as [|x xs].
    - unfold render_section. destruct (section_kind_of s); eexists; reflexivity.
    - unfold render_section. destruct (section_kind_of s);
        cbn [append]; eexists; reflexivity. }
  destruct H as [tail ->]. exists tail. reflexivity.
Qed.

(** X9: the text that [read_pod_logs] returns for a pod with some
    container starts with the header mark of its first section, the blank
    before it stripped; for a pod without containers it is empty. *)
Theorem read_pod_logs_text_starts_with_header
  (env : Env) (namespace pod_name : string) (st : State) (pod : Pod) (text : string)
  (readable : read_namespaced_pod env (tick st) pod_name namespace = Ok pod)
  (returned : snd (read_pod_logs env namespace pod_name st) = Return text) :
  (init_containers pod = [] /\ containers pod = [] -> text = "")
  /\ (init_containers pod <> [] \/ containers pod <> [] ->
      exists tail, text = "--- " ++ tail).
Proof.
  pose proof (proj2 (read_pod_logs_fails_only_with_pod env namespace pod_name st)
                pod readable) as E.
  cbv zeta in E. rewrite E in returned. cbn [snd] in returned.
  injection returned as <-. split.
  - intros [-> ->]. reflexivity.
  - intros H.
    assert (N : forall names, names <> [] -> _order names <> []).
    { intros names Hn. unfold _order.
      destruct (existsb _ names); [discriminate | exact Hn]. }
    destruct (_order (init_containers pod)) as [|i inits] eqn:Ei.
    + destruct (_order (containers pod)) as [|c regs] eqn:Ec.
      * exfalso. destruct H as [H|H]; apply N in H; congruence.
      * cbn [sections_from app]. apply lstrip_render_concat.
    + cbn [sections_from app]. apply lstrip_render_concat.
Qed.

Lemma read_pod_logs_text_starts_with_header_witness :
  exists tail,
    "--- container: main --- log of main;"
    ++ " --- container: wait --- log of wait;"
    ++ " --- container: sidecar --- "
    ++ "<failed to read container logs: container not ready>"
    = "--- " ++ tail.
Proof.
  apply (proj2 (read_pod_logs_text_starts_with_header example_env "argo" "pod-1"
                  start
                  {| containers := ["wait"; "main"; "sidecar"];
                     init_containers := [] |} _ eq_refl eq_refl)).
  right. discriminate.
Defined.

End LogExtras.

(* --------------------------------------------------------------------- *)
(** ** Polling *)

Module WatcherExtras.

Import StringFacts ResolverFacts WatcherFacts.

Section Polls.

Variable env : Env.
Variables namespace name : string.
Variable timeout_seconds : Z.
Variable deadline : Z.

Lemma changes_app last l p :
  changes last (l ++ [p])
  = (changes last l
     ++ (if opt_eqb (Some p) (last_seen last l) then [] else [p]))%list.
Proof.
  revert last. induction l as [|q l IH]; intros last; cbn [app changes].
  - cbn. now destruct (opt_eqb (Some p) last).
  - unfold last_seen in *. cbn [fold_left].
    destruct (opt_eqb (Some q) last); rewrite IH; reflexivity.
Qed.

Lemma observed_snoc k : forall u,
  observed env namespace name u (S k)
  = (observed env namespace name u k
     ++ [phase_seen env namespace name (u + 3 * k + 1)])%list.
Proof.
  induction k as [|k IH]; intros u.
  - cbn. now replace (u + 0 + 1)%nat with (u + 1)%nat by lia.
  - change (observed env namespace name u (S (S k)))
      with (phase_seen env namespace name (u + 1)
            :: observed env namespace name (u + 3) (S k)).
    rewrite IH. cbn [observed app].
    now replace (u + 3 + 3 * k + 1)%nat with (u + 3 * S k + 1)%nat by lia.
Qed.

(** [k] polls that go on leave the loop where it was, [3 k] calls later,
    the changes of phase printed. *)
Lemma wait_loop_unroll k : forall fuel u out last_phase,
  polls_go_on env namespace name deadline u k ->
  wait_loop env (k + fuel) namespace name timeout_seconds deadline last_phase
    {| tick := u; stdout := out |}
  = wait_loop env fuel namespace name timeout_seconds deadline
      (last_seen last_phase (observed env namespace name u k))
      {| tick := u + 3 * k;
         stdout := (out ++ map phase_line
                             (changes last_phase
                                (observed env namespace name u k)))%list |}.
Proof.
  induction k as [|k IH]; intros fuel u out last_phase Hpolls.
  - cbn. now rewrite Nat.add_0_r, app_nil_r.
  - destruct (Hpolls 0%nat ltac:(lia)) as [Hlt [wf [Hget Hphase]]].
    replace (u + 3 * 0)%nat with u in Hlt, Hget by lia.
    assert (Hrest : polls_go_on env namespace name deadline (u + 3) k).
    { intros i Hi. destruct (Hpolls (S i) ltac:(lia)) as [A [wf' [B C]]].
      replace (u + 3 + 3 * i)%nat with (u + 3 * S i)%nat by lia.
      split; [exact A|]. exists wf'. split; [exact B | exact C]. }
    change (S k + fuel)%nat with (S (k + fuel)). cbn [wait_loop observed].
    unfold mbind at 1. unfold call_total at 1, call at 1. cbn [tick stdout].
    destruct (Z.ltb_spec (time_time env u) deadline); [|lia].
    unfold mbind at 1. unfold get_workflow, call at 1. cbn [tick stdout].
    replace (S u) with (u + 1)%nat by lia. rewrite Hget, Hphase.
    unfold phase_seen. rewrite Hget. cbn [changes]. unfold last_seen.
    cbn [fold_left]. fold (last_seen (Some (phase_or_unknown wf))
                             (observed env namespace name (u + 3) k)).
    destruct (opt_eqb (Some (phase_or_unknown wf)) last_phase) eqn:E;
      cbn [negb]; unfold mbind, print, print_line, ret, call_total, call;
      cbn [tick stdout];
      replace (S (u + 1 + 1)) with (u + 3)%nat by lia;
      replace (S (S (u + 1))) with (u + 3)%nat by lia;
      rewrite (IH fuel (u + 3)%nat _ _ Hrest);
      replace (u + 3 + 3 * k)%nat with (u + 3 * S k)%nat by lia.
    + apply opt_eqb_eq in E. rewrite <- E. reflexivity.
    + cbn [map]. unfold phase_line at 2.
      now rewrite <- app_assoc.
Qed.

End Polls.

(** X10: [wait_workflow] returns at the first terminal phase it sees and
    calls nothing after it: when [k] polls have gone on and the next one,
    still before the deadline, fetches a workflow in a terminal phase, that
    workflow is returned after the three calls of each earlier poll and
    the two of the last; the lines printed are the phases seen, each one
    that repeats the phase of the poll before it left out. *)
Theorem wait_workflow_returns_at_first_terminal
  (env : Env) (namespace name : string) (timeout_seconds : Z) (st : State)
  (k fuel : nat) (wf : Workflow)
  (polls : polls_go_on env namespace name
             (time_time env (tick st) + 1000000 * timeout_seconds)
             (tick st + 1) k)
  (in_time : time_time env (tick st + 1 + 3 * k)
             < time_time env (tick st) + 1000000 * timeout_seconds)
  (fetched : get_namespaced_custom_object env (tick st + 1 + 3 * k + 1)
               namespace name = Ok wf)
  (terminal : is_terminal (phase_or_unknown wf) = true)
  (enough : (k < fuel)%nat) :
  wait_workflow env fuel namespace name timeout_seconds st
  = ({| tick := tick st + 3 * k + 3;
        stdout := (stdout st
                   ++ map phase_line
                        (changes None
                           (observed env namespace name (tick st + 1) (S k))))%list |},
     Return wf).
Proof.
  unfold wait_workflow. unfold mbind at 1. unfold call_total at 1, call at 1.
  replace (S (tick st)) with (tick st + 1)%nat by lia.
  replace fuel with (k + S (fuel - S k))%nat by lia.
  rewrite (wait_loop_unroll env namespace name timeout_seconds _ k _ _ _ _ polls).
  rewrite observed_snoc, changes_app, map_app, app_assoc.
  cbn [wait_loop]. unfold mbind at 1. unfold call_total at 1, call at 1.
  cbn [tick stdout].
  destruct (Z.ltb_spec (time_time env (tick st + 1 + 3 * k))
              (time_time env (tick st) + 1000000 * timeout_seconds)); [|lia].
  unfold mbind at 1. unfold get_workflow, call at 1. cbn [tick stdout].
  replace (S (tick st + 1 + 3 * k)) with (tick st + 1 + 3 * k + 1)%nat by lia.
  rewrite fetched, terminal. unfold phase_seen. rewrite fetched.
  fold (last_seen None (observed env namespace name (tick st + 1) k)).
  destruct (opt_eqb (Some (phase_or_unknown wf))
              (last_seen None (observed env namespace name (tick st + 1) k)));
    cbn [negb]; unfold mbind, print, print_line, ret; cbn [tick stdout map];
    rewrite ?app_nil_r; do 2 f_equal; lia.
Qed.

Lemma polls_of_env (env : Env) namespace name deadline u k :
  (forall i, (i < k)%nat ->
     (time_time env (u + 3 * i) <? deadline)%Z = true
     /\ match get_namespaced_custom_object env (u + 3 * i + 1) namespace name with
        | Ok wf => is_terminal (phase_or_unknown wf) = false
        | Raise _ => False
        end) ->
  polls_go_on env namespace name deadline u k.
Proof.
  intros H i Hi. destruct (H i Hi) as [A B]. split; [now apply Z.ltb_lt|].
  destruct (get_namespaced_custom_object env (u + 3 * i + 1) namespace name)
    as [wf|]; [|contradiction]. now exists wf.
Defined.

Lemma progressing_env_polls :
  polls_go_on progressing_env "argo" "hello-abc"
    (time_time progressing_env (tick start) + 1000000 * 60) (tick start + 1) 3.
Proof.
  apply polls_of_env. intros i Hi.
  destruct i as [|[|[|i]]]; [split; reflexivity .. | lia].
Defined.

Lemma wait_workflow_returns_at_first_terminal_witness :
  wait_workflow progressing_env 10 "argo" "hello-abc" 60 start
  = ({| tick := 12;
        stdout := [Line "    phase=Pending"; Line "    phase=Running";
                   Line "    phase=Succeeded"] |},
     Return succeeded_workflow).
Proof.
  refine (wait_workflow_returns_at_first_terminal progressing_env "argo"
            "hello-abc" 60 start 3 10 succeeded_workflow progressing_env_polls
            eq_refl eq_refl eq_refl _).
  lia.
Defined.

(** X11: a fetch that fails ends the wait: there is no retry.  When [k]
    polls have gone on and the fetch of the next one, still before the
    deadline, raises, [wait_workflow] raises that exception at once. *)
Theorem wait_workflow_fetch_error_ends_wait
  (env : Env) (namespace name : string) (timeout_seconds : Z) (st : State)
  (k fuel : nat) (e : exn)
  (polls : polls_go_on env namespace name
             (time_time env (tick st) + 1000000 * timeout_seconds)
             (tick st + 1) k)
  (in_time : time_time env (tick st + 1 + 3 * k)
             < time_time env (tick st) + 1000000 * timeout_seconds)
  (failed : get_namespaced_custom_object env (tick st + 1 + 3 * k + 1)
              namespace name = Raise e)
  (enough : (k < fuel)%nat) :
  wait_workflow env fuel namespace name timeout_seconds st
  = ({| tick := tick st + 3 * k + 3;
        stdout := (stdout st
                   ++ map phase_line
                        (changes None
                           (observed env namespace name (tick st + 1) k)))%list |},
     Throw e).
Proof.
  unfold wait_workflow. unfold mbind at 1. unfold call_total at 1, call at 1.
  replace (S (tick st)) with (tick st + 1)%nat by lia.
  replace fuel with (k + S (fuel - S k))%nat by lia.
  rewrite (wait_loop_unroll env namespace name timeout_seconds _ k _ _ _ _ polls).
  cbn [wait_loop]. unfold mbind at 1. unfold call_total at 1, call at 1.
  cbn [tick stdout].
  destruct (Z.ltb_spec (time_time env (tick st + 1 + 3 * k))
              (time_time env (tick st) + 1000000 * timeout_seconds)); [|lia].
  unfold mbind at 1. unfold get_workflow, call at 1. cbn [tick stdout].
  replace (S (tick st + 1 + 3 * k)) with (tick st + 1 + 3 * k + 1)%nat by lia.
  rewrite failed. do 2 f_equal. lia.
Qed.

Lemma flaky_env_polls :
  polls_go_on flaky_env "argo" "hello-abc"
    (time_time flaky_env (tick start) + 1000000 * 60) (tick start + 1) 2.
Proof.
  apply polls_of_env. intros i Hi.
  destruct i as [|[|i]]; [split; reflexivity .. | lia].
Defined.

Lemma wait_workflow_fetch_error_ends_wait_witness :
  wait_workflow flaky_env 10 "argo" "hello-abc" 60 start
  = ({| tick := 9;
        stdout := [Line "    phase=Pending"; Line "    phase=Running"] |},
     Throw (ApiException "connection reset")).
Proof.
  refine (wait_workflow_fetch_error_ends_wait flaky_env "argo" "hello-abc" 60
            start 2 10 (ApiException "connection reset") flaky_env_polls
            eq_refl eq_refl _).
  lia.
Defined.

Lemma wait_loop_returns_terminal env fuel : forall namespace name timeout_seconds
    deadline last_phase st st' wf,
  wait_loop env fuel namespace name timeout_seconds deadline last_phase st
  = (st', Return wf) ->
  is_terminal (phase_or_unknown wf) = true.
Proof.
  induction fuel as [|fuel IH];
    intros namespace name timeout_seconds deadline last_phase st st' wf;
    [discriminate|].
  cbn [wait_loop]. unfold mbind at 1. unfold call_total at 1, call at 1.
  destruct (time_time env (tick st) <? deadline)%Z; [|discriminate].
  unfold mbind at 1. unfold get_workflow, call at 1. cbn [tick stdout].
  destruct (get_namespaced_custom_object env (S (tick st)) namespace name)
    as [wf0|]; [|discriminate].
  destruct (is_terminal (phase_or_unknown wf0)) eqn:T;
    destruct (negb _);
    cbv beta iota delta [mbind print print_line ret call_total call];
    try (intros [= _ <-]; exact T); apply IH.
Qed.

Lemma wait_returns_terminal env fuel namespace name
    timeout_seconds st st' wf :
  wait_workflow env fuel namespace name timeout_seconds st = (st', Return wf) ->
  is_terminal (phase_or_unknown wf) = true.
Proof.
  unfold wait_workflow, mbind at 1, call_total, call.
  apply wait_loop_returns_terminal.
Qed.

(** X12: [wait_workflow] never hands back a workflow that is still under
    way: whatever the cluster answers, a workflow it returns is in phase
    Succeeded, Failed or Error. *)
Theorem wait_workflow_returns_only_terminal
  (env : Env) (fuel : nat) (namespace name : string) (timeout_seconds : Z)
  (st st' : State) (wf : Workflow)
  (returned : wait_workflow env fuel namespace name timeout_seconds st
              = (st', Return wf)) :
  is_terminal (phase_or_unknown wf) = true
  /\ (phase_or_unknown wf = "Succeeded" \/ phase_or_unknown wf = "Failed"
      \/ phase_or_unknown wf = "Error").
Proof.
  assert (T : is_terminal (phase_or_unknown wf) = true)
    by exact (wait_returns_terminal _ _ _ _ _ _ _ _ returned).
  split; [exact T|]. unfold is_terminal in T.
  rewrite !orb_true_iff, !String.eqb_eq in T. tauto.
Qed.

Lemma wait_workflow_returns_only_terminal_witness :
  is_terminal (phase_or_unknown succeeded_workflow) = true.
Proof.
  exact (proj1 (wait_workflow_returns_only_terminal progressing_env 10 "argo"
                  "hello-abc" 60 start _ succeeded_workflow eq_refl)).
Defined.

(** X13: with a timeout of zero seconds or less, and a clock that does not
    go back, [wait_workflow] never fetches the workflow: it reads the clock
    twice and raises the TimeoutError. *)
Theorem wait_workflow_without_time_never_polls
  (env : Env) (fuel : nat) (namespace name : string) (timeout_seconds : Z)
  (st : State)
  (no_time : timeout_seconds <= 0)
  (clock : time_time env (tick st) <= time_time env (S (tick st)))
  (some_fuel : (0 < fuel)%nat) :
  wait_workflow env fuel namespace name timeout_seconds st
  = ({| tick := tick st + 2; stdout := stdout st |},
     Throw (TimeoutError (timeout_message namespace name timeout_seconds))).
Proof.
  destruct fuel as [|fuel]; [lia|].
  unfold wait_workflow. unfold mbind at 1. unfold call_total at 1, call at 1.
  cbn [wait_loop]. unfold mbind at 1. unfold call_total at 1, call at 1.
  cbn [tick stdout].
  destruct (Z.ltb_spec (time_time env (S (tick st)))
              (time_time env (tick st) + 1000000 * timeout_seconds)); [lia|].
  unfold throw. do 2 f_equal. lia.
Qed.

Lemma wait_workflow_without_time_never_polls_witness :
  wait_workflow progressing_env 10 "argo" "hello-abc" 0 start
  = ({| tick := 2; stdout := [] |},
     Throw (TimeoutError "Workflow argo/hello-abc did not finish within 0s")).
Proof.
  apply (wait_workflow_without_time_never_polls progressing_env 10 "argo"
           "hello-abc" 0 start); [lia | cbv; discriminate | lia].
Defined.

End WatcherExtras.

(* --------------------------------------------------------------------- *)
(** ** Sorting *)

Module SortFacts.

Lemma insert_sorted_permutation {A : Type} (lt : A -> A -> bool) x l :
  Permutation (insert_sorted lt x l) (x :: l).
Proof.
  induction l as [|y l IH]; cbn [insert_sorted]; [apply Permutation_refl|].
  destruct (lt x y); [apply Permutation_refl|].
  eapply perm_trans; [apply perm_skip, IH | apply perm_swap].
Qed.

Lemma sorted_by_permutation {A : Type} (lt : A -> A -> bool) l :
  Permutation (sorted_by lt l) l.
Proof.
  unfold sorted_by. eapply perm_trans; [|apply Permutation_sym, Permutation_rev].
  induction (rev l) as [|x r IH]; cbn [fold_right]; [apply perm_nil|].
  eapply perm_trans; [apply insert_sorted_permutation | now apply perm_skip].
Qed.

Lemma sorted_by_in {A : Type} (lt : A -> A -> bool) l x :
  In x (sorted_by lt l) <-> In x l.
Proof.
  split; apply Permutation_in;
    [|apply Permutation_sym]; apply sorted_by_permutation.
Qed.

End SortFacts.

(* --------------------------------------------------------------------- *)
(** ** Expectations *)

Module ExpectExtras.

Import StringFacts ResolverFacts ExpectFacts SortFacts.

Lemma prefix_split p s : String.prefix p s = true <-> exists b, s = p ++ b.
Proof.
  split.
  - revert s. induction p as [|c p IH]; intros s.
    + intros _. now exists s.
    + destruct s as [|d s]; cbn [String.prefix]; [intros H; discriminate H|].
      destruct (ascii_dec c d) as [E|]; [subst d|intros H; discriminate H].
      intros H. destruct (IH _ H) as [b ->]. now exists b.
  - intros [b ->]. apply prefix_app.
Qed.

(** [needle in hay], as a statement about the two strings. *)
Lemma contains_split hay needle :
  contains hay needle = true <-> exists a b, hay = a ++ needle ++ b.
Proof.
  split.
  - induction hay as [|c hay IH]; cbn [contains].
    + rewrite orb_false_r. intros H. apply prefix_split in H.
      destruct H as [b H]. now exists "", b.
    + intros H. apply orb_true_iff in H. destruct H as [H|H].
      * apply prefix_split in H. destruct H as [b H]. now exists "", b.
      * destruct (IH H) as [a [b ->]]. now exists (String c a), b.
  - intros [a [b ->]]. apply contains_app_r.
Qed.

Lemma index_keys nodes : forall acc,
  NoDup (map fst acc) -> dict_get acc "" = None ->
  NoDup (map fst (fold_left index_step nodes acc))
  /\ dict_get (fold_left index_step nodes acc) "" = None.
Proof.
  assert (K : forall (d : dict (list Node)) k v x,
             In x (map fst (dict_setdefault_append d k v))
             <-> x = k \/ In x (map fst d)).
  { induction d as [|[k0 vs] d IH]; intros k v x;
      cbn [dict_setdefault_append map fst In].
    - intuition (subst; auto).
    - destruct (String.eqb_spec k0 k) as [->|Hne]; cbn [map fst In].
      + intuition (subst; auto).
      + rewrite IH. tauto. }
  assert (S : forall (d : dict (list Node)) k v,
             NoDup (map fst d) -> NoDup (map fst (dict_setdefault_append d k v))).
  { induction d as [|[k0 vs] d IH]; intros k v ND;
      cbn [dict_setdefault_append map fst].
    - repeat constructor. intros [].
    - inversion ND as [|? ? Hn ND']; subst.
      destruct (String.eqb_spec k0 k) as [->|Hne]; cbn [map fst].
      + now constructor.
      + constructor; [|now apply IH].
        rewrite K. intros [E|H]; [now elim Hne | contradiction]. }
  induction nodes as [|[id n] nodes IH]; intros acc ND E; [now split|].
  cbn [fold_left]. apply IH; unfold index_step; cbn [snd];
    destruct (displayName n) as [[|c r]|]; cbn [truthy str_opt]; auto.
  rewrite dict_get_setdefault_append.
  destruct (String.eqb_spec (String c r) ""); [discriminate | exact E].
Qed.

Lemma index_holds_carriers nodes :
  dict_get (index_by_display nodes) "" = None
  /\ NoDup (map fst (index_by_display nodes)).
Proof.
  unfold index_by_display.
  change (fun (by_display : dict (list Node)) (kv : string * Node) => _)
    with index_step.
  destruct (index_keys nodes [] (NoDup_nil _) eq_refl) as [A B]. now split.
Qed.

(** X14: the index built by [assert_expectations] holds, under every
    non-empty display name, the nodes that carry it, in the order of the
    node map, and has no entry for a name that none carries; nodes without
    a display name, or with an empty one, are left out; no key comes
    twice. *)
Theorem index_groups_nodes_by_display_name (nodes : dict Node) :
  (forall dn, dn <> "" ->
              dict_get (index_by_display nodes) dn
              = match group_of nodes dn with
                | [] => None
                | g => Some g
                end)
  /\ (forall dn n, In n (group_of nodes dn)
                   <-> exists id, In (id, n) nodes /\ displayName n = Some dn)
  /\ dict_get (index_by_display nodes) "" = None
  /\ NoDup (map fst (index_by_display nodes)).
Proof.
  split; [intros dn; apply index_by_display_get|].
  split; [intros dn n; apply in_group_of|].
  apply index_holds_carriers.
Qed.

Lemma assert_expectations_phase_first env wf expect st :
  truthy (workflowPhase expect) = true ->
  status_phase (status_of wf) <> workflowPhase expect ->
  assert_expectations env wf expect st
  = (st, Throw (AssertionError
                  ("Expected workflowPhase=" ++ str_opt (workflowPhase expect)
                   ++ ", got " ++ str_opt (status_phase (status_of wf))))).
Proof.
  intros T N. unfold assert_expectations, check_workflow_phase.
  fold (status_of wf). rewrite T.
  destruct (opt_eqb (status_phase (status_of wf)) (workflowPhase expect)) eqn:E.
  - apply opt_eqb_eq in E. contradiction.
  - reflexivity.
Qed.

(** X15: the phase of the workflow is checked before anything else: when
    a phase is expected and the one of the status is not that phase (or
    is missing), the evaluation raises the AssertionError that names both,
    whatever else is expected and without any call to the cluster. *)
Theorem workflow_phase_checked_first
  (env : Env) (wf : Workflow) (expect : Expect) (st : State) (expected : string)
  (declared : workflowPhase expect = Some expected)
  (named : expected <> "")
  (differs : status_phase (status_of wf) <> Some expected) :
  assert_expectations env wf expect st
  = (st, Throw (AssertionError
                  ("Expected workflowPhase=" ++ expected ++ ", got "
                   ++ str_opt (status_phase (status_of wf))))).
Proof.
  rewrite assert_expectations_phase_first; rewrite declared;
    [reflexivity | now apply truthy_some | exact differs].
Qed.

Lemma workflow_phase_checked_first_witness :
  assert_expectations example_env retried_workflow
    {| workflowPhase := Some "Failed"; maxDuration := Some "not a duration";
       expect_nodes := [nameless_entry] |} start
  = (start, Throw (AssertionError "Expected workflowPhase=Failed, got Succeeded")).
Proof.
  apply (workflow_phase_checked_first example_env retried_workflow _ start "Failed");
    [reflexivity | discriminate | discriminate].
Defined.





Lemma check_needles_ok dn logs needles :
  check_needles dn logs needles = Ok tt
  <-> forall needle, In needle needles -> contains logs needle = true.
Proof.
  induction needles as [|n needles IH]; cbn [check_needles].
  - split; [intros _ x [] | reflexivity].
  - destruct (contains logs n) eqn:E; cbn [negb].
    + rewrite IH. split.
      * intros H x [<-|Hin]; auto.
      * intros H x Hin. apply H. now right.
    + split; [discriminate|]. intros H.
      rewrite (H n (or_introl eq_refl)) in E. discriminate.
Qed.

(** X17: the logs check passes exactly when every required string occurs
    somewhere in the text; when one does not, the AssertionError quotes
    the first such string, in declared order, and the whole text. *)
Theorem needles_all_found (dn logs : string) (needles : list string) :
  (check_needles dn logs needles = Ok tt
   <-> forall needle, In needle needles ->
                      exists before after, logs = before ++ needle ++ after)
  /\ (forall found missing rest,
         needles = (found ++ missing :: rest)%list ->
         (forall needle, In needle found -> contains logs needle = true) ->
         contains logs missing = false ->
         check_needles dn logs needles
         = Raise (AssertionError
                    ("Node '" ++ dn ++ "': expected logs to contain '" ++ missing
                     ++ "', but not found." ++ nl ++ "--- logs ---" ++ nl ++ logs))).
Proof.
  split.
  - rewrite check_needles_ok. split; intros H needle Hin.
    + apply contains_split. auto.
    + apply contains_split. auto.
  - intros found missing rest -> Hfound Hmissing.
    induction found as [|f found IH]; cbn [app check_needles].
    + now rewrite Hmissing.
    + rewrite (Hfound f (or_introl eq_refl)). cbn [negb].
      apply IH. intros needle Hin. apply Hfound. now right.
Qed.

Lemma needles_all_found_witness :
  check_needles "step1" "greeting: hello world" ["hello"; "bye"; "world"]
  = Raise (AssertionError
             ("Node 'step1': expected logs to contain 'bye', but not found."
              ++ nl ++ "--- logs ---" ++ nl ++ "greeting: hello world")).
Proof.
  apply (proj2 (needles_all_found "step1" "greeting: hello world"
                  ["hello"; "bye"; "world"]) ["hello"] "bye" ["world"] eq_refl).
  - intros needle [<-|[]]. reflexivity.
  - reflexivity.
Defined.

Lemma dict_get_in_keys {V : Type} (d : dict V) k :
  In k (map fst d) <-> dict_get d k <> None.
Proof.
  induction d as [|[k0 v] d IH]; cbn [map fst In dict_get].
  - intuition congruence.
  - destruct (String.eqb_spec k0 k) as [->|Hne].
    + split; [discriminate | now left].
    + rewrite <- IH. intuition congruence.
Qed.

Lemma index_key_iff nodes x :
  In x (map fst (index_by_display nodes)) <-> x <> "" /\ carried nodes x.
Proof.
  rewrite dict_get_in_keys.
  destruct (string_dec x "") as [->|Hx].
  - destruct (index_holds_carriers nodes) as [E _].
    rewrite E. intuition congruence.
  - rewrite (index_by_display_get _ _ Hx). unfold carried. split.
    + intros H. split; [exact Hx|].
      destruct (group_of nodes x) as [|n g] eqn:G; [now elim H|].
      assert (I : In n (group_of nodes x)) by (rewrite G; now left).
      apply in_group_of in I. destruct I as [id [Hin Hd]]. eauto.
    + intros [_ [id [n [Hin Hd]]]].
      assert (I : In n (group_of nodes x)) by (apply in_group_of; eauto).
      destruct (group_of nodes x); [destruct I | discriminate].
Qed.

(** X18: an entry that selects a display name carried by no status node
    is refused, whatever phase and logs it asks for and without any call
    to the cluster: the AssertionError names the display name selected and
    lists, as [repr] writes them, the first thirty of the keys of the
    index, sorted; those keys are the display names that are carried. *)
Theorem entry_for_unknown_node_is_refused
  (env : Env) (wf : Workflow) (wf_ns : string) (nodes : dict Node)
  (n : NodeExpect) (dn : string) (st : State)
  (selects : selected_display_name n = Some dn)
  (named : dn <> "")
  (unknown : ~ carried nodes dn) :
  check_node_expect env wf wf_ns nodes (index_by_display nodes) n st
  = (st, Throw (AssertionError
                  ("Node '" ++ dn ++ "' not found in workflow status.nodes. "
                   ++ "Available displayNames (sample): "
                   ++ repr_list
                        (firstn 30 (sorted (map fst (index_by_display nodes)))))))
  /\ forall x, In x (sorted (map fst (index_by_display nodes)))
               <-> x <> "" /\ carried nodes x.
Proof.
  split.
  - change ("Node '" ++ dn ++ "' not found in workflow status.nodes. "
            ++ "Available displayNames (sample): "
            ++ repr_list
                 (firstn 30 (sorted (map fst (index_by_display nodes)))))
      with (not_found_message "workflow status.nodes" dn
              (sorted (map fst (index_by_display nodes)))).
    unfold check_node_expect. rewrite selects, (truthy_some _ named).
    cbn [negb str_opt].
    destruct (dict_get (index_by_display nodes) dn) eqn:G; [|reflexivity].
    exfalso. apply unknown.
    assert (K : In dn (map fst (index_by_display nodes)))
      by (apply dict_get_in_keys; congruence).
    now apply index_key_iff in K.
  - intros x. unfold sorted. rewrite sorted_by_in. apply index_key_iff.
Qed.

Lemma entry_for_unknown_node_is_refused_witness :
  check_node_expect example_env retried_workflow "argo"
    (status_nodes (status_of retried_workflow))
    (index_by_display (status_nodes (status_of retried_workflow)))
    (phase_entry "build" "Succeeded") start
  = (start,
     Throw (AssertionError
              ("Node 'build' not found in workflow status.nodes. "
               ++ "Available displayNames (sample): ['retry-step']"))).
Proof.
  refine (proj1 (entry_for_unknown_node_is_refused example_env retried_workflow
                   "argo" _ (phase_entry "build" "Succeeded") "build" start
                   eq_refl _ _)).
  - discriminate.
  - intros [id [n [Hin Hd]]].
    destruct Hin as [E|[E|[]]]; injection E as _ <-; discriminate Hd.
Defined.

(** X19: the identity of the workflow is looked at only when node
    expectations are declared.  Once the phase and the duration have
    passed, an expectation without node entries passes on any workflow,
    and one with node entries raises KeyError on a workflow without
    metadata, or without a namespace in it, before any entry is looked
    at. *)
Theorem metadata_needed_for_node_entries_only
  (env : Env) (wf : Workflow) (expect : Expect) (st : State)
  (phase_passes : check_workflow_phase (status_of wf) expect = Ok tt)
  (duration_passes : check_max_duration env (status_of wf) expect = Ok tt) :
  (expect_nodes expect = [] ->
   assert_expectations env wf expect st = (st, Return tt))
  /\ (expect_nodes expect <> [] -> metadata wf = None ->
      assert_expectations env wf expect st = (st, Throw (KeyError "metadata")))
  /\ (expect_nodes expect <> [] ->
      forall md, metadata wf = Some md -> metadata_namespace md = None ->
      assert_expectations env wf expect st = (st, Throw (KeyError "namespace"))).
Proof.
  unfold assert_expectations. fold (status_of wf).
  rewrite phase_passes, duration_passes. cbn [lift].
  unfold mbind at 1. unfold mbind at 1. unfold ret at 1 2.
  repeat split.
  - now intros ->.
  - intros Hn Hm. destruct (expect_nodes expect); [now elim Hn|].
    unfold metadata_field. now rewrite Hm.
  - intros Hn md Hm Hns. destruct (expect_nodes expect); [now elim Hn|].
    unfold metadata_field. now rewrite Hm, Hns.
Qed.

Lemma metadata_needed_for_node_entries_only_witness :
  assert_expectations example_env {| metadata := None; status := None |}
    {| workflowPhase := None; maxDuration := None;
       expect_nodes := [nameless_entry] |} start
  = (start, Throw (KeyError "metadata")).
Proof.
  apply (proj1 (proj2 (metadata_needed_for_node_entries_only example_env
                         {| metadata := None; status := None |}
                         {| workflowPhase := None; maxDuration := None;
                            expect_nodes := [nameless_entry] |} start
                         eq_refl eq_refl)));
    [discriminate | reflexivity].
Defined.

Lemma first_pod_name_spec group p :
  first_pod_name group = Some p ->
  p <> ""
  /\ exists before n after,
       group = (before ++ n :: after)%list
       /\ (forall b, In b before -> truthy (podName b) = false)
       /\ podName n = Some p.
Proof.
  induction group as [|n group IH]; cbn [first_pod_name]; [discriminate|].
  destruct (truthy (podName n)) eqn:T.
  - intros H. split.
    + intros ->. rewrite H in T. discriminate T.
    + exists [], n, group. repeat split; [|exact H]. intros b [].
  - intros H. destruct (IH H) as [Hp [before [m [after [-> [Hb Hm]]]]]].
    split; [exact Hp|]. exists (n :: before), m, after.
    repeat split; [|exact Hm]. intros b [<-|Hin]; auto.
Qed.

(** X20: when logs are required of a display name and one of its nodes has
    a pod name of its own, the logs are read from the pod of the first
    such node, in the order of the node map; neither the subtree search
    nor the name of the workflow is used.  The check then passes exactly
    when the text read has every required string. *)
Theorem logs_read_from_first_named_pod
  (env : Env) (wf : Workflow) (wf_ns : string) (nodes : dict Node)
  (by_display : dict (list Node)) (dn : string) (needles : list string)
  (group : list Node) (pod text : string) (st st' : State)
  (required : needles <> [])
  (grouped : dict_get by_display dn = Some group)
  (has_pod : first_pod_name group = Some pod)
  (read : read_pod_logs env wf_ns pod st = (st', Return text)) :
  (pod <> ""
   /\ exists before n after,
        group = (before ++ n :: after)%list
        /\ (forall b, In b before -> truthy (podName b) = false)
        /\ podName n = Some pod)
  /\ check_node_logs env wf wf_ns nodes by_display dn needles st
     = (st', match check_needles dn text needles with
             | Ok _ => Return tt
             | Raise e => Throw e
             end)
  /\ (snd (check_node_logs env wf wf_ns nodes by_display dn needles st)
      = Return tt
      <-> forall needle, In needle needles -> contains text needle = true).
Proof.
  pose proof (first_pod_name_spec _ _ has_pod) as S.
  assert (E : check_node_logs env wf wf_ns nodes by_display dn needles st
              = (st', match check_needles dn text needles with
                      | Ok _ => Return tt
                      | Raise e => Throw e
                      end)).
  { unfold check_node_logs. destruct needles as [|n0 ns]; [now elim required|].
    rewrite grouped, has_pod. destruct S as [Hp _].
    destruct pod as [|c r]; [now elim Hp|].
    unfold mbind at 1. unfold ret at 1. unfold mbind at 1. rewrite read.
    unfold lift. destruct (check_needles dn text (n0 :: ns)) as [[]|e];
      reflexivity. }
  split; [exact S|]. split; [exact E|].
  rewrite E. cbn [snd]. rewrite <- (check_needles_ok dn).
  destruct (check_needles dn text needles) as [[]|e]; cbv beta iota;
    split; intros H; (reflexivity || discriminate H).
Qed.

Lemma logs_read_from_first_named_pod_witness :
  snd (check_node_logs example_env retried_workflow "argo"
         pod_named_workflow_nodes (index_by_display pod_named_workflow_nodes)
         "main-step" ["log of main"; "log of wait"] start)
  = Return tt.
Proof.
  refine (proj2 (proj2 (proj2 (logs_read_from_first_named_pod example_env
            retried_workflow "argo" pod_named_workflow_nodes
            (index_by_display pod_named_workflow_nodes) "main-step"
            ["log of main"; "log of wait"] _ "wf-run-2" _ start _ _
            eq_refl eq_refl eq_refl))) _).
  - discriminate.
  - intros needle [<-|[<-|[]]]; reflexivity.
Defined.

End ExpectExtras.

(* --------------------------------------------------------------------- *)
(** ** Scenario loading *)

Module LoaderExtras.

Import StringFacts SortFacts LoaderClaims.

Lemma ltb_asym a b : String.ltb a b = true -> String.ltb b a = false.
Proof.
  unfold String.ltb. rewrite (String.compare_antisym a b).
  destruct (String.compare b a); cbn; congruence.
Qed.

Lemma ltb_neq a b : String.ltb a b = true -> (a =? b)%string = false.
Proof.
  unfold String.ltb. intros H. apply String.eqb_neq. intros ->.
  pose proof (String.compare_antisym b b) as E.
  destruct (String.compare b b); cbn in E; congruence.
Qed.

Lemma parts_ltb_asym a : forall b, parts_ltb a b = true -> parts_ltb b a = false.
Proof.
  induction a as [|x a IH]; intros [|y b]; cbn [parts_ltb]; try congruence.
  intros H. apply orb_true_iff in H. destruct H as [H|H].
  - rewrite (ltb_asym _ _ H). pose proof (ltb_neq _ _ H) as N.
    rewrite String.eqb_sym in N. now rewrite N.
  - apply andb_true_iff in H. destruct H as [E H].
    apply String.eqb_eq in E. subst y.
    rewrite (IH _ H), andb_false_r, orb_false_r.
    destruct (String.ltb x x) eqn:L; [|reflexivity].
    apply ltb_neq in L. now rewrite String.eqb_refl in L.
Qed.

Lemma path_ltb_asym p q : path_ltb p q = true -> path_ltb q p = false.
Proof. apply parts_ltb_asym. Qed.

Lemma insert_sorted_ordered x l :
  in_path_order l -> in_path_order (insert_sorted path_ltb x l).
Proof.
  unfold in_path_order. induction l as [|y l IH]; intros S; cbn [insert_sorted].
  - repeat constructor.
  - destruct (path_ltb x y) eqn:L.
    + constructor; [exact S|]. constructor. now apply path_ltb_asym.
    + inversion S as [|? ? S' H]; subst. constructor; [now apply IH|].
      destruct l as [|z l]; cbn [insert_sorted].
      * now constructor.
      * destruct (path_ltb x z); constructor; [exact L|].
        now inversion H.
Qed.

Lemma sorted_paths_ordered l : in_path_order (sorted_paths l).
Proof.
  unfold sorted_paths, sorted_by.
  induction (rev l) as [|x r IH]; cbn [fold_right]; [constructor|].
  now apply insert_sorted_ordered.
Qed.

Lemma scenario_of_doc_path env p data s :
  scenario_of_doc env p data = Ok s -> path s = p.
Proof.
  rewrite source_check. destruct (exactly_one_source data); [|discriminate].
  destruct (doc_name data); [|discriminate].
  destruct (parse_duration_to_seconds _); cbn [bind]; [|discriminate].
  now intros [= <-].
Qed.

Lemma load_each_paths env paths : forall st st' ss,
  load_each env paths st = (st', Return ss) ->
  map path ss = paths
  /\ tick st' = (tick st + List.length paths)%nat
  /\ stdout st' = stdout st.
Proof.
  induction paths as [|p paths IH]; intros st st' ss; cbn [load_each].
  - unfold ret. intros [= <- <-]. cbn. repeat split. lia.
  - unfold mbind at 1. unfold call at 1.
    destruct (load_scenario_yaml env (tick st) p) as [data|]; [|discriminate].
    unfold mbind at 1. unfold lift.
    destruct (scenario_of_doc env p data) as [s|] eqn:E; [|discriminate].
    unfold ret at 1. unfold mbind at 1.
    destruct (load_each env paths _) as [st1 [ss1| |]] eqn:L; try discriminate.
    unfold ret. intros [= <- <-].
    destruct (IH _ _ _ L) as (A & B & C). cbn [tick stdout] in B, C.
    cbn [map List.length]. rewrite A, (scenario_of_doc_path _ _ _ _ E).
    repeat split; [lia | exact C].
Qed.

(** X21: the scenarios that [load_scenarios_from_dir] returns are one per
    file of the listing, in the order of their paths: the paths of the
    scenarios are the resolved listing sorted, which is a rearrangement of
    the listing in which no path comes before its predecessor; the list is
    not empty, and the load has made one call for the listing and one per
    file, and printed nothing. *)
Theorem loaded_scenarios_follow_path_order
  (env : Env) (tests_dir : string) (st st' : State) (ss : list TestScenario)
  (loaded : load_scenarios_from_dir env tests_dir st = (st', Return ss)) :
  let listing :=
    map (path_resolve env)
      (glob_yaml env (tick st) (path_resolve env tests_dir)) in
  map path ss = sorted_paths listing
  /\ Permutation (map path ss) listing
  /\ in_path_order (map path ss)
  /\ ss <> []
  /\ tick st' = (tick st + 1 + List.length listing)%nat
  /\ stdout st' = stdout st.
Proof.
  intros listing. revert loaded.
  unfold load_scenarios_from_dir, mbind at 1, call_total, call.
  fold listing. cbn [tick stdout].
  destruct (sorted_paths listing) as [|p ps] eqn:E; [discriminate|].
  intros L. apply load_each_paths in L. destruct L as (A & B & C).
  cbn [tick stdout] in B, C.
  assert (P : Permutation (p :: ps) listing)
    by (rewrite <- E; apply sorted_by_permutation).
  rewrite A. split; [reflexivity|]. split; [exact P|].
  split; [rewrite <- E; apply sorted_paths_ordered|].
  split; [intros ->; discriminate A|].
  split; [|exact C].
  rewrite B, (Permutation_length P). lia.
Qed.

Lemma loaded_scenarios_follow_path_order_witness :
  exists s1 s2,
    snd (load_scenarios_from_dir two_files_env "/tests" start) = Return [s1; s2]
    /\ map path [s1; s2] = ["/tests/a.yaml"; "/tests/b.yaml"].
Proof.
  destruct (load_scenarios_from_dir two_files_env "/tests" start)
    as [st' [ss| |]] eqn:L; try discriminate L.
  pose proof (loaded_scenarios_follow_path_order two_files_env "/tests" start
                st' ss L) as H.
  cbv zeta in H. destruct H as (A & _).
  change (sorted_paths _) with ["/tests/a.yaml"; "/tests/b.yaml"] in A.
  destruct ss as [|s1 [|s2 [|s3 ss]]]; try discriminate A.
  exists s1, s2. split; [reflexivity | exact A].
Defined.

Lemma load_each_first_failure env before : forall u out p rest e,
  loads_well env u before ->
  (load_scenario_yaml env (u + List.length before) p = Raise e
   \/ exists data,
        load_scenario_yaml env (u + List.length before) p = Ok data
        /\ scenario_of_doc env p data = Raise e) ->
  snd (load_each env (before ++ p :: rest) {| tick := u; stdout := out |})
  = Throw e.
Proof.
  induction before as [|q before IH]; intros u out p rest e W F;
    cbn [app load_each List.length] in *.
  - rewrite Nat.add_0_r in F. unfold mbind at 1. unfold call at 1.
    cbn [tick stdout].
    destruct F as [-> | [data [-> F]]]; [reflexivity|].
    unfold mbind at 1. unfold lift. now rewrite F.
  - destruct (W 0%nat q eq_refl) as [data [s [Hd Hs]]].
    rewrite Nat.add_0_r in Hd.
    unfold mbind at 1. unfold call at 1. cbn [tick stdout]. rewrite Hd.
    unfold mbind at 1. unfold lift. rewrite Hs. unfold ret at 1.
    unfold mbind at 1.
    assert (T : snd (load_each env (before ++ p :: rest)
                       {| tick := S u; stdout := out |}) = Throw e).
    { apply IH.
      - intros i q' Hi. destruct (W (S i) q' Hi) as [d' [s' [A B]]].
        exists d', s'. split; [|exact B].
        now replace (S u + i)%nat with (u + S i)%nat by lia.
      - now replace (S u + List.length before)%nat
          with (u + S (List.length before))%nat by lia. }
    destruct (load_each env (before ++ p :: rest) _) as [st1 [x| |]];
      cbn [snd] in T; try discriminate T. now injection T as ->.
Qed.

(** X22: the directory is loaded as a whole or not at all.  An empty
    listing raises FileNotFoundError with the resolved directory in its
    message; and when the documents before some path, in path order, make
    scenarios and the document at that path cannot be read, or is refused,
    the load raises that error and returns no scenario, whatever the
    documents after it are. *)
Theorem load_is_all_or_nothing
  (env : Env) (tests_dir : string) (st : State) :
  let listing :=
    map (path_resolve env)
      (glob_yaml env (tick st) (path_resolve env tests_dir)) in
  (listing = [] ->
   load_scenarios_from_dir env tests_dir st
   = ({| tick := S (tick st); stdout := stdout st |},
      Throw (FileNotFoundError
               ("No *.yaml scenarios found in: " ++ path_resolve env tests_dir))))
  /\ (forall before p rest e,
         sorted_paths listing = (before ++ p :: rest)%list ->
         loads_well env (S (tick st)) before ->
         (load_scenario_yaml env (S (tick st) + List.length before) p = Raise e
          \/ exists data,
               load_scenario_yaml env (S (tick st) + List.length before) p
               = Ok data
               /\ scenario_of_doc env p data = Raise e) ->
         snd (load_scenarios_from_dir env tests_dir st) = Throw e).
Proof.
  intros listing. split.
  - intros E. unfold load_scenarios_from_dir, mbind, call_total, call.
    fold listing. now rewrite E.
  - intros before p rest e Hs W F.
    unfold load_scenarios_from_dir, mbind at 1, call_total, call.
    fold listing. cbn [tick stdout]. rewrite Hs.
    destruct (before ++ p :: rest)%list eqn:E; [now destruct before|].
    rewrite <- E. now apply load_each_first_failure.
Qed.

Lemma load_is_all_or_nothing_witness :
  snd (load_scenarios_from_dir broken_dir_env "/tests" start)
  = Throw (ValueError
             "/tests/b.yaml: define exactly one of workflow OR workflowFile").
Proof.
  apply (proj2 (load_is_all_or_nothing broken_dir_env "/tests" start)
           ["/tests/a.yaml"] "/tests/b.yaml" ["/tests/c.yaml"]).
  - reflexivity.
  - intros i q Hi. destruct i as [|i]; [|destruct i; discriminate Hi].
    injection Hi as <-. eexists. eexists. split; reflexivity.
  - right. exists no_source. split; reflexivity.
Defined.

(** X23: a scenario that the loader has made always has a manifest to
    offer: the condition of the [assert] of [load_workflow_manifest] holds
    on it.  With an inline workflow the manifest is returned without any
    call; otherwise the file read is the one named by [workflowFile], taken
    relative to the directory of the scenario's own file and resolved. *)
Theorem loaded_scenario_has_manifest_source
  (env : Env) (p : string) (data : ScenarioDoc) (s : TestScenario) (st : State)
  (made : scenario_of_doc env p data = Ok s) :
  (forall manifest,
      doc_workflow data = Some manifest ->
      load_workflow_manifest env s st = (st, Return manifest))
  /\ (doc_workflow data = None ->
      exists raw,
        doc_workflowFile data = Some raw /\ raw <> ""
        /\ workflow_file s
           = Some (path_resolve env (path_join (path_parent p) raw))
        /\ load_workflow_manifest env s st
           = call (fun t => load_manifest_yaml env t
                              (path_resolve env (path_join (path_parent p) raw)))
               st)
  /\ (workflow_inline s = None -> workflow_file s <> None).
Proof.
  revert made. rewrite source_check.
  unfold exactly_one_source, inline_set, file_set.
  destruct (doc_workflow data) as [m|] eqn:W;
    destruct (doc_workflowFile data) as [[|c r]|] eqn:F;
    cbn [truthy xorb]; try (intros H; discriminate H);
    (destruct (doc_name data); [|intros H; discriminate H]);
    (destruct (parse_duration_to_seconds _); cbn [bind];
     [|intros H; discriminate H]);
    intros [= <-]; unfold load_workflow_manifest;
    cbn [workflow_inline workflow_file truthy str_opt].
  - split; [now intros ? [= <-]|]. split; discriminate.
  - split; [now intros ? [= <-]|]. split; discriminate.
  - split; [discriminate|]. split; [|discriminate].
    intros _. exists (String c r). repeat split. discriminate.
Qed.

Lemma loaded_scenario_has_manifest_source_witness :
  exists s,
    scenario_of_doc two_files_env "/tests/b.yaml" file_only = Ok s
    /\ workflow_file s = Some "/tests/wf/hello.yaml".
Proof.
  destruct (scenario_of_doc two_files_env "/tests/b.yaml" file_only)
    as [s|] eqn:E; [|discriminate E].
  exists s. split; [reflexivity|].
  destruct (proj1 (proj2 (loaded_scenario_has_manifest_source two_files_env
                            "/tests/b.yaml" file_only s start E)) eq_refl)
    as [raw [Hraw [_ [H _]]]].
  injection Hraw as <-. exact H.
Defined.

End LoaderExtras.

(* --------------------------------------------------------------------- *)
(** ** Runner *)

Module RunnerExtras.

Import StringFacts RunnerFacts ExpectExtras WatcherExtras.

Lemma filter_filter {A : Type} (p q : A -> bool) l :
  filter q (filter p l) = filter (fun x => p x && q x) l.
Proof.
  induction l as [|x l IH]; [reflexivity|].
  cbn [filter]. destruct (p x); cbn [filter andb]; [|exact IH].
  destruct (q x); now rewrite IH.
Qed.

Lemma filter_true {A : Type} (l : list A) : filter (fun _ => true) l = l.
Proof. induction l as [|x l IH]; cbn; congruence. Qed.

Lemma select_is_filter args scenarios :
  select_scenarios args scenarios = filter (keeps args) scenarios.
Proof.
  unfold select_scenarios, keeps.
  destruct (args_name args) as [[|c r]|], (args_tag args) as [|t ts];
    cbv zeta; rewrite ?filter_filter;
    try (symmetry; apply filter_true);
    try reflexivity.
  symmetry. apply filter_ext. intros a. apply andb_true_r.
Qed.

Lemma tags_match_iff wanted s :
  tags_match wanted s = true
  <-> forall t, In t wanted ->
                exists t', In t' (tags s) /\ lower t' = lower t.
Proof.
  unfold tags_match. rewrite forallb_forall. split.
  - intros H t Hin. specialize (H (lower t) (in_map _ _ _ Hin)).
    apply existsb_exists in H. destruct H as [x [Hx E]].
    apply String.eqb_eq in E. subst x.
    apply in_map_iff in Hx. destruct Hx as [t' [E Ht']]. eauto.
  - intros H x Hx. apply in_map_iff in Hx. destruct Hx as [t [<- Hin]].
    destruct (H t Hin) as [t' [Ht' E]].
    apply existsb_exists. exists (lower t'). split; [now apply in_map|].
    apply String.eqb_eq. now rewrite E.
Qed.

(** X24: the two filters of [main] keep the scenarios in their order and
    drop nothing else than what they are asked to: a scenario is selected
    exactly when its name, lowered, has the lowered [--name] value in it
    (an absent or empty value asks nothing) and every [--tag] value equals,
    letter case apart, one of its tags. *)
Theorem selection_keeps_matching_scenarios
  (args : Args) (scenarios : list TestScenario) :
  select_scenarios args scenarios = filter (keeps args) scenarios
  /\ forall s,
       In s (select_scenarios args scenarios)
       <-> In s scenarios
           /\ (forall wanted, args_name args = Some wanted -> wanted <> "" ->
                 exists before after,
                   lower (name s) = before ++ lower wanted ++ after)
           /\ (forall t, In t (args_tag args) ->
                 exists t', In t' (tags s) /\ lower t' = lower t).
Proof.
  split; [apply select_is_filter|].
  intros s. rewrite select_is_filter, filter_In. unfold keeps.
  rewrite andb_true_iff.
  assert (N : match args_name args with
              | Some (String c r) => name_matches (String c r) s
              | _ => true
              end = true
              <-> forall wanted, args_name args = Some wanted -> wanted <> "" ->
                    exists before after,
                      lower (name s) = before ++ lower wanted ++ after).
  { destruct (args_name args) as [[|c r]|].
    - split; [|reflexivity]. intros _ wanted [= <-] H. now elim H.
    - unfold name_matches. rewrite contains_split. split.
      + intros H wanted [= <-] _. exact H.
      + intros H. apply (H _ eq_refl). discriminate.
    - split; [|reflexivity]. intros _ wanted H. discriminate H. }
  assert (T : match args_tag args with
              | [] => true
              | wanted => tags_match wanted s
              end = true
              <-> forall t, In t (args_tag args) ->
                    exists t', In t' (tags s) /\ lower t' = lower t).
  { destruct (args_tag args) as [|t ts] eqn:E.
    - split; [intros _ t [] | reflexivity].
    - apply tags_match_iff. }
  rewrite N, T. tauto.
Qed.

Lemma selection_keeps_matching_scenarios_witness :
  select_scenarios
    {| args_dir := "tests_yaml"; args_tag := ["Smoke"]; args_name := Some "HELLO" |}
    [tagged_scenario "hello-a" ["smoke"; "fast"]; tagged_scenario "other" ["smoke"];
     tagged_scenario "Hello-b" ["slow"]; tagged_scenario "say-hello" ["SMOKE"]]
  = [tagged_scenario "hello-a" ["smoke"; "fast"];
     tagged_scenario "say-hello" ["SMOKE"]].
Proof.
  exact (proj1 (selection_keeps_matching_scenarios
                  {| args_dir := "tests_yaml"; args_tag := ["Smoke"];
                     args_name := Some "HELLO" |} _)).
Defined.

Lemma run_all_total env fuel scenarios : forall passed failed st st' p f,
  run_all env fuel scenarios passed failed st = (st', Return (p, f)) ->
  p + f = passed + failed + Z.of_nat (List.length scenarios)
  /\ passed <= p /\ failed <= f.
Proof.
  induction scenarios as [|s rest IH]; intros passed failed st st' p f.
  - cbn. unfold ret. intros [= _ <- <-]. lia.
  - rewrite run_all_step.
    destruct (run_one_scenario env fuel s st) as [st1 [r|e|]];
      [| |discriminate]; intros H; apply IH in H;
      cbn [List.length]; lia.
Qed.

(** X25: the process ends with status 0 only when scenarios were loaded,
    the filters kept at least one of them, the cluster configuration was
    read, and the run of every selected scenario returned.  When the
    filters keep nothing, [main] ends right after the load with the
    message of SystemExit, status 1, the cluster not being called. *)
Theorem main_succeeds_only_when_all_pass
  (env : Env) (fuel : nat) (args : Args) (st : State) :
  (exit_status (snd (main env fuel args st)) = Some 0 ->
   exists loaded st1 st2 st3,
     load_scenarios_from_dir env (args_dir args) st = (st1, Return loaded)
     /\ select_scenarios args loaded <> []
     /\ kube_auth env st1 = (st2, Return tt)
     /\ run_all env fuel (select_scenarios args loaded) 0 0 st2
        = (st3, Return
                  (Z.of_nat (List.length (select_scenarios args loaded)), 0)))
  /\ (forall loaded st1,
         load_scenarios_from_dir env (args_dir args) st = (st1, Return loaded) ->
         select_scenarios args loaded = [] ->
         main env fuel args st
         = (st1, Return (SystemExit_message "No scenarios matched filters"))
         /\ exit_status (snd (main env fuel args st)) = Some 1).
Proof.
  split.
  - unfold main. unfold mbind at 1.
    destruct (load_scenarios_from_dir env (args_dir args) st)
      as [st1 [loaded| |]]; cbn [snd exit_status]; try discriminate.
    destruct (select_scenarios args loaded) as [|s sel] eqn:S;
      [unfold ret; cbn; discriminate|].
    unfold mbind at 1.
    destruct (kube_auth env st1) as [st2 [[]| |]] eqn:K; cbn [snd exit_status];
      try discriminate.
    unfold mbind at 1.
    destruct (run_all env fuel (s :: sel) 0 0 st2) as [st3 [[p f]| |]] eqn:R;
      cbn [snd exit_status]; try discriminate.
    unfold mbind, print, print_line, ret. cbn [snd].
    destruct (Z.eqb_spec f 0) as [->|]; cbn [exit_status]; [|discriminate].
    intros _. exists loaded, st1, st2, st3.
    pose proof (run_all_total _ _ _ _ _ _ _ _ _ R) as T.
    rewrite S, R.
    split; [reflexivity|]. split; [discriminate|]. split; [exact K|].
    do 3 f_equal. cbn [List.length] in *. lia.
  - intros loaded st1 L S.
    assert (E : main env fuel args st
                = (st1, Return (SystemExit_message "No scenarios matched filters"))).
    { unfold main. unfold mbind at 1. rewrite L, S. reflexivity. }
    rewrite E. split; reflexivity.
Qed.

Lemma main_succeeds_only_when_all_pass_witness :
  main two_files_env 5
    {| args_dir := "/tests"; args_tag := ["nightly"]; args_name := None |} start
  = ({| tick := 3; stdout := [] |},
     Return (SystemExit_message "No scenarios matched filters")).
Proof.
  destruct (load_scenarios_from_dir two_files_env "/tests" start)
    as [st1 [loaded| |]] eqn:L; try discriminate L.
  refine (eq_trans
            (proj1 (proj2 (main_succeeds_only_when_all_pass two_files_env 5
                             {| args_dir := "/tests"; args_tag := ["nightly"];
                                args_name := None |} start) loaded st1 L _)) _).
  - injection L as <- <-. reflexivity.
  - injection L as <- <-. reflexivity.
Defined.

Lemma mbind_return_inv {A B : Type} (m : M A) (k : A -> M B) st st' (b : B) :
  mbind m k st = (st', Return b) ->
  exists a st1, m st = (st1, Return a) /\ k a st1 = (st', Return b).
Proof.
  unfold mbind. destruct (m st) as [st1 [a| |]]; try discriminate. eauto.
Qed.

(** X26: a scenario is reported as passed only after its workflow was
    submitted, was seen in a terminal phase before the timeout, and met
    its expectations: if [run_one_scenario] returns, it returns [True] with
    the name that the cluster gave to the workflow, the wait has returned a
    workflow in phase Succeeded, Failed or Error, and the evaluation of the
    expectations on that workflow has returned. *)
Theorem passed_scenario_was_checked
  (env : Env) (fuel : nat) (s : TestScenario) (st st' : State)
  (r : bool * string)
  (returned : run_one_scenario env fuel s st = (st', Return r)) :
  exists manifest created wf_name final_wf st1 st2 st3 st4,
    r = (true, wf_name)
    /\ submit_workflow env (namespace s) manifest st1 = (st2, Return created)
    /\ metadata_field created "name" metadata_name = Ok wf_name
    /\ wait_workflow env fuel (namespace s) wf_name (timeout_seconds s) st3
       = (st4, Return final_wf)
    /\ is_terminal (phase_or_unknown final_wf) = true
    /\ assert_expectations env final_wf (expect s)
         (after_line st4 (Line ("  finished: phase=" ++ phase_or_unknown final_wf)))
       = (st', Return tt).
Proof.
  unfold run_one_scenario in returned.
  do 3 (apply mbind_return_inv in returned;
        destruct returned as ([] & ? & _ & returned)).
  apply mbind_return_inv in returned.
  destruct returned as (manifest & st1 & _ & returned).
  apply mbind_return_inv in returned.
  destruct returned as (created & st2 & Sub & returned).
  apply mbind_return_inv in returned.
  destruct returned as (wf_name & st2' & N & returned).
  unfold lift in N.
  destruct (metadata_field created "name" metadata_name) as [n|] eqn:Meta;
    [|discriminate N].
  unfold ret in N. injection N as E1 E2. subst st2' n.
  apply mbind_return_inv in returned.
  destruct returned as ([] & st3 & _ & returned).
  apply mbind_return_inv in returned.
  destruct returned as (final_wf & st4 & W & returned).
  apply mbind_return_inv in returned.
  destruct returned as ([] & st5 & P & returned).
  unfold print, print_line in P. injection P as E. subst st5.
  apply mbind_return_inv in returned.
  destruct returned as ([] & st6 & A & returned).
  unfold ret in returned. injection returned as E1 E2. subst st6 r.
  exists manifest, created, wf_name, final_wf, st1, st2, st3, st4.
  split; [reflexivity|]. split; [exact Sub|]. split; [exact Meta|].
  split; [exact W|]. split; [|exact A].
  apply (wait_returns_terminal _ _ _ _ _ _ _ _ W).
Qed.

Lemma passed_scenario_was_checked_witness :
  exists final_wf,
    is_terminal (phase_or_unknown final_wf) = true
    /\ snd (run_one_scenario succeeding_env 3
              (scenario_expecting "c.yaml" "Succeeded") start)
       = Return (true, "hello-abc").
Proof.
  destruct (run_one_scenario succeeding_env 3
              (scenario_expecting "c.yaml" "Succeeded") start)
    as [st' [r| |]] eqn:R; try discriminate R.
  destruct (passed_scenario_was_checked succeeding_env 3 _ start st' r R)
    as (m & c & n & w & s1 & s2 & s3 & s4 & Hr & _ & _ & _ & T & _).
  exists w. split; [exact T|]. injection R as _ <-. reflexivity.
Defined.

End RunnerExtras.

(* --------------------------------------------------------------------- *)
(** ** The smoke-test script *)

Module SmokeExtras.

Import StringFacts ResolverFacts ExpectExtras Smoke.

Lemma bind_return_inv {A B : Type} (m : M A) (k : A -> M B) st st' (b : B) :
  mbind m k st = (st', Return b) ->
  exists a st1, m st = (st1, Return a) /\ k a st1 = (st', Return b).
Proof.
  unfold mbind. destruct (m st) as [st1 [a| |]]; try discriminate. eauto.
Qed.

Lemma try_finally_return_inv {A : Type} (body : M A) cleanup st st' (a : A) :
  try_finally body cleanup st = (st', Return a) ->
  exists st1, body st = (st1, Return a) /\ cleanup st1 = (st', Return tt).
Proof.
  unfold try_finally.
  destruct (body st) as [st1 [b| |]]; try discriminate;
    destruct (cleanup st1) as [st2 [[]| |]] eqn:C; try discriminate.
  intros H. injection H as E1 E2. subst st2 b.
  exists st1. split; [reflexivity | exact C].
Qed.

Lemma run_workflow_unfold env cmd timeout check st :
  run_workflow env cmd timeout check st
  = match subprocess_run env (tick st) cmd timeout with
    | Ok p =>
        if check && negb (returncode p =? 0)%Z
        then (after_command st cmd,
              Throw (RuntimeError (command_failed_message cmd p)))
        else (after_command st cmd, Return (output p))
    | Raise e => (after_command st cmd, Throw e)
    end.
Proof.
  unfold run_workflow, mbind, run_process, after_command.
  destruct (subprocess_run env (tick st) cmd timeout) as [p|e]; [|reflexivity].
  destruct (check && negb (returncode p =? 0)%Z); reflexivity.
Qed.

Lemma run_workflow_outcome env cmd timeout check st st' o :
  run_workflow env cmd timeout check st = (st', o) ->
  st' = after_command st cmd
  /\ match o with
     | Return out => True
     | Throw e => command_error env cmd timeout e
     | Unfinished => False
     end.
Proof.
  rewrite run_workflow_unfold.
  destruct (subprocess_run env (tick st) cmd timeout) as [p|e] eqn:R.
  - destruct check; cbn [andb].
    + destruct (Z.eqb_spec (returncode p) 0) as [E|E]; cbn [negb];
        intros [= <- <-]; (split; [reflexivity|]); [exact I|].
      exists (tick st). right. exists p. auto.
    + intros [= <- <-]. split; [reflexivity | exact I].
  - intros [= <- <-]. split; [reflexivity|]. exists (tick st). now left.
Qed.

Lemma wait_loop_step env fuel wf_name deadline last_phase st :
  wait_loop env (S fuel) wf_name deadline last_phase st
  = let st1 := {| tick := S (tick st); stdout := stdout st;
                  commands := commands st |} in
    if (time_time env (tick st) <? deadline)%Z then
      match run_workflow env (get_phase_command env wf_name) 30 true st1 with
      | (st2, Return out) =>
          let phase := strip out in
          let changed :=
            truthy (Some phase) && negb (phase =? last_phase)%string in
          let st3 :=
            if changed
            then {| tick := tick st2;
                    stdout := (stdout st2 ++ [("Phase: " ++ phase)%string])%list;
                    commands := commands st2 |}
            else st2 in
          if is_terminal phase then (st3, Return phase)
          else wait_loop env fuel wf_name deadline
                 (if changed then phase else last_phase)
                 {| tick := S (tick st3); stdout := stdout st3;
                    commands := commands st3 |}
      | (st2, Throw e) => (st2, Throw e)
      | (st2, Unfinished) => (st2, Unfinished)
      end
    else (st1, Return (str_opt (or_else (Some last_phase) (Some "Unknown")))).
Proof.
  cbn [wait_loop]. unfold mbind at 1, clock_call. cbv zeta.
  destruct (time_time env (tick st) <? deadline)%Z; [|reflexivity].
  unfold mbind at 1.
  destruct (run_workflow env (get_phase_command env wf_name) 30 true _)
    as [st2 [out| |]]; try reflexivity.
  destruct (truthy (Some (strip out)) && negb (strip out =? last_phase)%string);
    unfold mbind, print, ret, clock_call;
    destruct (is_terminal (strip out)); reflexivity.
Qed.

Lemma wait_loop_outcome env wf_name deadline : forall fuel last_phase st st' o,
  last_phase = "" \/ In ("Phase: " ++ last_phase) (stdout st) ->
  wait_loop env fuel wf_name deadline last_phase st = (st', o) ->
  match o with
  | Return phase =>
      is_terminal phase = true
      \/ phase = "Unknown"
      \/ (phase <> "" /\ In ("Phase: " ++ phase) (stdout st'))
  | Throw e => command_error env (get_phase_command env wf_name) 30 e
  | Unfinished => True
  end.
Proof.
  induction fuel as [|fuel IH]; intros last_phase st st' o Inv.
  - cbn. intros [= <- <-]. exact I.
  - rewrite wait_loop_step. cbv zeta.
    destruct (time_time env (tick st) <? deadline)%Z.
    + destruct (run_workflow env (get_phase_command env wf_name) 30 true _)
        as [st2 [out| |]] eqn:R; apply run_workflow_outcome in R;
        destruct R as [E R].
      * destruct (is_terminal (strip out)) eqn:T.
        { intros [= <- <-]. now left. }
        apply IH.
        destruct (truthy (Some (strip out))
                  && negb (strip out =? last_phase)%string).
        -- right. cbn [stdout]. apply in_or_app. right. now left.
        -- destruct Inv as [Inv|Inv]; [now left|right].
           cbn [stdout]. subst st2. exact Inv.
      * intros [= <- <-]. exact R.
      * intros [= <- <-]. exact I.
    + intros [= <- <-]. destruct last_phase as [|c r].
      * right. now left.
      * right. right. split; [discriminate|].
        destruct Inv as [Inv|Inv]; [discriminate Inv | exact Inv].
Qed.

(** X27: the wait of the script does not fail when the time is up.
    Whatever it returns is a phase among Succeeded, Failed and Error, or
    the word Unknown, or a non-empty phase that it has printed; and the
    only errors that leave it are those of the command that reads the
    phase: what [subprocess.run] raises, or a non-zero status. *)
Theorem script_wait_returns_phase_or_unknown
  (env : Env) (fuel : nat) (wf_name : string) (max_seconds : Z)
  (st st' : State) (o : outcome string)
  (ended : wait_workflow env fuel wf_name max_seconds st = (st', o)) :
  match o with
  | Return phase =>
      is_terminal phase = true
      \/ phase = "Unknown"
      \/ (phase <> "" /\ In ("Phase: " ++ phase) (stdout st'))
  | Throw e => command_error env (get_phase_command env wf_name) 30 e
  | Unfinished => True
  end.
Proof.
  unfold wait_workflow, mbind at 1, clock_call in ended.
  revert ended. apply wait_loop_outcome. now left.
Qed.

Lemma script_wait_returns_phase_or_unknown_witness :
  snd (wait_workflow stuck_script_env 10 "hello-abc" 90 script_start)
  = Return "Running"
  /\ (is_terminal "Running" = true
      \/ "Running" = "Unknown"
      \/ ("Running" <> ""
          /\ In "Phase: Running"
               (stdout (fst (wait_workflow stuck_script_env 10 "hello-abc" 90
                               script_start))))).
Proof.
  split; [reflexivity|].
  exact (script_wait_returns_phase_or_unknown stuck_script_env 10 "hello-abc" 90
           script_start _ (Return "Running") eq_refl).
Defined.

(** X28: once the submission has given a name, the workflow is deleted
    however the test ends: when the two first commands end with status 0
    and the name is not empty, the last command issued is the deletion of
    the workflow of that name; the test then ends as its [try] block did if
    the deletion process returns, whatever its status, and with the error
    of the deletion if [subprocess.run] raises one. *)
Theorem workflow_deleted_however_test_ends
  (env : Env) (fuel : nat) (st st' : State) (o : outcome unit)
  (version submitted : Completed)
  (version_run : subprocess_run env (tick st) version_command 30 = Ok version)
  (version_ok : returncode version = 0)
  (submit_run :
     subprocess_run env (S (tick st)) (submit_command env) 60 = Ok submitted)
  (submit_ok : returncode submitted = 0)
  (named : strip (output submitted) <> "")
  (ended : test_workflow_succeeds_and_prints_hello_world env fuel st = (st', o))
  (finished : o <> Unfinished) :
  exists st0 st1 o_body,
    test_body env fuel (strip (output submitted)) st0 = (st1, o_body)
    /\ commands st'
       = (commands st1 ++ [delete_command env (strip (output submitted))])%list
    /\ (forall p,
          subprocess_run env (tick st1)
            (delete_command env (strip (output submitted))) 30 = Ok p ->
          o = o_body)
    /\ (forall e,
          subprocess_run env (tick st1)
            (delete_command env (strip (output submitted))) 30 = Raise e ->
          o = Throw e).
Proof.
  revert ended. unfold test_workflow_succeeds_and_prints_hello_world.
  unfold mbind at 1, print.
  unfold mbind at 1. rewrite run_workflow_unfold. cbn [tick].
  fold version_command. rewrite version_run, version_ok. cbn [andb negb Z.eqb].
  unfold mbind at 1. rewrite run_workflow_unfold.
  unfold after_command at 1. cbn [tick].
  fold (submit_command env). rewrite submit_run, submit_ok.
  cbn [andb negb Z.eqb].
  rewrite (truthy_some _ named).
  unfold mbind at 1, assert at 1, ret at 1.
  unfold mbind at 1.
  set (st0 := {| tick := _; stdout := (_ ++ [("Submitted: " ++ _)%string])%list |}).
  unfold try_finally.
  destruct (test_body env fuel (strip (output submitted)) st0)
    as [st1 o_body] eqn:B.
  intros ended. exists st0, st1, o_body. split; [exact B|].
  assert (C : forall o1 : outcome unit,
            o1 <> Unfinished ->
            match
              mbind (run_workflow env
                       (delete_command env (strip (output submitted))) 30 false)
                (fun _ => ret tt) st1
            with
            | (st'', Return _) => (st'', o1)
            | (st'', Throw e) => (st'', Throw e)
            | (st'', Unfinished) => (st'', Unfinished)
            end = (st', o) ->
            commands st'
            = (commands st1
               ++ [delete_command env (strip (output submitted))])%list
            /\ (forall p,
                  subprocess_run env (tick st1)
                    (delete_command env (strip (output submitted))) 30 = Ok p ->
                  o = o1)
            /\ (forall e,
                  subprocess_run env (tick st1)
                    (delete_command env (strip (output submitted))) 30 = Raise e ->
                  o = Throw e)).
  { intros o1 _. unfold mbind. rewrite run_workflow_unfold. cbn [andb].
    destruct (subprocess_run env (tick st1)
                (delete_command env (strip (output submitted))) 30) as [p|e];
      unfold ret; intros [= <- <-];
      (split; [reflexivity|]); split; intros ? H; try discriminate H;
      try (injection H as H; subst); reflexivity. }
  destruct o_body as [[]|e|].
  - apply (C (Return tt)); [discriminate | exact ended].
  - apply (C (Throw e)); [discriminate | exact ended].
  - injection ended as _ E. subst o. now elim finished.
Qed.

Lemma workflow_deleted_however_test_ends_witness :
  exists st0 st1 o_body,
    test_body hello_script_env 10 "hello-abc" st0 = (st1, o_body)
    /\ commands
         (fst (test_workflow_succeeds_and_prints_hello_world hello_script_env 10
                 script_start))
       = (commands st1 ++ [["argo"; "delete"; "-n"; "argo"; "hello-abc"; "--yes"]])%list
    /\ Return tt = o_body.
Proof.
  destruct (workflow_deleted_however_test_ends hello_script_env 10 script_start
              (fst (test_workflow_succeeds_and_prints_hello_world
                      hello_script_env 10 script_start))
              (Return tt)
              {| returncode := 0; output := "argo: v3.5.0" ++ nl |}
              {| returncode := 0; output := "hello-abc" ++ nl |}
              eq_refl eq_refl eq_refl eq_refl)
    as (st0 & st1 & o_body & B & C & P & _).
  - discriminate.
  - reflexivity.
  - discriminate.
  - exists st0, st1, o_body. split; [exact B|]. split; [exact C|].
    exact (P {| returncode := 1; output := "not found" |} eq_refl).
Defined.

(** X29: the test passes only if the wait has returned the phase
    Succeeded for the workflow that was submitted, under a name that is not
    empty, and the output of [argo logs] for that workflow has the words
    hello world in it. *)
Theorem test_passes_only_on_hello_world
  (env : Env) (fuel : nat) (st st' : State)
  (passed :
     test_workflow_succeeds_and_prints_hello_world env fuel st
     = (st', Return tt)) :
  exists wf_name st1 st2 st3 logs,
    wf_name <> ""
    /\ In (submit_command env) (commands st1)
    /\ wait_workflow env fuel wf_name 90 st1 = (st2, Return "Succeeded")
    /\ run_workflow env ["argo"; "logs"; "-n"; NS env; wf_name] 60 true st2
       = (st3, Return logs)
    /\ exists before after, logs = before ++ "hello world" ++ after.
Proof.
  unfold test_workflow_succeeds_and_prints_hello_world in passed.
  apply bind_return_inv in passed. destruct passed as ([] & s1 & P1 & passed).
  unfold print in P1. injection P1 as E. subst s1.
  apply bind_return_inv in passed. destruct passed as (v & s2 & V & passed).
  apply run_workflow_outcome in V. destruct V as [-> _].
  apply bind_return_inv in passed. destruct passed as (out & s3 & Sub & passed).
  apply run_workflow_outcome in Sub. destruct Sub as [-> _].
  cbv zeta in passed.
  apply bind_return_inv in passed. destruct passed as ([] & s4 & A & passed).
  unfold assert in A.
  destruct (truthy (Some (strip out))) eqn:T; [|discriminate A].
  unfold ret in A. injection A as E. subst s4.
  apply bind_return_inv in passed. destruct passed as ([] & s5 & P2 & passed).
  unfold print in P2. injection P2 as E. subst s5.
  apply try_finally_return_inv in passed. destruct passed as (s6 & B & _).
  unfold test_body in B.
  apply bind_return_inv in B. destruct B as ([] & s7 & P3 & B).
  unfold print in P3. injection P3 as E.
  apply bind_return_inv in B. destruct B as (phase & s8 & W & B).
  apply bind_return_inv in B. destruct B as ([] & s9 & A1 & B).
  unfold assert in A1.
  destruct (String.eqb_spec phase "Succeeded") as [->|]; [|discriminate A1].
  unfold ret in A1. injection A1 as E1. subst s9.
  apply bind_return_inv in B. destruct B as (logs & s10 & L & B).
  unfold assert in B.
  destruct (contains logs "hello world") eqn:H; [|discriminate B].
  exists (strip out), s7, s8, s10, logs.
  split. { intros E0. rewrite E0 in T. discriminate T. }
  split. { subst s7. cbn. apply in_or_app. right. now left. }
  split; [exact W|]. split; [exact L|].
  now apply contains_split.
Qed.

Lemma test_passes_only_on_hello_world_witness :
  snd (test_workflow_succeeds_and_prints_hello_world hello_script_env 10
         script_start) = Return tt
  /\ exists wf_name logs before after,
       wf_name <> "" /\ logs = before ++ "hello world" ++ after.
Proof.
  split; [reflexivity|].
  destruct (test_passes_only_on_hello_world hello_script_env 10 script_start
              (fst (test_workflow_succeeds_and_prints_hello_world
                      hello_script_env 10 script_start)) eq_refl)
    as (wf_name & _ & _ & _ & logs & N & _ & _ & _ & before & after & E).
  exists wf_name, logs, before, after. split; assumption.
Defined.

End SmokeExtras.
